(** * Gameweek lifecycle and points settlement

    A shallow embedding of the stored procedures of the migration
    "Fix Gameweek Management and Points System":
    [calculate_fantasy_team_points], [finalize_gameweek],
    [update_gameweek_status] and [transfers_allowed], with
    [get_latest_finalized_gameweek], [get_display_gameweek] and the
    statements that recalculate the teams' points; of the migration that
    creates the Overall league; and of what the pages do with them: the
    hook useGameweek and the administration page GameweekManager.

    - A table is the list of its rows in scan order.  ORDER BY is a stable
      sort of that list, LIMIT 1 and SELECT ... INTO take the first row.
    - A nullable column is an [option]; conditions are evaluated in SQL's
      three-valued logic and a row is selected only when the condition is
      TRUE.
    - INTEGER arithmetic is PostgreSQL's checked 32-bit arithmetic: a result
      outside the range raises [integer_out_of_range].
    - A timestamp is an integer (microseconds).  In the SQL statements of
      the two procedures that read the clock, the word current_time is the
      key word CURRENT_TIME, a time of day, and not the variable of that
      name that the procedures set to now(): the comparison of it with a
      timestamp has no operator and the statement raises
      [undefined_function].
    - A procedure that writes is a function from the database to a result
      and the database as it stands when the procedure returns or raises;
      [rolled_back] is the call with the rollback that follows a raise,
      and [update_gameweek_status] is modelled with it.
    - A request of a page is what it does to the tables, or what it reads
      from them, when the database answers without an error; the answer
      to the call of a procedure that raises carries the error.  The clock
      of a page is an integer count of milliseconds. *)

From Stdlib Require Import ZArith NArith List Bool String Lia Permutation
  Sorted Ascii DecimalString DecimalZ DecimalPos.
Import ListNotations.
Open Scope string_scope.
Open Scope Z_scope.

(** ** SQL values and three-valued logic *)

Module Sql.

(** [None] is NULL / unknown. *)
Definition tri := option bool.

Definition and3 (a b : tri) : tri :=
  match a, b with
  | Some false, _ => Some false
  | _, Some false => Some false
  | Some true, Some true => Some true
  | _, _ => None
  end.

Definition or3 (a b : tri) : tri :=
  match a, b with
  | Some true, _ => Some true
  | _, Some true => Some true
  | Some false, Some false => Some false
  | _, _ => None
  end.

(** A WHERE, IF or WHEN condition passes only when it is TRUE. *)
Definition holds (a : tri) : bool :=
  match a with Some true => true | _ => false end.

Definition cmp {A} (op : A -> A -> bool) (a b : option A) : tri :=
  match a, b with
  | Some x, Some y => Some (op x y)
  | _, _ => None
  end.

Definition lt := cmp Z.ltb.
Definition le := cmp Z.leb.
Definition gt := cmp Z.gtb.
Definition ge := cmp Z.geb.

Definition is_not_null {A} (a : option A) : tri :=
  match a with Some _ => Some true | None => Some false end.

Definition coalesce {A} (a : option A) (d : A) : A :=
  match a with Some x => x | None => d end.

(** ORDER BY: a stable insertion sort; [before a b] says that [a] sorts
    strictly before [b].  Rows that compare equal keep their scan order. *)
Fixpoint insert_by {A} (before : A -> A -> bool) (x : A) (l : list A) : list A :=
  match l with
  | [] => [x]
  | y :: r => if before y x then y :: insert_by before x r else x :: y :: r
  end.

Fixpoint order_by {A} (before : A -> A -> bool) (l : list A) : list A :=
  match l with
  | [] => []
  | x :: r => insert_by before x (order_by before r)
  end.

(** LIMIT 1, and SELECT ... INTO of a query's first row. *)
Definition limit_1 {A} (l : list A) : option A := hd_error l.

(** UPDATE t SET ... WHERE cond. *)
Definition update_where {A} (cond : A -> bool) (set : A -> A) (t : list A) : list A :=
  map (fun r => if cond r then set r else r) t.

(** DESC on a nullable key.  PostgreSQL's default puts NULLs first. *)
Definition desc_nulls_last (a b : option Z) : bool :=
  match a, b with
  | Some x, Some y => y <? x
  | Some _, None => true
  | None, _ => false
  end.

Definition desc_nulls_first (a b : option Z) : bool :=
  match a, b with
  | Some x, Some y => y <? x
  | None, Some _ => true
  | _, None => false
  end.

End Sql.

(** ** Errors and checked INTEGER arithmetic *)

Inductive sql_error :=
| raise_exception (format : string) (arg : Z)   (* RAISE EXCEPTION 'format', arg *)
| integer_out_of_range
| undefined_function (operator : string).       (* operator does not exist *)

Inductive result (A : Type) :=
| Ok (a : A)
| Raise (e : sql_error).
Arguments Ok {A} a.
Arguments Raise {A} e.

Definition int4_min : Z := - 2147483648.
Definition int4_max : Z := 2147483647.

Definition in_int4 (z : Z) : bool := (int4_min <=? z) && (z <=? int4_max).

Definition int4 (z : Z) : result Z :=
  if in_int4 z then Ok z else Raise integer_out_of_range.

Definition int4_add (a b : Z) : result Z := int4 (a + b).
Definition int4_sub (a b : Z) : result Z := int4 (a - b).

(** ** Tables *)

Definition uuid := N.
Definition timestamptz := Z.

Module Gameweeks.
(** Modelled from the spec: the CREATE TABLE statements are not part of the
    migration.  A row has the columns the procedures read and write; the
    three times are nullable, as the IS NOT NULL tests of the procedures
    have them, the gameweek number and the status are set. *)
Record row := mk {
  gameweek_number : Z;
  status : string;
  deadline_time : option timestamptz;
  start_time : option timestamptz;
  end_time : option timestamptz;
  is_current : bool;
  is_next : bool;
  is_finished : bool
}.

Definition with_status (s : string) (g : row) : row :=
  mk (gameweek_number g) s (deadline_time g) (start_time g) (end_time g)
     (is_current g) (is_next g) (is_finished g).
Definition with_is_current (b : bool) (g : row) : row :=
  mk (gameweek_number g) (status g) (deadline_time g) (start_time g) (end_time g)
     b (is_next g) (is_finished g).
Definition with_is_next (b : bool) (g : row) : row :=
  mk (gameweek_number g) (status g) (deadline_time g) (start_time g) (end_time g)
     (is_current g) b (is_finished g).
Definition with_is_finished (b : bool) (g : row) : row :=
  mk (gameweek_number g) (status g) (deadline_time g) (start_time g) (end_time g)
     (is_current g) (is_next g) b.
End Gameweeks.
Import Gameweeks.

Definition status_is (s : string) (g : Gameweeks.row) : Sql.tri :=
  Some (String.eqb (status g) s).

(** ORDER BY gameweek_number *)
Definition by_gameweek_number (a b : Gameweeks.row) : bool :=
  gameweek_number a <? gameweek_number b.

(** SELECT gameweek_number INTO v FROM gameweeks WHERE cond
    ORDER BY gameweek_number LIMIT 1; [None] is the NULL of an empty result. *)
Definition select_first_number (cond : Gameweeks.row -> bool)
    (t : list Gameweeks.row) : option Z :=
  option_map gameweek_number
    (Sql.limit_1 (Sql.order_by by_gameweek_number (filter cond t))).

(** ** The other tables *)

Module RealMatches.
(** Modelled from the spec: a fixture belongs to exactly one gameweek and
    has a status (scheduled, live, completed, postponed). *)
Record row := mk {
  gameweek : Z;
  status : string
}.
End RealMatches.

Module FantasyTeams.
(** Modelled from the spec: the columns [finalize_gameweek] reads and
    writes; those it wraps in COALESCE or tests with IS NOT NULL are
    nullable. *)
Record row := mk {
  fantasy_team_id : uuid;
  league_id : option uuid;
  total_points : option Z;
  gameweek_points : option Z;
  current_gameweek : option Z;
  transfers_made_this_gw : option Z;
  transfers_banked : option Z;
  rank : option Z
}.

Definition with_rank (k : option Z) (t : row) : row :=
  mk (fantasy_team_id t) (league_id t) (total_points t) (gameweek_points t)
     (current_gameweek t) (transfers_made_this_gw t) (transfers_banked t) k.
End FantasyTeams.

Module Rosters.
(** Modelled from the spec: a roster entry binds a fantasy team to a player
    with the flags is_starter, is_captain and is_vice_captain. *)
Record row := mk {
  fantasy_team_id : uuid;
  player_id : uuid;
  is_starter : bool;
  is_captain : bool;
  is_vice_captain : bool
}.
End Rosters.

Module Players.
(** Modelled from the spec: of a player the procedures read the position. *)
Record row := mk {
  player_id : uuid;
  position : string
}.
End Players.

Module GameweekScores.
(** Modelled from the spec: a player's point total and minutes played for
    one gameweek; both are read through COALESCE and are nullable here. *)
Record row := mk {
  player_id : uuid;
  gameweek : Z;
  total_points : option Z;
  minutes_played : option Z
}.
End GameweekScores.

Module TeamGameweekPoints.
(** Modelled from the spec: fantasy_team_gameweek_points, one settled score
    per (fantasy_team_id, gameweek) -- the conflict target of the upsert --
    and the rank in the league for that gameweek. *)
Record row := mk {
  fantasy_team_id : uuid;
  gameweek : Z;
  points : Z;
  rank_in_league : option Z
}.

Definition with_points (p : Z) (r : row) : row :=
  mk (fantasy_team_id r) (gameweek r) p (rank_in_league r).
Definition with_rank_in_league (k : option Z) (r : row) : row :=
  mk (fantasy_team_id r) (gameweek r) (points r) k.
End TeamGameweekPoints.

Record database := mk_database {
  gameweeks : list Gameweeks.row;
  real_matches : list RealMatches.row;
  fantasy_teams : list FantasyTeams.row;
  rosters : list Rosters.row;
  players : list Players.row;
  gameweek_scores : list GameweekScores.row;
  fantasy_team_gameweek_points : list TeamGameweekPoints.row
}.

Definition with_gameweeks (t : list Gameweeks.row) (db : database) : database :=
  mk_database t (real_matches db) (fantasy_teams db) (rosters db) (players db)
              (gameweek_scores db) (fantasy_team_gameweek_points db).
Definition with_fantasy_teams (t : list FantasyTeams.row) (db : database) : database :=
  mk_database (gameweeks db) (real_matches db) t (rosters db) (players db)
              (gameweek_scores db) (fantasy_team_gameweek_points db).
Definition with_fantasy_team_gameweek_points (t : list TeamGameweekPoints.row)
    (db : database) : database :=
  mk_database (gameweeks db) (real_matches db) (fantasy_teams db) (rosters db)
              (players db) (gameweek_scores db) t.

(** ** Sequencing: errors, and PL/pgSQL code over the database *)

Class Monad (M : Type -> Type) := {
  ret : forall {A}, A -> M A;
  bind : forall {A B}, M A -> (A -> M B) -> M B
}.

Notation "x <- m ;; k" := (bind m (fun x => k))
  (at level 61, m at next level, right associativity).
Notation "' pat <- m ;; k" := (bind m (fun pat => k))
  (at level 61, pat pattern, m at next level, right associativity).
Notation "m ;;; k" := (bind m (fun _ => k))
  (at level 61, right associativity).

#[global] Instance result_monad : Monad result := {
  ret := fun A a => Ok a;
  bind := fun A B m k => match m with Ok a => k a | Raise e => Raise e end
}.

(** A procedure runs from a database to a result and the database as it
    stands when the procedure returns or raises.  (PostgreSQL then
    rolls a raising call back; the model shows what had been written.) *)
Definition plpgsql (A : Type) := database -> result A * database.

#[global] Instance plpgsql_monad : Monad plpgsql := {
  ret := fun A a db => (Ok a, db);
  bind := fun A B m k db =>
            match m db with
            | (Ok a, db') => k a db'
            | (Raise e, db') => (Raise e, db')
            end
}.

Definition raise {A} (e : sql_error) : plpgsql A := fun db => (Raise e, db).
Definition eval {A} (r : result A) : plpgsql A := fun db => (r, db).
Definition query {A} (q : database -> A) : plpgsql A := fun db => (Ok (q db), db).
Definition query_checked {A} (q : database -> result A) : plpgsql A :=
  fun db => (q db, db).
Definition perform (f : database -> database) : plpgsql unit := fun db => (Ok tt, f db).

(** A call as the statement that makes it leaves the database: what the
    procedure had written when it raises is undone. *)
Definition rolled_back {A} (m : plpgsql A) : plpgsql A :=
  fun db =>
    match m db with
    | (Ok a, db') => (Ok a, db')
    | (Raise e, _) => (Raise e, db)
    end.

(** FOR x IN rows LOOP body END LOOP, the rows fixed when the loop starts;
    [s] holds the variables the body assigns. *)
Fixpoint for_each {M} `{Monad M} {X S} (rows : list X) (s : S)
    (body : S -> X -> M S) : M S :=
  match rows with
  | [] => ret s
  | x :: r => s' <- body s x ;; for_each r s' body
  end.

(** An UPDATE whose SET expressions can raise. *)
Fixpoint update_where_checked {A} (cond : A -> bool) (set : A -> result A)
    (t : list A) : result (list A) :=
  match t with
  | [] => Ok []
  | r :: rest =>
      r' <- (if cond r then set r else Ok r) ;;
      rest' <- update_where_checked cond set rest ;;
      Ok (r' :: rest')
  end.

(** ** calculate_fantasy_team_points *)

(** A row of the loop's query. *)
Module PlayerRecord.
Record row := mk {
  player_id : uuid;
  is_starter : bool;
  is_captain : bool;
  is_vice_captain : bool;
  position : string;
  player_points : Z;            (* COALESCE(gs.total_points, 0) *)
  minutes_played : Z;           (* COALESCE(gs.minutes_played, 0) *)
  gs_total_points : option Z    (* gs.total_points, the ORDER BY key *)
}.
End PlayerRecord.

Module SubstituteRecord.
Record row := mk {
  player_id : uuid;
  sub_points : Z;               (* COALESCE(gs2.total_points, 0) *)
  sub_minutes : Z;              (* COALESCE(gs2.minutes_played, 0) *)
  gs2_total_points : option Z   (* gs2.total_points, the ORDER BY key *)
}.
End SubstituteRecord.

Section Calculator.

Variable db : database.
Variable p_fantasy_team_id : uuid.
Variable p_gameweek : Z.

(** FROM rosters WHERE fantasy_team_id = p_fantasy_team_id *)
Definition team_rosters : list Rosters.row :=
  filter (fun r => (Rosters.fantasy_team_id r =? p_fantasy_team_id)%N) (rosters db).

(** SELECT player_id INTO captain_id ...; the procedure never reads
    captain_id again, the loop goes by the is_captain flag of each row. *)
Definition captain_id : option uuid :=
  option_map Rosters.player_id
    (Sql.limit_1 (filter Rosters.is_captain team_rosters)).

Definition vice_captain_id : option uuid :=
  option_map Rosters.player_id
    (Sql.limit_1 (filter Rosters.is_vice_captain team_rosters)).

(** gameweek_scores gs WHERE gs.player_id = pid AND gs.gameweek = p_gameweek *)
Definition scores_of (pid : uuid) : list GameweekScores.row :=
  filter (fun gs => (GameweekScores.player_id gs =? pid)%N
                    && (GameweekScores.gameweek gs =? p_gameweek))
         (gameweek_scores db).

(** LEFT JOIN gameweek_scores gs ON ... : one row per matching score, or
    one row of NULLs when there is none. *)
Definition left_join_scores (pid : uuid) : list (option Z * option Z) :=
  match scores_of pid with
  | [] => [(None, None)]
  | l => map (fun gs => (GameweekScores.total_points gs,
                         GameweekScores.minutes_played gs)) l
  end.

(** rosters r JOIN players p ON r.player_id = p.player_id
    LEFT JOIN gameweek_scores gs ON r.player_id = gs.player_id
                                 AND gs.gameweek = p_gameweek
    WHERE r.fantasy_team_id = p_fantasy_team_id;
    a joined row is (r, p, gs.total_points, gs.minutes_played). *)
Definition roster_join : list (Rosters.row * Players.row * option Z * option Z) :=
  flat_map (fun r =>
    flat_map (fun p =>
      if (Rosters.player_id r =? Players.player_id p)%N
      then map (fun '(points, minutes) => (r, p, points, minutes))
               (left_join_scores (Rosters.player_id r))
      else [])
      (players db))
    team_rosters.

(** ORDER BY r.is_starter DESC, gs.total_points DESC NULLS LAST *)
Definition starters_first (a b : PlayerRecord.row) : bool :=
  (PlayerRecord.is_starter a && negb (PlayerRecord.is_starter b))
  || (Bool.eqb (PlayerRecord.is_starter a) (PlayerRecord.is_starter b)
      && Sql.desc_nulls_last (PlayerRecord.gs_total_points a)
                             (PlayerRecord.gs_total_points b)).

Definition player_records : list PlayerRecord.row :=
  Sql.order_by starters_first
    (map (fun '(r, p, points, minutes) =>
            PlayerRecord.mk (Rosters.player_id r) (Rosters.is_starter r)
              (Rosters.is_captain r) (Rosters.is_vice_captain r)
              (Players.position p)
              (Sql.coalesce points 0) (Sql.coalesce minutes 0) points)
         roster_join).

(** ORDER BY gs2.total_points DESC NULLS LAST *)
Definition best_first (a b : SubstituteRecord.row) : bool :=
  Sql.desc_nulls_last (SubstituteRecord.gs2_total_points a)
                      (SubstituteRecord.gs2_total_points b).

(** The bench query: r2.is_starter = false AND p2.position = position
    AND COALESCE(gs2.minutes_played, 0) > 0, best points first, LIMIT 1.
    No row found leaves substitute_record.player_id NULL. *)
Definition find_substitute (position : string) : option SubstituteRecord.row :=
  Sql.limit_1
    (Sql.order_by best_first
       (map (fun '(r2, p2, points, minutes) =>
               SubstituteRecord.mk (Rosters.player_id r2)
                 (Sql.coalesce points 0) (Sql.coalesce minutes 0) points)
            (filter (fun '(r2, p2, points, minutes) =>
                       Bool.eqb (Rosters.is_starter r2) false
                       && String.eqb (Players.position p2) position
                       && (Sql.coalesce minutes 0 >? 0))
                    roster_join))).

(** The body of the loop over [player_records]; the state is
    (total_points, captain_points). *)
Definition add_player (acc : Z * Z) (player_record : PlayerRecord.row)
    : result (Z * Z) :=
  let '(total_points, captain_points) := acc in
  if PlayerRecord.is_starter player_record then
    if PlayerRecord.minutes_played player_record =? 0 then
      match find_substitute (PlayerRecord.position player_record) with
      | Some substitute_record =>
          total_points <-
            int4_add total_points (SubstituteRecord.sub_points substitute_record) ;;
          Ok (total_points,
              if PlayerRecord.is_captain player_record
              then SubstituteRecord.sub_points substitute_record
              else captain_points)
      | None => Ok (total_points, captain_points)
      end
    else
      total_points <-
        int4_add total_points (PlayerRecord.player_points player_record) ;;
      Ok (total_points,
          if PlayerRecord.is_captain player_record
          then PlayerRecord.player_points player_record
          else captain_points)
  else Ok (total_points, captain_points).

(** SELECT COALESCE(gs.total_points, 0) INTO captain_points
    FROM gameweek_scores gs WHERE gs.player_id = vice_captain_id
    AND gs.gameweek = p_gameweek; NULL when no row is found. *)
Definition vice_captain_points (vice : uuid) : option Z :=
  option_map (fun gs => Sql.coalesce (GameweekScores.total_points gs) 0)
             (Sql.limit_1 (scores_of vice)).

(** The captain multiplier after the loop. *)
Definition apply_captain_bonus (total_points captain_points : Z) : result Z :=
  if captain_points >? 0 then
    int4_add total_points captain_points
  else
    match vice_captain_id with
    | Some vice =>
        let captain_points := vice_captain_points vice in
        if Sql.holds (Sql.gt captain_points (Some 0)) then
          int4_add total_points (Sql.coalesce captain_points 0)
        else Ok total_points
    | None => Ok total_points
    end.

Definition calculate_fantasy_team_points : result Z :=
  '(total_points, captain_points) <- for_each player_records (0, 0) add_player ;;
  apply_captain_bonus total_points captain_points.

End Calculator.

(** ** finalize_gameweek *)

Definition on_gameweeks (f : list Gameweeks.row -> list Gameweeks.row)
    (db : database) : database :=
  with_gameweeks (f (gameweeks db)) db.
Definition on_fantasy_teams (f : list FantasyTeams.row -> list FantasyTeams.row)
    (db : database) : database :=
  with_fantasy_teams (f (fantasy_teams db)) db.
Definition on_points (f : list TeamGameweekPoints.row -> list TeamGameweekPoints.row)
    (db : database) : database :=
  with_fantasy_team_gameweek_points (f (fantasy_team_gameweek_points db)) db.

Definition cannot_finalize : string :=
  "Cannot finalize gameweek %. Not all matches are completed.".

Section Finalizer.

Variable p_gameweek : Z.

(** EXISTS (SELECT 1 FROM real_matches
            WHERE gameweek = p_gameweek AND status != 'completed') *)
Definition has_incomplete_match (db : database) : bool :=
  existsb (fun m => (RealMatches.gameweek m =? p_gameweek)
                    && negb (String.eqb (RealMatches.status m) "completed"))
          (real_matches db).

Definition points_key (team : uuid) (r : TeamGameweekPoints.row) : bool :=
  (TeamGameweekPoints.fantasy_team_id r =? team)%N
  && (TeamGameweekPoints.gameweek r =? p_gameweek).

(** INSERT ... ON CONFLICT (fantasy_team_id, gameweek)
    DO UPDATE SET points = EXCLUDED.points *)
Definition upsert_points (team : uuid) (team_points : Z)
    (t : list TeamGameweekPoints.row) : list TeamGameweekPoints.row :=
  if existsb (points_key team) t
  then Sql.update_where (points_key team)
                        (TeamGameweekPoints.with_points team_points) t
  else t ++ [TeamGameweekPoints.mk team p_gameweek team_points None].

(** The SET list of UPDATE fantasy_teams, on one row. *)
Definition settle_team (team_points next_gameweek : Z) (t : FantasyTeams.row)
    : result FantasyTeams.row :=
  sum <- int4_add (Sql.coalesce (FantasyTeams.total_points t) 0) team_points ;;
  total <- int4_sub sum (Sql.coalesce (FantasyTeams.gameweek_points t) 0) ;;
  banked <- int4_add (Sql.coalesce (FantasyTeams.transfers_banked t) 0) 1 ;;
  Ok (FantasyTeams.mk (FantasyTeams.fantasy_team_id t) (FantasyTeams.league_id t)
        (Some total) (Some team_points) (Some next_gameweek) (Some 0)
        (Some (Z.min banked 1)) (FantasyTeams.rank t)).

Definition is_team (team : uuid) (t : FantasyTeams.row) : bool :=
  (FantasyTeams.fantasy_team_id t =? team)%N.

(** The body of the first loop, for one team_record. *)
Definition settle (team : uuid) : plpgsql unit :=
  team_points <-
    query_checked (fun db => calculate_fantasy_team_points db team p_gameweek) ;;
  perform (on_points (upsert_points team team_points)) ;;;
  next_gameweek <- eval (int4_add p_gameweek 1) ;;
  teams <- query_checked (fun db =>
             update_where_checked (is_team team)
               (settle_team team_points next_gameweek) (fantasy_teams db)) ;;
  perform (with_fantasy_teams teams).

(** SELECT fantasy_team_id, league_id FROM fantasy_teams ORDER BY fantasy_team_id *)
Definition teams_by_id (db : database) : list uuid :=
  map FantasyTeams.fantasy_team_id
    (Sql.order_by (fun a b => (FantasyTeams.fantasy_team_id a
                               <? FantasyTeams.fantasy_team_id b)%N)
                  (fantasy_teams db)).

(** SELECT DISTINCT league_id FROM fantasy_teams WHERE league_id IS NOT NULL *)
Definition league_ids (db : database) : list uuid :=
  nodup N.eq_dec
    (flat_map (fun t => match FantasyTeams.league_id t with
                        | Some l => [l]
                        | None => []
                        end)
              (fantasy_teams db)).

(** fantasy_teams ft JOIN fantasy_team_gameweek_points fgp
    ON ft.fantasy_team_id = fgp.fantasy_team_id
    WHERE ft.league_id = league AND fgp.gameweek = p_gameweek
    ORDER BY fgp.points DESC; a row is (ft.fantasy_team_id, fgp.points). *)
Definition league_table (league : uuid) (db : database) : list (uuid * Z) :=
  Sql.order_by (fun a b => snd b <? snd a)
    (flat_map (fun ft =>
       if Sql.holds (Sql.cmp N.eqb (FantasyTeams.league_id ft) (Some league))
       then flat_map (fun fgp =>
              if points_key (FantasyTeams.fantasy_team_id ft) fgp
              then [(FantasyTeams.fantasy_team_id ft, TeamGameweekPoints.points fgp)]
              else [])
              (fantasy_team_gameweek_points db)
       else [])
       (fantasy_teams db)).

Definition rank_in_league (rank_counter : Z) (member : uuid * Z) : plpgsql Z :=
  perform (on_points
    (Sql.update_where (points_key (fst member))
       (TeamGameweekPoints.with_rank_in_league (Some rank_counter)))) ;;;
  eval (int4_add rank_counter 1).

Definition rank_league (rank_counter : Z) (league : uuid) : plpgsql Z :=
  let rank_counter := 1 in
  members <- query (league_table league) ;;
  for_each members rank_counter rank_in_league.

(** ORDER BY total_points DESC, fantasy_team_id *)
Definition overall_order (a b : FantasyTeams.row) : bool :=
  Sql.desc_nulls_first (FantasyTeams.total_points a) (FantasyTeams.total_points b)
  || (negb (Sql.desc_nulls_first (FantasyTeams.total_points b)
                                 (FantasyTeams.total_points a))
      && (FantasyTeams.fantasy_team_id a <? FantasyTeams.fantasy_team_id b)%N).

Definition overall_table (db : database) : list uuid :=
  map FantasyTeams.fantasy_team_id (Sql.order_by overall_order (fantasy_teams db)).

Definition rank_overall (rank_counter : Z) (team : uuid) : plpgsql Z :=
  perform (on_fantasy_teams
    (Sql.update_where (is_team team) (FantasyTeams.with_rank (Some rank_counter)))) ;;;
  eval (int4_add rank_counter 1).

(** The three UPDATE gameweeks statements. *)
Definition finalize_target (t : list Gameweeks.row) : list Gameweeks.row :=
  Sql.update_where (fun g => gameweek_number g =? p_gameweek)
    (fun g => with_is_current false (with_is_finished true (with_status "finalized" g)))
    t.

Definition promote_next (next : Z) (t : list Gameweeks.row) : list Gameweeks.row :=
  Sql.update_where (fun g => gameweek_number g =? next)
    (fun g => with_is_next false (with_is_current true (with_status "active" g)))
    t.

Definition mark_after_next (after : Z) (t : list Gameweeks.row) : list Gameweeks.row :=
  Sql.update_where (fun g => gameweek_number g =? after) (with_is_next true) t.

Definition finalize_gameweek : plpgsql unit :=
  let rank_counter := 1 in
  incomplete <- query has_incomplete_match ;;
  (if incomplete
   then raise (raise_exception cannot_finalize p_gameweek)
   else ret tt) ;;;
  teams <- query teams_by_id ;;
  for_each teams tt (fun _ team => settle team) ;;;
  leagues <- query league_ids ;;
  rank_counter <- for_each leagues rank_counter rank_league ;;
  let rank_counter := 1 in
  teams <- query overall_table ;;
  rank_counter <- for_each teams rank_counter rank_overall ;;
  perform (on_gameweeks finalize_target) ;;;
  next <- eval (int4_add p_gameweek 1) ;;
  perform (on_gameweeks (promote_next next)) ;;;
  after <- eval (int4_add p_gameweek 2) ;;
  perform (on_gameweeks (mark_after_next after)).

End Finalizer.

(** ** The clock in a SQL statement

    [update_gameweek_status] and [transfers_allowed] declare a variable
    current_time TIMESTAMPTZ := now().  PL/pgSQL puts a variable in the
    place of a column reference of a SQL statement, and the word
    current_time in a statement is no column reference: it is the key word
    CURRENT_TIME, the time of day with its zone (TIMETZ).  The statements of
    the two procedures therefore read CURRENT_TIME; the variable is never
    read.  The time columns of gameweeks are timestamps (the migration
    sets them from deadline_time::timestamptz and the like), and
    PostgreSQL has no comparison operator between a TIMETZ and a
    TIMESTAMPTZ, nor an implicit cast from the one to the other: a
    statement with such a comparison raises undefined_function
    (SQLSTATE 42883) when it is analysed, before it reads a row. *)

Inductive sql_type := TIMESTAMPTZ | TIMETZ.

Module Typed.

(** An expression for a time over a row of gameweeks: its type and its
    value at a row. *)
Record time := mk_time {
  type_of : sql_type;
  value : Gameweeks.row -> option Z
}.

(** One of the columns deadline_time, start_time and end_time. *)
Definition column (c : Gameweeks.row -> option timestamptz) : time :=
  mk_time TIMESTAMPTZ c.

Definition microseconds_per_day : Z := 86400000000.

(** CURRENT_TIME in a transaction started at [now]: the time of day. *)
Definition CURRENT_TIME (now : timestamptz) : time :=
  mk_time TIMETZ (fun _ => Some (now mod microseconds_per_day)).

Definition same_type (a b : sql_type) : bool :=
  match a, b with
  | TIMESTAMPTZ, TIMESTAMPTZ => true
  | TIMETZ, TIMETZ => true
  | _, _ => false
  end.

(** What the analysis of a statement makes of a condition: the function of
    the row that the statement then evaluates, or the error. *)
Definition condition := result (Gameweeks.row -> Sql.tri).

(** A comparison: its operator exists between two times of the same type. *)
Definition compare (operator : string) (op : Z -> Z -> bool) (a b : time)
    : condition :=
  if same_type (type_of a) (type_of b)
  then Ok (fun g => Sql.cmp op (value a g) (value b g))
  else Raise (undefined_function operator).

Definition lt := compare "<" Z.ltb.
Definition le := compare "<=" Z.leb.
Definition gt := compare ">" Z.gtb.
Definition ge := compare ">=" Z.geb.

Definition is_not_null (a : time) : condition :=
  Ok (fun g => Sql.is_not_null (value a g)).

(** A condition on columns that are no times. *)
Definition of_row (c : Gameweeks.row -> Sql.tri) : condition := Ok c.

Definition and3 (a b : condition) : condition :=
  f <- a ;; g <- b ;; Ok (fun r => Sql.and3 (f r) (g r)).

Definition or3 (a b : condition) : condition :=
  f <- a ;; g <- b ;; Ok (fun r => Sql.or3 (f r) (g r)).

End Typed.

(** SELECT gameweek_number INTO v FROM gameweeks WHERE cond
    ORDER BY gameweek_number LIMIT 1, analysed and then run. *)
Definition select_number_into (cond : Typed.condition) : plpgsql (option Z) :=
  where_ <- eval cond ;;
  query (fun db => select_first_number (fun g => Sql.holds (where_ g))
                                       (gameweeks db)).

(** SELECT EXISTS (SELECT 1 FROM gameweeks WHERE cond) INTO v, analysed
    and then run. *)
Definition select_exists_into (cond : Typed.condition) (t : list Gameweeks.row)
    : result bool :=
  where_ <- cond ;;
  Ok (existsb (fun g => Sql.holds (where_ g)) t).

(** ** update_gameweek_status *)

Section Resolver.

(** now(), the start of the transaction. *)
Variable now : timestamptz.

Let CURRENT_TIME : Typed.time := Typed.CURRENT_TIME now.

(** (current_time >= start_time AND current_time <= end_time) OR status = 'active' *)
Definition is_live : Typed.condition :=
  Typed.or3
    (Typed.and3 (Typed.ge CURRENT_TIME (Typed.column start_time))
                (Typed.le CURRENT_TIME (Typed.column end_time)))
    (Typed.of_row (status_is "active")).

(** status IN ('upcoming', 'locked') OR current_time < start_time *)
Definition is_pending : Typed.condition :=
  Typed.or3
    (Typed.of_row (fun g => Sql.or3 (status_is "upcoming" g) (status_is "locked" g)))
    (Typed.lt CURRENT_TIME (Typed.column start_time)).

(** The CASE expression of the final UPDATE. *)
Definition status_case : result (Gameweeks.row -> string) :=
  is_finalized <- Typed.of_row (status_is "finalized") ;;
  before_deadline <-
    Typed.and3 (Typed.is_not_null (Typed.column deadline_time))
               (Typed.lt CURRENT_TIME (Typed.column deadline_time)) ;;
  before_start <-
    Typed.and3 (Typed.and3 (Typed.is_not_null (Typed.column deadline_time))
                           (Typed.ge CURRENT_TIME (Typed.column deadline_time)))
               (Typed.lt CURRENT_TIME (Typed.column start_time)) ;;
  before_end <-
    Typed.and3 (Typed.and3 (Typed.is_not_null (Typed.column start_time))
                           (Typed.ge CURRENT_TIME (Typed.column start_time)))
               (Typed.le CURRENT_TIME (Typed.column end_time)) ;;
  after_end <-
    Typed.and3 (Typed.is_not_null (Typed.column end_time))
               (Typed.gt CURRENT_TIME (Typed.column end_time)) ;;
  Ok (fun g =>
        if Sql.holds (is_finalized g) then "finalized"
        else if Sql.holds (before_deadline g) then "upcoming"
        else if Sql.holds (before_start g) then "locked"
        else if Sql.holds (before_end g) then "active"
        else if Sql.holds (after_end g) then "finalized"
        else status g).

(** WHERE deadline_time IS NOT NULL AND start_time IS NOT NULL AND end_time IS NOT NULL *)
Definition has_all_times : Typed.condition :=
  Typed.and3 (Typed.and3 (Typed.is_not_null (Typed.column deadline_time))
                         (Typed.is_not_null (Typed.column start_time)))
             (Typed.is_not_null (Typed.column end_time)).

(** UPDATE gameweeks SET is_current = false, is_next = false *)
Definition reset_flags (t : list Gameweeks.row) : list Gameweeks.row :=
  map (fun g => with_is_next false (with_is_current false g)) t.

(** The call with its rollback: the first SELECT is analysed after the
    flags are reset, and what the procedure has written when a statement
    raises is undone. *)
Definition update_gameweek_status : plpgsql unit :=
  rolled_back
    (perform (on_gameweeks reset_flags) ;;;
     current_gw <- select_number_into is_live ;;
     current_gw <- match current_gw with
                   | None => select_number_into is_pending
                   | Some _ => ret current_gw
                   end ;;
     match current_gw with
     | Some current_gw =>
         perform (on_gameweeks
                    (Sql.update_where (fun g => gameweek_number g =? current_gw)
                                      (with_is_current true))) ;;;
         next_gw <- select_number_into
                      (Typed.of_row
                         (fun g => Some (gameweek_number g >? current_gw))) ;;
         match next_gw with
         | Some next_gw =>
             perform (on_gameweeks
                        (Sql.update_where (fun g => gameweek_number g =? next_gw)
                                          (with_is_next true)))
         | None => ret tt
         end
     | None => ret tt
     end ;;;
     set_status <- eval status_case ;;
     where_ <- eval has_all_times ;;
     perform (on_gameweeks
                (Sql.update_where (fun g => Sql.holds (where_ g))
                                  (fun g => with_status (set_status g) g)))).

(** ** transfers_allowed *)

(** status IN (statuses) AND deadline_time IS NOT NULL
    AND current_time >= deadline_time *)
Definition past_deadline (statuses : list string) : Typed.condition :=
  Typed.and3
    (Typed.and3
       (Typed.of_row (fun g => Some (existsb (String.eqb (status g)) statuses)))
       (Typed.is_not_null (Typed.column deadline_time)))
    (Typed.ge CURRENT_TIME (Typed.column deadline_time)).

Definition transfers_allowed (t : list Gameweeks.row) : result bool :=
  has_active_gw <- select_exists_into (Typed.of_row (status_is "active")) t ;;
  if negb has_active_gw then
    deadline_passed <- select_exists_into (past_deadline ["upcoming"; "locked"]) t ;;
    if negb deadline_passed then
      deadline_passed <- (found <- select_exists_into (past_deadline ["upcoming"]) t ;;
                          Ok (negb found)) ;;
      Ok (negb deadline_passed)
    else
      Ok (negb deadline_passed)
  else
    Ok false.

End Resolver.

(** ** Key and domain constraints of the schema *)

(** Modelled from the spec: the table declarations are not part of the
    migration; the key constraints of the data model (unique ordinal
    numbers, primary keys, one score per player and gameweek, one captain
    per team) are checks on a database, and a theorem that relies on one
    assumes it. *)
Fixpoint distinct {A} (eqb : A -> A -> bool) (l : list A) : bool :=
  match l with
  | [] => true
  | x :: r => negb (existsb (eqb x) r) && distinct eqb r
  end.

(** gameweeks.gameweek_number is unique. *)
Definition gameweek_numbers_unique (t : list Gameweeks.row) : bool :=
  distinct Z.eqb (map gameweek_number t).

(** fantasy_teams.fantasy_team_id is the primary key. *)
Definition team_ids_unique (db : database) : bool :=
  distinct N.eqb (map FantasyTeams.fantasy_team_id (fantasy_teams db)).

(** players.player_id is the primary key. *)
Definition player_ids_unique (db : database) : bool :=
  distinct N.eqb (map Players.player_id (players db)).

(** rosters.player_id references players. *)
Definition roster_players_exist (db : database) : bool :=
  forallb (fun r => existsb (fun p => (Rosters.player_id r =? Players.player_id p)%N)
                            (players db))
          (rosters db).

(** One gameweek_scores row per player and gameweek. *)
Definition score_key_eqb (a b : uuid * Z) : bool :=
  (fst a =? fst b)%N && (snd a =? snd b).

Definition scores_unique (db : database) : bool :=
  distinct score_key_eqb
    (map (fun gs => (GameweekScores.player_id gs, GameweekScores.gameweek gs))
         (gameweek_scores db)).

(** A stored score has its points, an INTEGER, and its minutes, not negative. *)
Definition scores_recorded (db : database) : bool :=
  forallb (fun gs =>
             match GameweekScores.total_points gs, GameweekScores.minutes_played gs with
             | Some p, Some m => in_int4 p && (0 <=? m)
             | _, _ => false
             end)
          (gameweek_scores db).

Definition scoring_schema (db : database) : bool :=
  player_ids_unique db && roster_players_exist db
  && scores_unique db && scores_recorded db.

(** ** The points rules in the words of the specification *)

Definition sum_of (l : list Z) : Z := fold_right Z.add 0 l.

Section PointsRules.

Variable db : database.
Variable team : uuid.
Variable gw : Z.

(** The player's recorded points and minutes for the gameweek, a missing
    record counting as zero. *)
Definition recorded_points (pid : uuid) : Z :=
  match Sql.limit_1 (scores_of db gw pid) with
  | Some gs => Sql.coalesce (GameweekScores.total_points gs) 0
  | None => 0
  end.

Definition recorded_minutes (pid : uuid) : Z :=
  match Sql.limit_1 (scores_of db gw pid) with
  | Some gs => Sql.coalesce (GameweekScores.minutes_played gs) 0
  | None => 0
  end.

Definition position_of (pid : uuid) : option string :=
  option_map Players.position
    (find (fun p => (pid =? Players.player_id p)%N) (players db)).

Definition same_position (a b : option string) : bool :=
  match a, b with
  | Some x, Some y => String.eqb x y
  | _, _ => false
  end.

(** A bench player in the same position with nonzero minutes. *)
Definition eligible_substitute (starter : Rosters.row) (r : Rosters.row) : bool :=
  negb (Rosters.is_starter r)
  && same_position (position_of (Rosters.player_id r))
                   (position_of (Rosters.player_id starter))
  && negb (recorded_minutes (Rosters.player_id r) =? 0).

Definition highest (l : list Z) : option Z :=
  match l with
  | [] => None
  | x :: r => Some (fold_left Z.max r x)
  end.

(** The points of the highest-scoring eligible substitute, if one exists. *)
Definition substitute_points (starter : Rosters.row) : option Z :=
  highest (map (fun r => recorded_points (Rosters.player_id r))
               (filter (eligible_substitute starter) (team_rosters db team))).

(** What one starting roster entry contributes. *)
Definition starter_contribution (r : Rosters.row) : Z :=
  if 0 <? recorded_minutes (Rosters.player_id r)
  then recorded_points (Rosters.player_id r)
  else match substitute_points r with
       | Some s => s
       | None => 0
       end.

Definition starters : list Rosters.row :=
  filter Rosters.is_starter (team_rosters db team).

Definition base_total : Z := sum_of (map starter_contribution starters).

(** The captain's contribution after substitution: that of the captain's
    roster entry when it is a starter, nothing otherwise. *)
Definition captain_contribution : Z :=
  match filter Rosters.is_captain starters with
  | r :: _ => starter_contribution r
  | [] => 0
  end.

(** The vice-captain's positive recorded score, added once. *)
Definition vice_captain_bonus : Z :=
  match vice_captain_id db team with
  | Some vice => if 0 <? recorded_points vice then recorded_points vice else 0
  | None => 0
  end.

Definition at_most_one_captain : bool :=
  (List.length (filter Rosters.is_captain (team_rosters db team)) <=? 1)%nat.

End PointsRules.

(** ** The loop of the calculator, row by row *)

Section LoopView.

Variable db : database.
Variable team : uuid.
Variable gw : Z.

(** What the loop body adds to total_points for one row, if anything. *)
Definition contribution (player_record : PlayerRecord.row) : option Z :=
  if PlayerRecord.is_starter player_record then
    if PlayerRecord.minutes_played player_record =? 0 then
      option_map SubstituteRecord.sub_points
        (find_substitute db team gw (PlayerRecord.position player_record))
    else Some (PlayerRecord.player_points player_record)
  else None.

Definition counted (player_record : PlayerRecord.row) : Z :=
  Sql.coalesce (contribution player_record) 0.

(** captain_points after the loop has gone through [rows]. *)
Definition captain_after (captain_points : Z) (rows : list PlayerRecord.row) : Z :=
  fold_left (fun c player_record =>
               match contribution player_record with
               | Some x => if PlayerRecord.is_captain player_record then x else c
               | None => c
               end)
            rows captain_points.

(** The players row and the score columns the join attaches to a roster
    entry when keys are unique. *)
Definition player_of (r : Rosters.row) : Players.row :=
  match find (fun p => (Rosters.player_id r =? Players.player_id p)%N) (players db) with
  | Some p => p
  | None => Players.mk (Rosters.player_id r) ""
  end.

Definition score_columns (pid : uuid) : option Z * option Z :=
  match Sql.limit_1 (scores_of db gw pid) with
  | Some gs => (GameweekScores.total_points gs, GameweekScores.minutes_played gs)
  | None => (None, None)
  end.

Definition joined_row (r : Rosters.row)
    : Rosters.row * Players.row * option Z * option Z :=
  (r, player_of r, fst (score_columns (Rosters.player_id r)),
   snd (score_columns (Rosters.player_id r))).

Definition record_of (j : Rosters.row * Players.row * option Z * option Z)
    : PlayerRecord.row :=
  let '(r, p, points, minutes) := j in
  PlayerRecord.mk (Rosters.player_id r) (Rosters.is_starter r)
    (Rosters.is_captain r) (Rosters.is_vice_captain r) (Players.position p)
    (Sql.coalesce points 0) (Sql.coalesce minutes 0) points.

Definition substitute_of (j : Rosters.row * Players.row * option Z * option Z)
    : SubstituteRecord.row :=
  let '(r2, p2, points, minutes) := j in
  SubstituteRecord.mk (Rosters.player_id r2)
    (Sql.coalesce points 0) (Sql.coalesce minutes 0) points.

End LoopView.

(** ** What a step of a procedure leaves alone *)

(** [keeps R m]: whatever [m] returns or raises, the database it leaves is
    related by [R] to the one it started from. *)
Definition keeps {A} (R : database -> database -> Prop) (m : plpgsql A) : Prop :=
  forall db, R db (snd (m db)).

(** The tables [finalize_gameweek] only reads before it updates gameweeks. *)
Definition same_inputs (db db' : database) : Prop :=
  gameweeks db' = gameweeks db
  /\ real_matches db' = real_matches db
  /\ rosters db' = rosters db
  /\ players db' = players db
  /\ gameweek_scores db' = gameweek_scores db.

Definition raises_only_overflow {A} (m : plpgsql A) : Prop :=
  forall db e db', m db = (Raise e, db') -> e = integer_out_of_range.

(** Every column of a fantasy team but its rank. *)
Definition same_but_rank (a b : FantasyTeams.row) : Prop :=
  FantasyTeams.fantasy_team_id b = FantasyTeams.fantasy_team_id a
  /\ FantasyTeams.league_id b = FantasyTeams.league_id a
  /\ FantasyTeams.total_points b = FantasyTeams.total_points a
  /\ FantasyTeams.gameweek_points b = FantasyTeams.gameweek_points a
  /\ FantasyTeams.current_gameweek b = FantasyTeams.current_gameweek a
  /\ FantasyTeams.transfers_made_this_gw b = FantasyTeams.transfers_made_this_gw a
  /\ FantasyTeams.transfers_banked b = FantasyTeams.transfers_banked a.

(** A fantasy team row before and after the first loop of
    [finalize_gameweek p_gameweek] has settled it, the points being those
    calculated on [db]. *)
Definition settled (db : database) (p_gameweek : Z) (old new : FantasyTeams.row)
    : Prop :=
  exists points next,
    calculate_fantasy_team_points db (FantasyTeams.fantasy_team_id old) p_gameweek
    = Ok points
    /\ int4_add p_gameweek 1 = Ok next
    /\ settle_team points next old = Ok new.

Definition same_teams_but_rank (db db' : database) : Prop :=
  Forall2 same_but_rank (fantasy_teams db) (fantasy_teams db').

(** What the three UPDATE gameweeks statements of [finalize_gameweek] do to
    one row, in their order. *)
Definition advance_row (p_gameweek : Z) (r : Gameweeks.row) : Gameweeks.row :=
  let r := if gameweek_number r =? p_gameweek
           then with_is_current false (with_is_finished true (with_status "finalized" r))
           else r in
  let r := if gameweek_number r =? p_gameweek + 1
           then with_is_next false (with_is_current true (with_status "active" r))
           else r in
  if gameweek_number r =? p_gameweek + 2 then with_is_next true r else r.

(** ** Concrete tables *)

Module Example.

(** One gameweek, 'upcoming', with its deadline at 10, its start at 20 and
    its end at 30; the instant 15 lies between the deadline and the start. *)
Definition past_the_deadline : database :=
  mk_database
    [ Gameweeks.mk 1 "upcoming" (Some 10) (Some 20) (Some 30) false false false ]
    [] [] [] [] [] [].

(** A new season: gameweeks 1 and 2, both 'upcoming' with their times
    ahead of the instant 5, and no flag set. *)
Definition new_season : database :=
  mk_database
    [ Gameweeks.mk 1 "upcoming" (Some 25) (Some 30) (Some 40) false false false;
      Gameweeks.mk 2 "upcoming" (Some 45) (Some 50) (Some 60) false false false ]
    [] [] [] [] [] [].

(** The worked example: starters scoring 5 (the captain), 3 and an absent
    starter, and a bench player of the absent starter's position with 4. *)
Definition worked : database :=
  mk_database [] [] [FantasyTeams.mk 1%N None None None None None None None]
    [ Rosters.mk 1%N 10%N true true false;
      Rosters.mk 1%N 11%N true false true;
      Rosters.mk 1%N 12%N true false false;
      Rosters.mk 1%N 13%N false false false ]
    [ Players.mk 10%N "FWD"; Players.mk 11%N "MID";
      Players.mk 12%N "DEF"; Players.mk 13%N "DEF" ]
    [ GameweekScores.mk 10%N 1 (Some 5) (Some 90);
      GameweekScores.mk 11%N 1 (Some 3) (Some 90);
      GameweekScores.mk 12%N 1 (Some 0) (Some 0);
      GameweekScores.mk 13%N 1 (Some 4) (Some 60) ]
    [].

(** A captain who played and scored -1, and a vice-captain with 6. *)
Definition captain_below_zero : database :=
  mk_database [] [] [FantasyTeams.mk 1%N None None None None None None None]
    [ Rosters.mk 1%N 10%N true true false;
      Rosters.mk 1%N 11%N true false true ]
    [ Players.mk 10%N "DEF"; Players.mk 11%N "MID" ]
    [ GameweekScores.mk 10%N 1 (Some (-1)) (Some 90);
      GameweekScores.mk 11%N 1 (Some 6) (Some 90) ]
    [].

(** A team without starters whose vice-captain, on the bench, scored 6. *)
Definition no_starters : database :=
  mk_database [] [] [FantasyTeams.mk 1%N None None None None None None None]
    [ Rosters.mk 1%N 10%N false true false;
      Rosters.mk 1%N 11%N false false true ]
    [ Players.mk 10%N "DEF"; Players.mk 11%N "MID" ]
    [ GameweekScores.mk 10%N 1 (Some 2) (Some 90);
      GameweekScores.mk 11%N 1 (Some 6) (Some 90) ]
    [].

(** Gameweek 1 with its matches completed, gameweek 2 already
    'finalized', gameweek 3 upcoming, and the team of the worked example
    with 40 points so far, 7 of them recorded as its gameweek points. *)
Definition season : database :=
  mk_database
    [ Gameweeks.mk 1 "active" (Some 0) (Some 10) (Some 20) true false false;
      Gameweeks.mk 2 "finalized" (Some 25) (Some 30) (Some 40) false true true;
      Gameweeks.mk 3 "upcoming" (Some 45) (Some 50) (Some 60) false false false ]
    [ RealMatches.mk 1 "completed"; RealMatches.mk 1 "completed";
      RealMatches.mk 2 "scheduled" ]
    [ FantasyTeams.mk 1%N (Some 7%N) (Some 40) (Some 7) (Some 1) (Some 2)
        (Some 0) None ]
    (rosters worked) (players worked) (gameweek_scores worked) [].

(** The same season with one match of gameweek 1 still live. *)
Definition match_live : database :=
  mk_database (gameweeks season)
    [ RealMatches.mk 1 "completed"; RealMatches.mk 1 "live" ]
    (fantasy_teams season) (rosters season) (players season)
    (gameweek_scores season) [].

End Example.

(** ** get_latest_finalized_gameweek and get_display_gameweek *)

(** MAX over a column; NULL over no rows. *)
Definition sql_max (l : list Z) : option Z :=
  match l with
  | [] => None
  | x :: r => Some (fold_left Z.max r x)
  end.

(** SELECT MAX(gameweek_number) FROM gameweeks WHERE status = 'finalized' *)
Definition max_finalized (t : list Gameweeks.row) : option Z :=
  sql_max (map gameweek_number
               (filter (fun g => Sql.holds (status_is "finalized" g)) t)).

Definition get_latest_finalized_gameweek (t : list Gameweeks.row) : Z :=
  let latest_gw := max_finalized t in
  Sql.coalesce latest_gw 0.

Definition get_display_gameweek (t : list Gameweeks.row) : Z :=
  (* SELECT gameweek_number INTO current_gw FROM gameweeks
     WHERE status = 'active' LIMIT 1 *)
  let current_gw :=
    option_map gameweek_number
      (Sql.limit_1 (filter (fun g => Sql.holds (status_is "active" g)) t)) in
  match current_gw with
  | None =>
      let latest_finalized := max_finalized t in
      Sql.coalesce latest_finalized 1
  | Some current_gw => current_gw
  end.

(** ** Counting loops *)

(** The position of [x] in [l], from 0. *)
Fixpoint index_of (x : uuid) (l : list uuid) : option nat :=
  match l with
  | [] => None
  | y :: r => if (x =? y)%N then Some 0%nat else option_map S (index_of x r)
  end.

(** The values rank_counter takes over [n] rounds of a loop entered with [k]. *)
Definition ranks_from (k : Z) (n : nat) : list Z :=
  map (fun i => k + Z.of_nat i) (seq 0 n).

(** The fantasy teams in the order of the overall ranking query. *)
Definition overall_ranking (db : database) : list FantasyTeams.row :=
  Sql.order_by overall_order (fantasy_teams db).

(** What a loop of [rank_overall] over the ids [l], entered with the counter
    [k], does to one row. *)
Definition rank_by_position (l : list uuid) (k : Z) (r : FantasyTeams.row)
    : FantasyTeams.row :=
  match index_of (FantasyTeams.fantasy_team_id r) l with
  | Some i => FantasyTeams.with_rank (Some (k + Z.of_nat i)) r
  | None => r
  end.

(** ** The ledger of gameweek points *)

(** (fantasy_team_id, gameweek), the conflict target of the upsert. *)
Definition ledger_key (r : TeamGameweekPoints.row) : uuid * Z :=
  (TeamGameweekPoints.fantasy_team_id r, TeamGameweekPoints.gameweek r).

(** The unique index on (fantasy_team_id, gameweek) that ON CONFLICT names. *)
Definition ledger_keys_unique (db : database) : bool :=
  distinct score_key_eqb (map ledger_key (fantasy_team_gameweek_points db)).

(** The rows of the ledger that belong to other gameweeks than [g]. *)
Definition other_gameweeks (g : Z) (t : list TeamGameweekPoints.row)
    : list TeamGameweekPoints.row :=
  filter (fun r => negb (TeamGameweekPoints.gameweek r =? g)) t.

(** The upserts of the first loop of [finalize_gameweek g] over the teams
    [l], one after the other, [pts] giving the points of a team. *)
Definition record_all (g : Z) (pts : uuid -> Z) (l : list uuid)
    (t : list TeamGameweekPoints.row) : list TeamGameweekPoints.row :=
  fold_left (fun t team => upsert_points g team (pts team) t) l t.

(** Every column of a ledger row but its rank in the league, and the whole
    row when it belongs to another gameweek than [g]. *)
Definition same_but_league_rank (g : Z) (a b : TeamGameweekPoints.row) : Prop :=
  ledger_key b = ledger_key a
  /\ TeamGameweekPoints.points b = TeamGameweekPoints.points a
  /\ (TeamGameweekPoints.gameweek a <> g -> b = a).

Definition same_ledger_but_rank (g : Z) (db db' : database) : Prop :=
  Forall2 (same_but_league_rank g)
          (fantasy_team_gameweek_points db) (fantasy_team_gameweek_points db').

Definition same_ledger (db db' : database) : Prop :=
  fantasy_team_gameweek_points db' = fantasy_team_gameweek_points db.

(** ** The league ranking *)

(** What a loop of [rank_in_league] over the members [l], entered with the
    counter [k], does to one row of the ledger. *)
Definition league_rank_by_position (g : Z) (l : list uuid) (k : Z)
    (r : TeamGameweekPoints.row) : TeamGameweekPoints.row :=
  if TeamGameweekPoints.gameweek r =? g then
    match index_of (TeamGameweekPoints.fantasy_team_id r) l with
    | Some i => TeamGameweekPoints.with_rank_in_league (Some (k + Z.of_nat i)) r
    | None => r
    end
  else r.

(** fantasy_teams ft JOIN fantasy_team_gameweek_points fgp
    ON ft.fantasy_team_id = fgp.fantasy_team_id
    WHERE ft.league_id = league AND fgp.gameweek = g, unordered;
    a row is the fgp side of the join. *)
Definition league_join (g : Z) (league : uuid) (db : database)
    : list TeamGameweekPoints.row :=
  flat_map (fun ft =>
     if Sql.holds (Sql.cmp N.eqb (FantasyTeams.league_id ft) (Some league))
     then filter (points_key g (FantasyTeams.fantasy_team_id ft))
                 (fantasy_team_gameweek_points db)
     else [])
     (fantasy_teams db).

(** ORDER BY fgp.points DESC, on rows of the ledger. *)
Definition by_points (a b : TeamGameweekPoints.row) : bool :=
  TeamGameweekPoints.points b <? TeamGameweekPoints.points a.

(** The columns of a fantasy team the league ranking reads. *)
Definition membership (t : FantasyTeams.row) : uuid * option uuid :=
  (FantasyTeams.fantasy_team_id t, FantasyTeams.league_id t).

(** The teams of a league in the order of its ranking query. *)
Definition league_members (g : Z) (league : uuid) (db : database) : list uuid :=
  map TeamGameweekPoints.fantasy_team_id
      (Sql.order_by by_points (league_join g league db)).

(** What the loops over the leagues [ls], one after the other, do to one
    row of the ledger, the members being those found on [db]. *)
Definition rank_leagues (g : Z) (db : database) (ls : list uuid)
    (r : TeamGameweekPoints.row) : TeamGameweekPoints.row :=
  fold_left (fun r league =>
               league_rank_by_position g (league_members g league db) 1 r)
            ls r.

(** ** Totals and the ledger *)

(** SUM(points) over the ledger rows of a team; 0 over none. *)
Definition ledger_total (team : uuid) (t : list TeamGameweekPoints.row) : Z :=
  sum_of (map TeamGameweekPoints.points
              (filter (fun r => (TeamGameweekPoints.fantasy_team_id r =? team)%N) t)).

(** The points the ledger holds for a team and a gameweek; 0 without a row. *)
Definition ledger_entry (g : Z) (team : uuid) (t : list TeamGameweekPoints.row) : Z :=
  match find (points_key g team) t with
  | Some r => TeamGameweekPoints.points r
  | None => 0
  end.

(** ** The statements of the migration that recalculate the teams' points *)

(** UPDATE fantasy_teams SET total_points = COALESCE((
      SELECT SUM(points) FROM fantasy_team_gameweek_points
      WHERE fantasy_team_gameweek_points.fantasy_team_id
            = fantasy_teams.fantasy_team_id), 0);
    the sum is stored in an INTEGER column. *)
Definition recalculate_total_points (db : database) : result database :=
  teams <- update_where_checked (fun _ => true)
             (fun t =>
                total <- int4 (ledger_total (FantasyTeams.fantasy_team_id t)
                                 (fantasy_team_gameweek_points db)) ;;
                Ok (FantasyTeams.mk (FantasyTeams.fantasy_team_id t)
                      (FantasyTeams.league_id t) (Some total)
                      (FantasyTeams.gameweek_points t)
                      (FantasyTeams.current_gameweek t)
                      (FantasyTeams.transfers_made_this_gw t)
                      (FantasyTeams.transfers_banked t) (FantasyTeams.rank t)))
             (fantasy_teams db) ;;
  Ok (with_fantasy_teams teams db).

(** UPDATE fantasy_teams SET gameweek_points = COALESCE((
      SELECT points FROM fantasy_team_gameweek_points
      WHERE fantasy_team_gameweek_points.fantasy_team_id
            = fantasy_teams.fantasy_team_id
      AND gameweek = get_latest_finalized_gameweek()), 0);
    the key of the ledger leaves the subquery one row at most. *)
Definition show_latest_gameweek_points (db : database) : database :=
  on_fantasy_teams
    (map (fun t =>
            FantasyTeams.mk (FantasyTeams.fantasy_team_id t)
              (FantasyTeams.league_id t) (FantasyTeams.total_points t)
              (Some (ledger_entry (get_latest_finalized_gameweek (gameweeks db))
                       (FantasyTeams.fantasy_team_id t)
                       (fantasy_team_gameweek_points db)))
              (FantasyTeams.current_gameweek t)
              (FantasyTeams.transfers_made_this_gw t)
              (FantasyTeams.transfers_banked t) (FantasyTeams.rank t)))
    db.

(** ** GameweekManager (the administration page) *)

Module GameweekManager.

(** interface GameweekStats *)
Record GameweekStats := mk_stats {
  total_matches : Z;
  completed_matches : Z;
  total_teams : Z;
  calculated_teams : Z
}.

(** Array.prototype.length *)
Definition length_of {A} (l : list A) : Z := Z.of_nat (List.length l).

(** fetchGameweekStats, its three requests answered without an error: the
    state it sets. *)
Definition fetchGameweekStats (db : database) (gameweek : Z) : GameweekStats :=
  let matches :=
    filter (fun m => RealMatches.gameweek m =? gameweek) (real_matches db) in
  let teams := fantasy_teams db in
  let calculatedTeams :=
    filter (fun r => TeamGameweekPoints.gameweek r =? gameweek)
           (fantasy_team_gameweek_points db) in
  mk_stats (length_of matches)
           (length_of (filter (fun m => String.eqb (RealMatches.status m) "completed")
                              matches))
           (length_of teams)
           (length_of calculatedTeams).

(** The condition under which the page shows the Finalize button. *)
Definition shows_finalize (selectedGW : Gameweeks.row)
    (gameweekStats : option GameweekStats) : bool :=
  (String.eqb (status selectedGW) "locked" || String.eqb (status selectedGW) "active")
  && match gameweekStats with
     | Some stats => completed_matches stats =? total_matches stats
     | None => false
     end.

(** setGameweekStatus, its updates answered without an error: what they do
    to the gameweeks table. *)
Definition setGameweekStatus (gameweek : Z) (new_status : string)
    (t : list Gameweeks.row) : list Gameweeks.row :=
  let t :=
    Sql.update_where (fun g => gameweek_number g =? gameweek)
      (fun g => with_is_finished (String.eqb new_status "finalized")
                  (with_is_next false
                     (with_is_current (String.eqb new_status "active")
                        (with_status new_status g))))
      t in
  if String.eqb new_status "active" then
    let t := Sql.update_where (fun g => negb (gameweek_number g =? gameweek))
                              (with_is_current false) t in
    Sql.update_where (fun g => gameweek_number g =? gameweek + 1)
                     (with_is_next true) t
  else t.

End GameweekManager.

(** What the updates of setGameweekStatus do to one row, in their order. *)
Definition set_status_row (gameweek : Z) (new_status : string) (g : Gameweeks.row)
    : Gameweeks.row :=
  let g := if gameweek_number g =? gameweek
           then with_is_finished (String.eqb new_status "finalized")
                  (with_is_next false
                     (with_is_current (String.eqb new_status "active")
                        (with_status new_status g)))
           else g in
  if String.eqb new_status "active" then
    let g := if negb (gameweek_number g =? gameweek)
             then with_is_current false g else g in
    if gameweek_number g =? gameweek + 1 then with_is_next true g else g
  else g.

(** ** useGameweek (the hook of the pages) *)

Module UseGameweek.

(** What awaiting supabase.rpc('transfers_allowed') gives: the answer with
    its data, an answer that carries an error, or a rejected promise. *)
Inductive rpc_outcome :=
| rpc_data (data : option bool)
| rpc_error
| rpc_rejected.

(** The answer when the database is reached: what the procedure returns
    is the data, and an error it raises is carried by the answer. *)
Definition answer (r : result bool) : rpc_outcome :=
  match r with
  | Ok b => rpc_data (Some b)
  | Raise _ => rpc_error
  end.

(** interface GameweekStatus *)
Record GameweekStatus := mk_status {
  current : option Gameweeks.row;
  next : option Gameweeks.row;
  transfersAllowed : bool;
  timeUntilDeadline : option Z;
  timeUntilStart : option Z;
  timeUntilEnd : option Z;
  isGameweekActive : bool
}.

(** from('gameweeks').select('*').order('gameweek_number').limit(10) *)
Definition fetched (t : list Gameweeks.row) : list Gameweeks.row :=
  firstn 10 (Sql.order_by by_gameweek_number t).

(** a || b on objects *)
Definition or_else {A} (a b : option A) : option A :=
  match a with
  | Some x => Some x
  | None => b
  end.

(** new Date(s).getTime() of a column: the milliseconds of the timestamp;
    a null makes the epoch. *)
Definition time_of (column : option timestamptz) : Z :=
  match column with
  | Some microseconds => microseconds / 1000
  | None => 0
  end.

(** x && x > 0 ? x : null *)
Definition if_positive (x : Z) : option Z :=
  if x >? 0 then Some x else None.

(** fetchGameweekStatus from the request for the gameweeks on: the state
    it sets, [t] being the table when the rows are fetched, [outcome] what
    the call of transfers_allowed gives and [now] the clock. *)
Definition fetchGameweekStatus (t : list Gameweeks.row) (outcome : rpc_outcome)
    (now : Z) : GameweekStatus :=
  let gameweeks := fetched t in
  let current := find is_current gameweeks in
  let next := find is_next gameweeks in
  let relevantGameweek := or_else current next in
  let transfersAllowed :=
    match outcome with
    | rpc_data transfersAllowedData =>
        match transfersAllowedData with
        | Some true => true
        | _ => false
        end
    | rpc_error => true
    | rpc_rejected =>
        match relevantGameweek with
        | Some relevantGameweek =>
            (now <? time_of (deadline_time relevantGameweek))
            && negb (String.eqb (status relevantGameweek) "active")
        | None => true
        end
    end in
  match relevantGameweek with
  | Some relevantGameweek =>
      mk_status current next transfersAllowed
        (if_positive (time_of (deadline_time relevantGameweek) - now))
        (if_positive (time_of (start_time relevantGameweek) - now))
        (if_positive (time_of (end_time relevantGameweek) - now))
        (String.eqb (status relevantGameweek) "active")
  | None => mk_status current next transfersAllowed None None None false
  end.

End UseGameweek.

(** The gameweeks numbered below [c]. *)
Definition lower_numbered (c : Z) (t : list Gameweeks.row) : list Gameweeks.row :=
  filter (fun g => gameweek_number g <? c) t.

(** ** formatTimeRemaining *)

Module TimeRemaining.

(** `${n}` of a number that is an integer: its decimal digits. *)
Definition template (n : Z) : string := NilZero.string_of_int (Z.to_int n).

(** The hook's formatTimeRemaining on a count of milliseconds, an integer
    as the differences of getTime() are, or null. *)
Definition formatTimeRemaining (milliseconds : option Z) : string :=
  match milliseconds with
  | None => ""
  | Some milliseconds =>
      if milliseconds <=? 0 then ""
      else
        let days := milliseconds / (1000 * 60 * 60 * 24) in
        let hours := (milliseconds mod (1000 * 60 * 60 * 24)) / (1000 * 60 * 60) in
        let minutes := (milliseconds mod (1000 * 60 * 60)) / (1000 * 60) in
        if days >? 0 then
          template days ++ "d " ++ template hours ++ "h " ++ template minutes ++ "m"
        else if hours >? 0 then
          template hours ++ "h " ++ template minutes ++ "m"
        else
          template minutes ++ "m"
  end.

(** The text for a count of whole minutes. *)
Definition minutes_text (q : Z) : string :=
  let days := q / 1440 in
  let hours := (q / 60) mod 24 in
  let minutes := q mod 60 in
  if days >? 0 then
    template days ++ "d " ++ template hours ++ "h " ++ template minutes ++ "m"
  else if hours >? 0 then
    template hours ++ "h " ++ template minutes ++ "m"
  else
    template minutes ++ "m".

Definition is_digit (c : ascii) : bool :=
  (48 <=? nat_of_ascii c)%nat && (nat_of_ascii c <=? 57)%nat.

Fixpoint all_digits (s : string) : bool :=
  match s with
  | EmptyString => true
  | String c r => is_digit c && all_digits r
  end.

End TimeRemaining.

(** ** is_finished and the status *)

(** is_finished = CASE WHEN status = 'finalized' THEN true ELSE false END,
    as the migration sets the column. *)
Definition finished_agrees (g : Gameweeks.row) : Prop :=
  is_finished g = String.eqb (status g) "finalized".

(** ** The Overall league (migration 20250618100321_long_star.sql) *)

Module OverallLeague.

(** Modelled from the spec: the tables are declared outside the sources;
    a league has the columns the INSERT names, with its generated id. *)
Record league := mk_league {
  league_id : uuid;
  name : string;
  creator_id : option uuid;
  max_participants : Z;
  current_participants : Z;
  entry_fee : Z;
  prize_pool : Z;
  budget_limit : Z;
  status : string;
  gameweek_current : Z
}.

(** Modelled from the spec: the columns of users the migration reads; a
    name or an address may be NULL. *)
Record user := mk_user {
  user_id : uuid;
  username : option string;
  email : option string
}.

(** Modelled from the spec: the columns of fantasy_teams the migration
    reads and writes; the owner and the league may be NULL. *)
Record team := mk_team {
  fantasy_team_id : uuid;
  owner : option uuid;        (* fantasy_teams.user_id *)
  team_league : option uuid   (* fantasy_teams.league_id *)
}.

Record tables := mk_tables {
  leagues : list league;
  users : list user;
  fantasy_teams : list team
}.

Definition with_current_participants (n : Z) (l : league) : league :=
  mk_league (league_id l) (name l) (creator_id l) (max_participants l) n
            (entry_fee l) (prize_pool l) (budget_limit l) (status l)
            (gameweek_current l).

Definition with_league (l : option uuid) (t : team) : team :=
  mk_team (fantasy_team_id t) (owner t) l.

Definition is_overall (l : league) : bool := String.eqb (name l) "Overall".

(** INSERT INTO leagues (...) VALUES ('Overall', NULL, 10000, 0, 0, 0, 100,
    'active', 1) ON CONFLICT (name) DO NOTHING; [new_id] is the id the
    table generates for an inserted row. *)
Definition insert_overall (new_id : uuid) (ls : list league) : list league :=
  if existsb is_overall ls then ls
  else ls ++ [mk_league new_id "Overall" None 10000 0 0 0 100 "active" 1].

(** SELECT league_id INTO overall_league_id FROM leagues
    WHERE name = 'Overall' LIMIT 1 *)
Definition select_overall (ls : list league) : option uuid :=
  option_map league_id (Sql.limit_1 (filter is_overall ls)).

Definition is_admin (u : user) : bool :=
  Sql.holds (Sql.or3 (Sql.cmp String.eqb (username u) (Some "admin"))
                     (Sql.cmp String.eqb (email u)
                              (Some "bousselemghassen03@gmail.com"))).

(** (SELECT user_id FROM users WHERE username = 'admin' OR email = '...'
     LIMIT 1); NULL without such a user. *)
Definition admin_id (us : list user) : option uuid :=
  option_map user_id (Sql.limit_1 (filter is_admin us)).

Definition ne (a b : option uuid) : Sql.tri :=
  Sql.cmp (fun x y => negb (x =? y)%N) a b.

Definition is_null {A} (a : option A) : Sql.tri :=
  match a with Some _ => Some false | None => Some true end.

(** WHERE user_id != (admin) AND (league_id IS NULL
                                  OR league_id != overall_league_id) *)
Definition is_moved (admin overall_league_id : option uuid) (t : team) : bool :=
  Sql.holds (Sql.and3 (ne (owner t) admin)
                      (Sql.or3 (is_null (team_league t))
                               (ne (team_league t) overall_league_id))).

Definition in_league (overall_league_id : option uuid) (t : team) : bool :=
  Sql.holds (Sql.cmp N.eqb (team_league t) overall_league_id).

(** The INSERT and the DO block. *)
Definition migrate (new_id : uuid) (s : tables) : result tables :=
  let leagues := insert_overall new_id (leagues s) in
  let overall_league_id := select_overall leagues in
  let teams :=
    Sql.update_where (is_moved (admin_id (users s)) overall_league_id)
                     (with_league overall_league_id) (fantasy_teams s) in
  (* SELECT COUNT( * ) INTO team_count, an INTEGER *)
  team_count <-
    int4 (Z.of_nat (List.length (filter (in_league overall_league_id) teams))) ;;
  Ok (mk_tables
        (Sql.update_where
           (fun l => Sql.holds (Sql.cmp N.eqb (Some (league_id l)) overall_league_id))
           (with_current_participants team_count) leagues)
        (users s) teams).

End OverallLeague.

(** ** Room for a finalization *)

(** A fantasy team whose total and previous gameweek points are within [T]
    of zero and whose banked transfers can be incremented: the UPDATE of
    the first loop of [finalize_gameweek] does not overflow on it when the
    points added are small enough. *)
Definition roomy (T : Z) (t : FantasyTeams.row) : Prop :=
  - T <= Sql.coalesce (FantasyTeams.total_points t) 0 <= T
  /\ - T <= Sql.coalesce (FantasyTeams.gameweek_points t) 0 <= T
  /\ int4_min <= Sql.coalesce (FantasyTeams.transfers_banked t) 0 + 1 <= int4_max.

(** ** More concrete tables *)

Module Fixture.

(** The example season after gameweek 1 has been finalized. *)
Definition after_first : database := snd (finalize_gameweek 1 Example.season).

(** Gameweeks 1 and 2 finalized, 3 active, 4 upcoming. *)
Definition midseason : list Gameweeks.row :=
  [ Gameweeks.mk 1 "finalized" (Some 0) (Some 10) (Some 20) false false true;
    Gameweeks.mk 2 "finalized" (Some 25) (Some 30) (Some 40) false false true;
    Gameweeks.mk 3 "active" (Some 45) (Some 50) (Some 60) true false false;
    Gameweeks.mk 4 "upcoming" (Some 65) (Some 70) (Some 80) false true false ].

(** A season in its first gameweek: 1 active, the matches all completed,
    2 and 3 upcoming; the team of the worked example. *)
Definition opening : database :=
  mk_database
    [ Gameweeks.mk 1 "active" (Some 0) (Some 10) (Some 20) true false false;
      Gameweeks.mk 2 "upcoming" (Some 25) (Some 30) (Some 40) false true false;
      Gameweeks.mk 3 "upcoming" (Some 45) (Some 50) (Some 60) false false false ]
    [ RealMatches.mk 1 "completed"; RealMatches.mk 2 "completed" ]
    [ FantasyTeams.mk 1%N (Some 7%N) (Some 0) (Some 0) (Some 1) (Some 2)
        (Some 0) None ]
    (rosters Example.worked) (players Example.worked)
    (gameweek_scores Example.worked
     ++ [ GameweekScores.mk 10%N 2 (Some 2) (Some 90);
          GameweekScores.mk 11%N 2 (Some 1) (Some 90) ])
    [].

(** The opening season with two more teams, both without a roster and both
    on 20 points; the second of them plays in no league. *)
Definition three_teams : database :=
  mk_database (gameweeks opening) (real_matches opening)
    [ FantasyTeams.mk 3%N None (Some 20) (Some 0) (Some 1) (Some 0)
        (Some 1) None;
      FantasyTeams.mk 1%N (Some 7%N) (Some 0) (Some 0) (Some 1) (Some 2)
        (Some 0) None;
      FantasyTeams.mk 2%N (Some 7%N) (Some 20) (Some 0) (Some 1) (Some 1)
        (Some 0) (Some 5) ]
    (rosters opening) (players opening) (gameweek_scores opening) [].

(** The three teams after gameweek 1 has been finalized. *)
Definition second_week : database :=
  Eval vm_compute in snd (finalize_gameweek 1 three_teams).

(** Eleven finalized gameweeks, without times, and the twelfth active. *)
Definition twelve_gameweeks : list Gameweeks.row :=
  (map (fun n => Gameweeks.mk (Z.of_nat n) "finalized" None None None
                   false false true)
       (seq 1 11)
   ++ [ Gameweeks.mk 12 "active" (Some 0) (Some 10) (Some 20) true false false ])%list.

(** The three teams after gameweek 1, their total_points recalculated. *)
Definition recalculated : database :=
  Eval vm_compute in
    match recalculate_total_points second_week with
    | Ok db => db
    | Raise _ => second_week
    end.

(** The three teams after gameweeks 1 and 2 have been finalized. *)
Definition third_week : database :=
  Eval vm_compute in snd (finalize_gameweek 2 second_week).

(** The three teams after gameweek 1, recalculated, and gameweek 2. *)
Definition recalculated_third_week : database :=
  Eval vm_compute in
    snd (finalize_gameweek 2 (show_latest_gameweek_points recalculated)).

(** No league yet; an admin and another user; a team of each and a team
    without an owner. *)
Definition before_overall : OverallLeague.tables :=
  OverallLeague.mk_tables []
    [ OverallLeague.mk_user 1%N (Some "admin") (Some "admin@example.org");
      OverallLeague.mk_user 2%N (Some "sam") None ]
    [ OverallLeague.mk_team 10%N (Some 1%N) None;
      OverallLeague.mk_team 11%N (Some 2%N) None;
      OverallLeague.mk_team 12%N None None ].

Definition after_overall : OverallLeague.tables :=
  Eval vm_compute in
    match OverallLeague.migrate 99%N before_overall with
    | Ok s => s
    | Raise _ => before_overall
    end.

End Fixture.

(** * Proofs *)

(** ** ORDER BY and LIMIT 1 *)

Section OrderBy.

Context {A : Type}.
Variable before : A -> A -> bool.

Lemma insert_by_perm (x : A) (l : list A) :
  Permutation (Sql.insert_by before x l) (x :: l).
Proof.
  induction l as [|y r IH]; simpl.
  - apply Permutation_refl.
  - destruct (before y x).
    + eapply perm_trans; [apply perm_skip, IH | apply perm_swap].
    + apply Permutation_refl.
Qed.

Lemma order_by_perm (l : list A) : Permutation (Sql.order_by before l) l.
Proof.
  induction l as [|x r IH]; simpl.
  - constructor.
  - eapply perm_trans; [apply insert_by_perm | apply perm_skip, IH].
Qed.

Lemma order_by_In (l : list A) (x : A) : In x (Sql.order_by before l) <-> In x l.
Proof.
  split; apply Permutation_in;
    [apply order_by_perm | apply Permutation_sym, order_by_perm].
Qed.

Lemma order_by_nil (l : list A) : Sql.order_by before l = [] -> l = [].
Proof.
  intros H. apply Permutation_nil. rewrite <- H. apply order_by_perm.
Qed.

(** [before] is a strict weak order. *)
Hypothesis before_irrefl : forall a, before a a = false.
Hypothesis before_asym : forall a b, before a b = true -> before b a = false.
Hypothesis before_negtrans :
  forall a b c, before a b = false -> before b c = false -> before a c = false.

Lemma limit_1_order_by_first (l : list A) (x : A) :
  Sql.limit_1 (Sql.order_by before l) = Some x ->
  In x l /\ forall y, In y l -> before y x = false.
Proof.
  revert x. induction l as [|a r IH]; simpl; intros x Hx; [discriminate|].
  destruct (Sql.order_by before r) as [|h s] eqn:E; simpl in Hx.
  - injection Hx as <-. apply order_by_nil in E. subst r.
    split; [now left|]. intros y [<-|[]]. apply before_irrefl.
  - destruct (IH h eq_refl) as [Hin Hmin].
    destruct (before h a) eqn:Hha; simpl in Hx; injection Hx as <-.
    + split; [now right|]. intros y [<-|Hy]; [now apply before_asym | now apply Hmin].
    + split; [now left|]. intros y [<-|Hy]; [apply before_irrefl|].
      apply before_negtrans with h; [now apply Hmin | assumption].
Qed.

Lemma limit_1_order_by_none (l : list A) :
  Sql.limit_1 (Sql.order_by before l) = None -> l = [].
Proof.
  intros H. apply order_by_nil.
  destruct (Sql.order_by before l); [reflexivity | discriminate].
Qed.

End OrderBy.

(** ** UPDATE ... WHERE *)


Lemma map_update_where {A B} (f : A -> B) (cond : A -> bool) (set : A -> A)
    (t : list A) :
  (forall r, f (set r) = f r) ->
  map f (Sql.update_where cond set t) = map f t.
Proof.
  intros H. unfold Sql.update_where. rewrite map_map. apply map_ext.
  intros r. destruct (cond r); [apply H | reflexivity].
Qed.

Lemma filter_map_length {A B} (p : B -> bool) (f : A -> B) (l : list A) :
  List.length (filter p (map f l)) = List.length (filter (fun x => p (f x)) l).
Proof.
  induction l as [|x r IH]; simpl; [reflexivity|].
  destruct (p (f x)); simpl; now rewrite IH.
Qed.

(** ** Unique keys *)

Lemma existsb_eqb_false_count (l : list Z) (n : Z) :
  existsb (Z.eqb n) l = false -> filter (Z.eqb n) l = [].
Proof.
  induction l as [|x r IH]; simpl; [reflexivity|].
  intros H. apply orb_false_iff in H as [-> H]. now apply IH.
Qed.

Lemma distinct_filter_le_1 (l : list Z) (n : Z) :
  distinct Z.eqb l = true -> (List.length (filter (Z.eqb n) l) <= 1)%nat.
Proof.
  induction l as [|x r IH]; simpl; [lia|].
  intros H. apply andb_true_iff in H as [Hx Hr].
  destruct (n =? x) eqn:E; simpl; [|now apply IH].
  apply Z.eqb_eq in E. subst x. apply negb_true_iff in Hx.
  rewrite (existsb_eqb_false_count _ _ Hx). simpl. lia.
Qed.

Lemma filter_In_length_pos {A} (p : A -> bool) (l : list A) (x : A) :
  In x l -> p x = true -> (1 <= List.length (filter p l))%nat.
Proof.
  intros Hin Hp. assert (H : In x (filter p l)) by (apply filter_In; now split).
  destruct (filter p l); [destruct H | simpl; lia].
Qed.

(** ** The first number of a query *)

Lemma by_gameweek_number_irrefl a : by_gameweek_number a a = false.
Proof. unfold by_gameweek_number. lia. Qed.

Lemma by_gameweek_number_asym a b :
  by_gameweek_number a b = true -> by_gameweek_number b a = false.
Proof. unfold by_gameweek_number. lia. Qed.

Lemma by_gameweek_number_negtrans a b c :
  by_gameweek_number a b = false -> by_gameweek_number b c = false ->
  by_gameweek_number a c = false.
Proof. unfold by_gameweek_number. lia. Qed.

(** The first number of a query is the least number among the selected rows. *)
Lemma select_first_number_some cond t n :
  select_first_number cond t = Some n ->
  (exists g, In g t /\ cond g = true /\ gameweek_number g = n)
  /\ (forall g, In g t -> cond g = true -> n <= gameweek_number g).
Proof.
  unfold select_first_number. intros H.
  destruct (Sql.limit_1 _) as [x|] eqn:E; simpl in H; [|discriminate].
  injection H as <-.
  apply (limit_1_order_by_first by_gameweek_number by_gameweek_number_irrefl
           by_gameweek_number_asym by_gameweek_number_negtrans)
    in E as [Hin Hmin].
  apply filter_In in Hin as [Hin Hc]. split.
  - exists x. auto.
  - intros g Hg Hcg.
    assert (Hb : by_gameweek_number g x = false)
      by (apply Hmin, filter_In; now split).
    unfold by_gameweek_number in Hb. lia.
Qed.

Lemma select_first_number_none cond t :
  select_first_number cond t = None ->
  forall g, In g t -> cond g = false.
Proof.
  unfold select_first_number. intros H g Hg.
  destruct (Sql.limit_1 _) as [x|] eqn:E; simpl in H; [discriminate|].
  apply limit_1_order_by_none in E.
  destruct (cond g) eqn:Hc; [|reflexivity].
  assert (Hin : In g (filter cond t)) by (apply filter_In; now split).
  rewrite E in Hin. destruct Hin.
Qed.

(** ** update_gameweek_status and transfers_allowed *)

Lemma holds_some b : Sql.holds (Some b) = b.
Proof. now destruct b. Qed.

(** The comparisons of CURRENT_TIME with a time column have no operator. *)
Lemma is_live_undefined now : is_live now = Raise (undefined_function ">=").
Proof. reflexivity. Qed.

Lemma past_deadline_undefined now statuses :
  past_deadline now statuses = Raise (undefined_function ">=").
Proof. reflexivity. Qed.

(** The first SELECT of [update_gameweek_status] raises, and the reset of
    the flags before it is undone. *)
Lemma update_gameweek_status_rolled_back now db :
  update_gameweek_status now db = (Raise (undefined_function ">="), db).
Proof. reflexivity. Qed.

Lemma exists_active t :
  existsb (fun g => Sql.holds (status_is "active" g)) t
  = existsb (fun g => String.eqb (status g) "active") t.
Proof.
  induction t as [|g r IH]; [reflexivity|]. cbn [existsb]. rewrite IH.
  unfold status_is. now rewrite holds_some.
Qed.

Lemma transfers_allowed_cases now t :
  transfers_allowed now t
  = if existsb (fun g => String.eqb (status g) "active") t
    then Ok false
    else Raise (undefined_function ">=").
Proof.
  unfold transfers_allowed. rewrite past_deadline_undefined.
  unfold select_exists_into, Typed.of_row.
  change (where_ <- Ok (status_is "active") ;;
          Ok (existsb (fun g => Sql.holds (where_ g)) t))
    with (Ok (existsb (fun g => Sql.holds (status_is "active" g)) t)).
  rewrite exists_active.
  destruct (existsb _ t); reflexivity.
Qed.

(** C1, evaluated on the empty gameweeks table and on every other: the
    claim has [transfers_allowed] return true when no gameweeks exist, and
    true or false by the deadlines when no gameweek is 'active'.  The
    procedure returns false when some gameweek is 'active'; on every other
    table, the empty one among them, it raises [undefined_function] at its
    second query, which compares CURRENT_TIME with deadline_time, and
    returns nothing. *)
Theorem transfers_allowed_no_gameweeks :
  (forall now, transfers_allowed now [] = Raise (undefined_function ">="))
  /\ (forall now t,
        transfers_allowed now t
        = if existsb (fun g => String.eqb (status g) "active") t
          then Ok false
          else Raise (undefined_function ">=")).
Proof.
  split.
  - reflexivity.
  - apply transfers_allowed_cases.
Qed.

(** C5, evaluated on a gameweek between its deadline and its start, and on
    every table: the claim has [update_gameweek_status] recompute every
    status from the clock, here 'upcoming' to 'locked'.  The procedure
    raises [undefined_function] at its first SELECT, which compares
    CURRENT_TIME with start_time, whatever the table and the instant, and
    every gameweek has the status it had. *)
Theorem update_gameweek_status_sets_no_status :
  (forall now db,
     fst (update_gameweek_status now db) = Raise (undefined_function ">=")
     /\ map status (gameweeks (snd (update_gameweek_status now db)))
        = map status (gameweeks db))
  /\ map (fun g => (status g, deadline_time g, start_time g, end_time g))
         (gameweeks Example.past_the_deadline)
     = [("upcoming", Some 10, Some 20, Some 30)]
  /\ map status
         (gameweeks (snd (update_gameweek_status 15 Example.past_the_deadline)))
     = ["upcoming"].
Proof.
  split; [|split; reflexivity].
  intros now db. now rewrite update_gameweek_status_rolled_back.
Qed.

(** C6: calling [update_gameweek_status] twice in succession at the same
    instant leaves the database, and with it every gameweek's status,
    is_current and is_next, as the first call left it.  (Each of the two
    calls raises and leaves the table as it found it.) *)
Theorem update_gameweek_status_idempotent now db :
  let once := snd (update_gameweek_status now db) in
  let twice := snd (update_gameweek_status now once) in
  twice = once
  /\ map (fun g => (status g, is_current g, is_next g)) (gameweeks twice)
     = map (fun g => (status g, is_current g, is_next g)) (gameweeks once).
Proof.
  cbv zeta. now rewrite !update_gameweek_status_rolled_back.
Qed.

(** C7, evaluated on a new season with gameweeks 1 and 2 'upcoming' and no
    flag set, and on every table: the claim has exactly one current
    gameweek after the call whenever some gameweek qualifies, and the
    gameweek after it as the next.  The procedure raises at its first
    SELECT and every gameweek has the flags it had: in the new season no
    gameweek is current and none is next. *)
Theorem update_gameweek_status_sets_no_flag :
  (forall now db,
     map is_current (gameweeks (snd (update_gameweek_status now db)))
     = map is_current (gameweeks db)
     /\ map is_next (gameweeks (snd (update_gameweek_status now db)))
        = map is_next (gameweeks db))
  /\ map (fun g => (gameweek_number g, status g, is_current g, is_next g))
         (gameweeks Example.new_season)
     = [(1, "upcoming", false, false); (2, "upcoming", false, false)]
  /\ filter is_current
         (gameweeks (snd (update_gameweek_status 5 Example.new_season))) = []
  /\ filter is_next
         (gameweeks (snd (update_gameweek_status 5 Example.new_season))) = [].
Proof.
  split; [|split; [|split]; reflexivity].
  intros now db. now rewrite update_gameweek_status_rolled_back.
Qed.

(** ** Sums and maxima *)


Lemma sum_of_perm (l l' : list Z) : Permutation l l' -> sum_of l = sum_of l'.
Proof. unfold sum_of. induction 1; simpl; lia. Qed.

Lemma sum_of_filter {A} (p : A -> bool) (f : A -> Z) (l : list A) :
  sum_of (map f (filter p l)) = sum_of (map (fun x => if p x then f x else 0) l).
Proof.
  unfold sum_of. induction l as [|x r IH]; simpl; [reflexivity|].
  destruct (p x); simpl; lia.
Qed.

Lemma sum_of_map_ext_in {A} (f g : A -> Z) (l : list A) :
  (forall x, In x l -> f x = g x) -> sum_of (map f l) = sum_of (map g l).
Proof. intros H. f_equal. now apply map_ext_in. Qed.

Lemma filter_length_perm {A} (p : A -> bool) (l l' : list A) :
  Permutation l l' -> List.length (filter p l) = List.length (filter p l').
Proof.
  induction 1; simpl; try congruence.
  - destruct (p x); simpl; congruence.
  - destruct (p x), (p y); reflexivity.
Qed.

Lemma fold_max_ge (l : list Z) (x : Z) : x <= fold_left Z.max l x.
Proof.
  revert x. induction l as [|y r IH]; intros x; simpl; [lia|].
  specialize (IH (Z.max x y)). lia.
Qed.

Lemma fold_max_bound (l : list Z) (x y : Z) : In y l -> y <= fold_left Z.max l x.
Proof.
  revert x. induction l as [|z r IH]; intros x; simpl; [intros []|].
  intros [<-|H]; [|now apply IH].
  pose proof (fold_max_ge r (Z.max x z)). lia.
Qed.

Lemma fold_max_in (l : list Z) (x : Z) :
  fold_left Z.max l x = x \/ In (fold_left Z.max l x) l.
Proof.
  revert x. induction l as [|z r IH]; intros x; simpl; [now left|].
  destruct (IH (Z.max x z)) as [E|H]; [|now right; right].
  rewrite E. destruct (Z.max_spec x z) as [[_ ->]|[_ ->]]; [right; now left | now left].
Qed.

Lemma highest_some (l : list Z) (m : Z) :
  highest l = Some m -> In m l /\ forall x, In x l -> x <= m.
Proof.
  destruct l as [|a r]; simpl; [discriminate|]. intros H. injection H as <-.
  split.
  - destruct (fold_max_in r a) as [->|H]; [now left | now right].
  - intros x [<-|H]; [apply fold_max_ge | now apply fold_max_bound].
Qed.

Lemma highest_none (l : list Z) : highest l = None -> l = [].
Proof. destruct l; [reflexivity | discriminate]. Qed.

(** ** Joins on unique keys *)

Lemma flat_map_no_key {A B} (k : A -> N) (F : A -> list B) (pid : N) (l : list A) :
  existsb (N.eqb pid) (map k l) = false ->
  flat_map (fun p => if (pid =? k p)%N then F p else []) l = [].
Proof.
  induction l as [|a r IH]; simpl; [reflexivity|].
  intros H. apply orb_false_iff in H as [-> H]. now apply IH.
Qed.

Lemma flat_map_unique_key {A B} (k : A -> N) (F : A -> list B) (pid : N)
    (l : list A) :
  distinct N.eqb (map k l) = true ->
  flat_map (fun p => if (pid =? k p)%N then F p else []) l
  = match find (fun p => (pid =? k p)%N) l with
    | Some p => F p
    | None => []
    end.
Proof.
  induction l as [|a r IH]; simpl; [reflexivity|].
  intros H. apply andb_true_iff in H as [Ha Hr].
  destruct (pid =? k a)%N eqn:E.
  - apply N.eqb_eq in E. subst pid. apply negb_true_iff in Ha.
    rewrite (flat_map_no_key k F (k a) r Ha). apply app_nil_r.
  - now apply IH.
Qed.

Lemma flat_map_singletons {A B} (f : A -> list B) (g : A -> B) (l : list A) :
  (forall x, In x l -> f x = [g x]) -> flat_map f l = map g l.
Proof.
  induction l as [|a r IH]; simpl; [reflexivity|].
  intros H. rewrite (H a) by now left. simpl. f_equal. apply IH.
  intros x Hx. apply H. now right.
Qed.

Lemma score_key_eqb_eq a b : score_key_eqb a b = true <-> a = b.
Proof.
  destruct a as [p g], b as [p' g']. unfold score_key_eqb. simpl.
  rewrite andb_true_iff, N.eqb_eq, Z.eqb_eq. split.
  - intros [-> ->]. reflexivity.
  - intros H. injection H as -> ->. auto.
Qed.

Lemma distinct_keys_filter (l : list (uuid * Z)) (k : uuid * Z) :
  distinct score_key_eqb l = true ->
  (List.length (filter (fun x => score_key_eqb x k) l) <= 1)%nat.
Proof.
  induction l as [|x r IH]; simpl; [lia|].
  intros H. apply andb_true_iff in H as [Hx Hr].
  destruct (score_key_eqb x k) eqn:E; simpl; [|now apply IH].
  apply score_key_eqb_eq in E. subst x. apply negb_true_iff in Hx.
  assert (Hnil : filter (fun x => score_key_eqb x k) r = []).
  { clear -Hx. induction r as [|y r IH]; simpl in *; [reflexivity|].
    apply orb_false_iff in Hx as [Hy Hx].
    replace (score_key_eqb y k) with false; [now apply IH|].
    destruct (score_key_eqb y k) eqn:E; [|reflexivity].
    apply score_key_eqb_eq in E. subst y.
    assert (score_key_eqb k k = true) by now apply score_key_eqb_eq. congruence. }
  rewrite Hnil. simpl. lia.
Qed.

Lemma filter_map_comm {A B} (p : B -> bool) (f : A -> B) (l : list A) :
  filter p (map f l) = map f (filter (fun x => p (f x)) l).
Proof.
  induction l as [|a r IH]; simpl; [reflexivity|].
  destruct (p (f a)); simpl; now rewrite IH.
Qed.

(** ** The calculator *)

Lemma desc_nulls_last_irrefl a : Sql.desc_nulls_last a a = false.
Proof. destruct a; simpl; [lia | reflexivity]. Qed.

Lemma desc_nulls_last_asym a b :
  Sql.desc_nulls_last a b = true -> Sql.desc_nulls_last b a = false.
Proof. destruct a, b; simpl; try discriminate; try reflexivity; lia. Qed.

Lemma desc_nulls_last_negtrans a b c :
  Sql.desc_nulls_last a b = false -> Sql.desc_nulls_last b c = false ->
  Sql.desc_nulls_last a c = false.
Proof. destruct a, b, c; simpl; try discriminate; try reflexivity; lia. Qed.

Section CalculatorProofs.

Variable db : database.
Variable team : uuid.
Variable gw : Z.

(** *** The loop *)

Lemma add_player_contribution acc player_record :
  add_player db team gw acc player_record =
  match contribution db team gw player_record with
  | Some x =>
      match int4_add (fst acc) x with
      | Ok total_points =>
          Ok (total_points,
              if PlayerRecord.is_captain player_record then x else snd acc)
      | Raise e => Raise e
      end
  | None => Ok acc
  end.
Proof.
  destruct acc as [t c]. unfold add_player, contribution.
  destruct (PlayerRecord.is_starter player_record); [|reflexivity].
  destruct (PlayerRecord.minutes_played player_record =? 0); [|reflexivity].
  destruct (find_substitute db team gw _); reflexivity.
Qed.

Lemma int4_ok a b r : int4_add a b = Ok r -> r = a + b.
Proof. unfold int4_add, int4. destruct (in_int4 _); congruence. Qed.

Lemma int4_raise a b e : int4_add a b = Raise e -> e = integer_out_of_range.
Proof. unfold int4_add, int4. destruct (in_int4 _); congruence. Qed.

Lemma for_each_result_cons {X S} (x : X) (r : list X) (s : S)
    (body : S -> X -> result S) :
  for_each (x :: r) s body
  = match body s x with
    | Ok s' => for_each r s' body
    | Raise e => Raise e
    end.
Proof. reflexivity. Qed.

Lemma loop_result rows : forall total_points captain_points,
  match for_each rows (total_points, captain_points) (add_player db team gw) with
  | Ok (t, c) =>
      t = total_points + sum_of (map (counted db team gw) rows)
      /\ c = captain_after db team gw captain_points rows
  | Raise e => e = integer_out_of_range
  end.
Proof.
  induction rows as [|x r IH]; intros t0 c0.
  - unfold sum_of. simpl. split; [lia | reflexivity].
  - rewrite for_each_result_cons, add_player_contribution.
    unfold captain_after, sum_of. simpl. unfold counted at 1.
    change (fold_left _ r ?c) with (captain_after db team gw c r).
    change (fold_right Z.add 0 ?l) with (sum_of l).
    destruct (contribution db team gw x) as [v|]; simpl.
    + destruct (int4_add t0 v) as [t1|e] eqn:E.
      * apply int4_ok in E. subst t1.
        specialize (IH (t0 + v) (if PlayerRecord.is_captain x then v else c0)).
        destruct (for_each r _ _) as [[t c]|e]; [|assumption].
        destruct IH as [-> ->]. split; [lia | reflexivity].
      * now apply int4_raise in E.
    + specialize (IH t0 c0).
      destruct (for_each r _ _) as [[t c]|e]; [|assumption].
      destruct IH as [-> ->]. split; [lia | reflexivity].
Qed.

Lemma captain_after_no_captain rows c :
  filter PlayerRecord.is_captain rows = [] ->
  captain_after db team gw c rows = c.
Proof.
  unfold captain_after. revert c. induction rows as [|x r IH]; intros c; simpl;
    [reflexivity|].
  destruct (PlayerRecord.is_captain x); [discriminate|].
  intros H.
  replace (match contribution db team gw x with Some _ => c | None => c end)
    with c by (destruct (contribution db team gw x); reflexivity).
  now apply IH.
Qed.

Lemma sum_of_no_captain rows :
  filter PlayerRecord.is_captain rows = [] ->
  sum_of (map (fun x => if PlayerRecord.is_captain x
                        then counted db team gw x else 0) rows) = 0.
Proof.
  unfold sum_of. induction rows as [|x r IH]; simpl; [reflexivity|].
  destruct (PlayerRecord.is_captain x); [discriminate|]. intros H.
  rewrite (IH H). reflexivity.
Qed.

Lemma captain_after_cons c x r :
  captain_after db team gw c (x :: r)
  = captain_after db team gw
      (match contribution db team gw x with
       | Some v => if PlayerRecord.is_captain x then v else c
       | None => c
       end) r.
Proof. reflexivity. Qed.

Lemma sum_of_cons a l : sum_of (a :: l) = a + sum_of l.
Proof. reflexivity. Qed.

Lemma captain_after_one_captain rows :
  (List.length (filter PlayerRecord.is_captain rows) <= 1)%nat ->
  captain_after db team gw 0 rows
  = sum_of (map (fun x => if PlayerRecord.is_captain x
                          then counted db team gw x else 0) rows).
Proof.
  induction rows as [|x r IH]; [reflexivity|]. intros H.
  rewrite captain_after_cons, map_cons, sum_of_cons. simpl in H.
  destruct (PlayerRecord.is_captain x) eqn:Ec.
  - assert (Hr : filter PlayerRecord.is_captain r = [])
      by (destruct (filter PlayerRecord.is_captain r);
          [reflexivity | simpl in H; lia]).
    rewrite captain_after_no_captain, sum_of_no_captain by assumption.
    unfold counted. destruct (contribution db team gw x); simpl; lia.
  - replace (match contribution db team gw x with Some _ => 0 | None => 0 end)
      with 0 by (destruct (contribution db team gw x); reflexivity).
    rewrite IH by assumption. lia.
Qed.

(** *** The query of the loop under the schema's keys *)

Hypothesis schema : scoring_schema db = true.

Lemma schema_parts :
  player_ids_unique db = true /\ roster_players_exist db = true
  /\ scores_unique db = true /\ scores_recorded db = true.
Proof.
  unfold scoring_schema in schema.
  repeat (apply andb_true_iff in schema as [schema ?]). auto.
Qed.

Lemma scores_of_at_most_one pid : (List.length (scores_of db gw pid) <= 1)%nat.
Proof.
  destruct schema_parts as (_ & _ & Hu & _). unfold scores_unique in Hu.
  pose proof (distinct_keys_filter _ (pid, gw) Hu) as H.
  rewrite filter_map_length in H. exact H.
Qed.

Lemma left_join_scores_single pid :
  left_join_scores db gw pid = [score_columns db gw pid].
Proof.
  unfold left_join_scores, score_columns.
  pose proof (scores_of_at_most_one pid) as H.
  destruct (scores_of db gw pid) as [|gs [|gs' r]]; simpl in *;
    [reflexivity | reflexivity | lia].
Qed.

Lemma team_rosters_In r :
  In r (team_rosters db team) ->
  In r (rosters db) /\ Rosters.fantasy_team_id r = team.
Proof.
  unfold team_rosters. intros H. apply filter_In in H as [H E].
  apply N.eqb_eq in E. auto.
Qed.

Lemma roster_player_found r :
  In r (rosters db) ->
  find (fun p => (Rosters.player_id r =? Players.player_id p)%N) (players db)
  = Some (player_of db r).
Proof.
  intros Hr. destruct schema_parts as (_ & Hfk & _).
  unfold roster_players_exist in Hfk.
  rewrite forallb_forall in Hfk. specialize (Hfk r Hr).
  apply existsb_exists in Hfk as [p [Hp E]].
  unfold player_of.
  destruct (find _ (players db)) as [q|] eqn:F; [reflexivity|].
  pose proof (find_none _ _ F p Hp) as H. simpl in H. congruence.
Qed.

Lemma roster_join_rows :
  roster_join db team gw = map (joined_row db gw) (team_rosters db team).
Proof.
  unfold roster_join. apply flat_map_singletons. intros r Hr.
  apply team_rosters_In in Hr as [Hr _].
  destruct schema_parts as (Hpk & _).
  rewrite (flat_map_unique_key Players.player_id _ (Rosters.player_id r)
             (players db) Hpk).
  rewrite (roster_player_found r Hr), left_join_scores_single.
  unfold joined_row. simpl. destruct (score_columns db gw _); reflexivity.
Qed.

Lemma player_records_perm :
  Permutation (player_records db team gw)
              (map (fun r => record_of (joined_row db gw r)) (team_rosters db team)).
Proof.
  unfold player_records. rewrite roster_join_rows, map_map.
  eapply perm_trans; [apply order_by_perm|].
  erewrite map_ext; [apply Permutation_refl|].
  intros r. unfold joined_row, record_of. reflexivity.
Qed.

(** *** Recorded points and minutes *)

Lemma recorded_points_columns pid :
  recorded_points db gw pid = Sql.coalesce (fst (score_columns db gw pid)) 0.
Proof.
  unfold recorded_points, score_columns.
  destruct (Sql.limit_1 (scores_of db gw pid)); reflexivity.
Qed.

Lemma recorded_minutes_columns pid :
  recorded_minutes db gw pid = Sql.coalesce (snd (score_columns db gw pid)) 0.
Proof.
  unfold recorded_minutes, score_columns.
  destruct (Sql.limit_1 (scores_of db gw pid)); reflexivity.
Qed.

Lemma score_columns_recorded pid :
  score_columns db gw pid = (None, None)
  \/ exists p m, score_columns db gw pid = (Some p, Some m)
                 /\ in_int4 p = true /\ 0 <= m.
Proof.
  unfold score_columns.
  destruct (Sql.limit_1 (scores_of db gw pid)) as [gs|] eqn:E; [|now left].
  right. assert (Hin : In gs (gameweek_scores db)).
  { unfold Sql.limit_1, scores_of in E.
    destruct (filter _ (gameweek_scores db)) as [|x r] eqn:F; [discriminate|].
    injection E as ->.
    assert (H : In gs (gs :: r)) by now left.
    rewrite <- F in H. now apply filter_In in H as [H _]. }
  destruct schema_parts as (_ & _ & _ & Hrec). unfold scores_recorded in Hrec.
  rewrite forallb_forall in Hrec. specialize (Hrec gs Hin).
  destruct (GameweekScores.total_points gs) as [p|]; [|discriminate].
  destruct (GameweekScores.minutes_played gs) as [m|]; [|discriminate].
  apply andb_true_iff in Hrec as [Hp Hm]. exists p, m. repeat split; auto. lia.
Qed.

Lemma recorded_minutes_nonneg pid : 0 <= recorded_minutes db gw pid.
Proof.
  rewrite recorded_minutes_columns.
  destruct (score_columns_recorded pid) as [->|(p & m & -> & _ & H)]; simpl; lia.
Qed.

Lemma recorded_points_in_range pid : in_int4 (recorded_points db gw pid) = true.
Proof.
  rewrite recorded_points_columns.
  destruct (score_columns_recorded pid) as [->|(p & m & -> & H & _)]; simpl;
    [reflexivity | assumption].
Qed.

Lemma played_has_points pid :
  recorded_minutes db gw pid <> 0 ->
  fst (score_columns db gw pid) = Some (recorded_points db gw pid).
Proof.
  rewrite recorded_minutes_columns, recorded_points_columns.
  destruct (score_columns_recorded pid) as [->|(p & m & -> & _)]; simpl;
    [congruence | reflexivity].
Qed.

Lemma position_of_roster r :
  In r (rosters db) ->
  position_of db (Rosters.player_id r) = Some (Players.position (player_of db r)).
Proof.
  intros Hr. unfold position_of. now rewrite (roster_player_found r Hr).
Qed.

(** *** The substitute *)

Lemma best_first_highest (l : list SubstituteRecord.row) :
  (forall x, In x l ->
     SubstituteRecord.gs2_total_points x = Some (SubstituteRecord.sub_points x)) ->
  option_map SubstituteRecord.sub_points (Sql.limit_1 (Sql.order_by best_first l))
  = highest (map SubstituteRecord.sub_points l).
Proof.
  intros Hsome.
  destruct (Sql.limit_1 (Sql.order_by best_first l)) as [x|] eqn:E; simpl.
  - apply (limit_1_order_by_first best_first) in E as [Hx Hmax].
    + destruct (highest (map SubstituteRecord.sub_points l)) as [m|] eqn:Hm.
      * apply highest_some in Hm as [Hin Hle]. f_equal.
        assert (H1 : SubstituteRecord.sub_points x <= m)
          by (apply Hle; now apply in_map).
        apply in_map_iff in Hin as [y [<- Hy]].
        specialize (Hmax y Hy). unfold best_first in Hmax.
        rewrite (Hsome x Hx), (Hsome y Hy) in Hmax. simpl in Hmax. lia.
      * apply highest_none in Hm. destruct l; [destruct Hx | discriminate].
    + intros a. apply desc_nulls_last_irrefl.
    + intros a b. apply desc_nulls_last_asym.
    + intros a b c. apply desc_nulls_last_negtrans.
  - apply limit_1_order_by_none in E. subst l. reflexivity.
Qed.

Lemma bench_filter starter r2 :
  In starter (rosters db) -> In r2 (rosters db) ->
  (let '(r, p, points, minutes) := joined_row db gw r2 in
   Bool.eqb (Rosters.is_starter r) false
   && String.eqb (Players.position p) (Players.position (player_of db starter))
   && (Sql.coalesce minutes 0 >? 0))
  = eligible_substitute db gw starter r2.
Proof.
  intros Hs Hr. unfold joined_row, eligible_substitute.
  rewrite (position_of_roster _ Hs), (position_of_roster _ Hr). simpl.
  rewrite <- recorded_minutes_columns.
  pose proof (recorded_minutes_nonneg (Rosters.player_id r2)) as Hm.
  destruct (Rosters.is_starter r2); simpl; [reflexivity|].
  destruct (String.eqb _ _); simpl; [|reflexivity].
  destruct (recorded_minutes db gw (Rosters.player_id r2) =? 0) eqn:E; simpl; lia.
Qed.

Lemma find_substitute_points starter :
  In starter (team_rosters db team) ->
  option_map SubstituteRecord.sub_points
    (find_substitute db team gw (Players.position (player_of db starter)))
  = substitute_points db team gw starter.
Proof.
  intros Hs. apply team_rosters_In in Hs as [Hs _].
  unfold find_substitute, substitute_points.
  rewrite roster_join_rows, filter_map_comm.
  rewrite (filter_ext_in _ (eligible_substitute db gw starter)).
  - rewrite map_map.
    change (fun x => let '(r2, _, points, minutes) := joined_row db gw x in
                     SubstituteRecord.mk (Rosters.player_id r2)
                       (Sql.coalesce points 0) (Sql.coalesce minutes 0) points)
      with (fun x => substitute_of (joined_row db gw x)).
    rewrite best_first_highest.
    + rewrite map_map. f_equal. apply map_ext. intros r. simpl.
      symmetry. apply recorded_points_columns.
    + intros x Hx. apply in_map_iff in Hx as [r [<- Hr]].
      apply filter_In in Hr as [_ He]. simpl.
      unfold eligible_substitute in He.
      apply andb_true_iff in He as [_ He]. apply negb_true_iff in He.
      rewrite played_has_points by lia.
      now rewrite recorded_points_columns, played_has_points by lia.
  - intros r Hr. apply team_rosters_In in Hr as [Hr _].
    exact (bench_filter starter r Hs Hr).
Qed.

(** *** One roster entry, in the code and in the rules *)

Lemma counted_roster r :
  In r (team_rosters db team) ->
  counted db team gw (record_of (joined_row db gw r))
  = if Rosters.is_starter r then starter_contribution db team gw r else 0.
Proof.
  intros Hr. unfold counted, contribution, starter_contribution. simpl.
  destruct (Rosters.is_starter r); [|reflexivity].
  rewrite <- recorded_minutes_columns, <- recorded_points_columns.
  pose proof (recorded_minutes_nonneg (Rosters.player_id r)) as Hm.
  destruct (recorded_minutes db gw (Rosters.player_id r) =? 0) eqn:E.
  - replace (0 <? recorded_minutes db gw (Rosters.player_id r)) with false by lia.
    rewrite (find_substitute_points r Hr).
    destruct (substitute_points db team gw r); reflexivity.
  - replace (0 <? recorded_minutes db gw (Rosters.player_id r)) with true by lia.
    reflexivity.
Qed.

Lemma sum_of_counted :
  sum_of (map (counted db team gw) (player_records db team gw))
  = base_total db team gw.
Proof.
  rewrite (sum_of_perm _ _ (Permutation_map _ player_records_perm)), map_map.
  rewrite (sum_of_map_ext_in _ _ _ counted_roster).
  unfold base_total, starters. now rewrite sum_of_filter.
Qed.

(** *** The bonus *)

Lemma apply_captain_bonus_cases total_points captain_points :
  apply_captain_bonus db team gw total_points captain_points
  = if 0 <? captain_points then int4_add total_points captain_points
    else if 0 <? vice_captain_bonus db team gw
         then int4_add total_points (vice_captain_bonus db team gw)
         else Ok total_points.
Proof.
  unfold apply_captain_bonus, vice_captain_bonus.
  rewrite Z.gtb_ltb. destruct (0 <? captain_points); [reflexivity|].
  destruct (vice_captain_id db team) as [vice|]; [|reflexivity].
  unfold vice_captain_points, recorded_points.
  destruct (Sql.limit_1 (scores_of db gw vice)) as [gs|]; simpl; [|reflexivity].
  rewrite Z.gtb_ltb.
  destruct (0 <? Sql.coalesce (GameweekScores.total_points gs) 0) eqn:E;
    [rewrite E|]; reflexivity.
Qed.

Lemma vice_captain_bonus_nonneg : 0 <= vice_captain_bonus db team gw.
Proof.
  unfold vice_captain_bonus. destruct (vice_captain_id db team) as [v|]; [|lia].
  destruct (0 <? recorded_points db gw v) eqn:E; lia.
Qed.


Lemma captains_in_records :
  List.length (filter PlayerRecord.is_captain (player_records db team gw))
  = List.length (filter Rosters.is_captain (team_rosters db team)).
Proof.
  rewrite (filter_length_perm _ _ _ player_records_perm), filter_map_length.
  reflexivity.
Qed.

Lemma one_captain_sum (f : Rosters.row -> Z) (l : list Rosters.row) :
  (List.length (filter Rosters.is_captain l) <= 1)%nat ->
  sum_of (map (fun r => if Rosters.is_captain r
                        then (if Rosters.is_starter r then f r else 0)
                        else 0) l)
  = match filter Rosters.is_captain (filter Rosters.is_starter l) with
    | r :: _ => f r
    | [] => 0
    end.
Proof.
  induction l as [|a r IH]; [reflexivity|]. intros H.
  rewrite map_cons, sum_of_cons. simpl in H. simpl.
  destruct (Rosters.is_captain a) eqn:Ec.
  - assert (Hr : filter Rosters.is_captain r = [])
      by (destruct (filter Rosters.is_captain r);
          [reflexivity | simpl in H; lia]).
    assert (IH' := IH). rewrite Hr in IH'. specialize (IH' (Nat.le_0_l 1)).
    destruct (Rosters.is_starter a); simpl.
    + rewrite Ec. rewrite IH'.
      assert (Hs : filter Rosters.is_captain (filter Rosters.is_starter r) = []).
      { clear -Hr. induction r as [|b r IH]; simpl in *; [reflexivity|].
        destruct (Rosters.is_captain b) eqn:E; [discriminate|].
        destruct (Rosters.is_starter b); simpl; [rewrite E|]; now apply IH. }
      rewrite Hs. lia.
    + rewrite IH'. lia.
  - rewrite IH by assumption.
    destruct (Rosters.is_starter a); simpl; [rewrite Ec|]; lia.
Qed.

Lemma captain_after_loop :
  at_most_one_captain db team = true ->
  captain_after db team gw 0 (player_records db team gw)
  = captain_contribution db team gw.
Proof.
  unfold at_most_one_captain. intros H. apply Nat.leb_le in H.
  rewrite captain_after_one_captain by (now rewrite captains_in_records).
  rewrite (sum_of_perm _ _ (Permutation_map _ player_records_perm)), map_map.
  rewrite (sum_of_map_ext_in _
             (fun r => if Rosters.is_captain r
                       then (if Rosters.is_starter r
                             then starter_contribution db team gw r else 0)
                       else 0)).
  - unfold captain_contribution, starters.
    apply (one_captain_sum (starter_contribution db team gw)). exact H.
  - intros r Hr. rewrite (counted_roster r Hr). reflexivity.
Qed.

Lemma loop_without_starters rows acc :
  (forall x, In x rows -> PlayerRecord.is_starter x = false) ->
  for_each rows acc (add_player db team gw) = Ok acc.
Proof.
  induction rows as [|x r IH]; intros H; [reflexivity|].
  rewrite for_each_result_cons, add_player_contribution.
  unfold contribution. rewrite (H x) by now left.
  apply IH. intros y Hy. apply H. now right.
Qed.

(** C4 (amended): with the schema's keys, the total after the loop is the
    sum over the starting roster entries of the starter's recorded points
    when the starter played more than zero minutes, else the points of the
    highest-scoring bench player of the same position with nonzero minutes,
    else zero -- unless an addition leaves the INTEGER range and the
    procedure raises.  A team with zero starters has base total 0 and
    returns the vice-captain's positive recorded score if there is one,
    and 0 otherwise. *)
Theorem base_total_of_starters :
  match for_each (player_records db team gw) (0, 0) (add_player db team gw) with
  | Ok (total_points, _) => total_points = base_total db team gw
  | Raise e => e = integer_out_of_range
  end
  /\ (starters db team = [] ->
      base_total db team gw = 0
      /\ calculate_fantasy_team_points db team gw
         = Ok (vice_captain_bonus db team gw)).
Proof.
  split.
  - pose proof (loop_result (player_records db team gw) 0 0) as H.
    destruct (for_each _ _ _) as [[t c]|e]; [|assumption].
    destruct H as [-> _]. rewrite sum_of_counted. lia.
  - intros Hs. split; [unfold base_total; now rewrite Hs|].
    unfold calculate_fantasy_team_points.
    rewrite loop_without_starters.
    + simpl. rewrite apply_captain_bonus_cases. simpl.
      pose proof vice_captain_bonus_nonneg as Hv.
      destruct (0 <? vice_captain_bonus db team gw) eqn:E; [|f_equal; lia].
      unfold int4_add, int4. simpl.
      replace (in_int4 (vice_captain_bonus db team gw)) with true; [reflexivity|].
      unfold vice_captain_bonus in *.
      destruct (vice_captain_id db team) as [v|]; [|discriminate].
      destruct (0 <? recorded_points db gw v); [|discriminate].
      symmetry. apply recorded_points_in_range.
    + intros x Hx.
      apply (Permutation_in _ player_records_perm) in Hx.
      apply in_map_iff in Hx as [r [<- Hr]]. simpl.
      destruct (Rosters.is_starter r) eqn:E; [|reflexivity].
      assert (Hin : In r (starters db team))
        by (unfold starters; apply filter_In; now split).
      rewrite Hs in Hin. destruct Hin.
Qed.

(** What the test captain_points > 0 computes: with the schema's keys and
    at most one captain, the result is the base total plus the captain's
    contribution after substitution when that contribution is positive,
    and the base total plus the vice-captain's positive recorded score in
    every other case.  (An addition leaving the INTEGER range raises
    instead.) *)
Theorem captain_bonus_rule :
  at_most_one_captain db team = true ->
  match calculate_fantasy_team_points db team gw with
  | Ok points =>
      (0 < captain_contribution db team gw ->
       points = base_total db team gw + captain_contribution db team gw)
      /\ (captain_contribution db team gw <= 0 ->
          points = base_total db team gw + vice_captain_bonus db team gw)
  | Raise e => e = integer_out_of_range
  end.
Proof.
  intros Hc. unfold calculate_fantasy_team_points.
  pose proof (loop_result (player_records db team gw) 0 0) as H.
  destruct (for_each _ _ _) as [[t c]|e]; simpl; [|assumption].
  destruct H as [-> ->]. rewrite sum_of_counted, (captain_after_loop Hc).
  rewrite apply_captain_bonus_cases. simpl.
  destruct (0 <? captain_contribution db team gw) eqn:E.
  - destruct (int4_add _ _) as [v|e] eqn:Ei.
    + apply int4_ok in Ei. split; intros; lia.
    + now apply int4_raise in Ei.
  - destruct (0 <? vice_captain_bonus db team gw) eqn:Ev.
    + destruct (int4_add _ _) as [v|e] eqn:Ei.
      * apply int4_ok in Ei. split; intros; lia.
      * now apply int4_raise in Ei.
    + pose proof vice_captain_bonus_nonneg. split; intros; lia.
Qed.

End CalculatorProofs.

(** The worked example of the specification. *)
Lemma worked_example_total :
  calculate_fantasy_team_points Example.worked 1%N 1 = Ok 17
  /\ base_total Example.worked 1%N 1 = 12
  /\ captain_contribution Example.worked 1%N 1 = 5.
Proof. split; [reflexivity | split; reflexivity]. Qed.

(** The bonus rule on the worked example. *)
Lemma captain_bonus_rule_witness :
  scoring_schema Example.worked = true
  /\ at_most_one_captain Example.worked 1%N = true
  /\ match calculate_fantasy_team_points Example.worked 1%N 1 with
     | Ok points =>
         (0 < captain_contribution Example.worked 1%N 1 ->
          points = base_total Example.worked 1%N 1
                   + captain_contribution Example.worked 1%N 1)
         /\ (captain_contribution Example.worked 1%N 1 <= 0 ->
             points = base_total Example.worked 1%N 1
                      + vice_captain_bonus Example.worked 1%N 1)
     | Raise e => e = integer_out_of_range
     end.
Proof.
  split; [reflexivity | split; [reflexivity|]].
  apply (captain_bonus_rule Example.worked 1%N 1); reflexivity.
Defined.

(** The base total on the worked example. *)
Lemma base_total_of_starters_witness :
  scoring_schema Example.worked = true
  /\ match for_each (player_records Example.worked 1%N 1) (0, 0)
                    (add_player Example.worked 1%N 1) with
     | Ok (total_points, _) => total_points = base_total Example.worked 1%N 1
     | Raise e => e = integer_out_of_range
     end.
Proof.
  split; [reflexivity|].
  apply (base_total_of_starters Example.worked 1%N 1). reflexivity.
Defined.

(** C3, evaluated on a captain who played 90 minutes and scored -1, with a
    vice-captain who scored 6: the claim has the vice-captain fallback
    exactly when the captain's contribution is zero, as the procedure's
    comment has it when the captain did not play.  The procedure tests
    captain_points > 0 and adds the vice-captain's 6 for this captain too:
    it returns 11, the base total 5 plus 6.  On the worked example it
    returns 17. *)
Lemma fallback_below_zero :
  map (fun s => (GameweekScores.player_id s, GameweekScores.total_points s,
                 GameweekScores.minutes_played s))
      (gameweek_scores Example.captain_below_zero)
  = [(10%N, Some (-1), Some 90); (11%N, Some 6, Some 90)]
  /\ captain_contribution Example.captain_below_zero 1%N 1 = -1
  /\ captain_contribution Example.captain_below_zero 1%N 1 <> 0
  /\ base_total Example.captain_below_zero 1%N 1 = 5
  /\ vice_captain_bonus Example.captain_below_zero 1%N 1 = 6
  /\ calculate_fantasy_team_points Example.captain_below_zero 1%N 1 = Ok (5 + 6)
  /\ calculate_fantasy_team_points Example.worked 1%N 1 = Ok 17.
Proof.
  split; [reflexivity|]. split; [reflexivity|]. split; [discriminate|].
  split; [reflexivity|]. split; [reflexivity|]. split; reflexivity.
Qed.

(** C4, the claim as stated fails: a team with zero starters whose
    vice-captain has a recorded score of 6 returns 6, not 0. *)
Lemma no_starters_not_zero :
  starters Example.no_starters 1%N = []
  /\ calculate_fantasy_team_points Example.no_starters 1%N 1 = Ok 6
  /\ calculate_fantasy_team_points Example.no_starters 1%N 1 <> Ok 0.
Proof. split; [reflexivity | split; [reflexivity | discriminate]]. Qed.

(** ** Procedures over the database *)

Lemma bind_run {A B} (m : plpgsql A) (k : A -> plpgsql B) (db : database) :
  (x <- m ;; k x) db
  = match m db with
    | (Ok a, db1) => k a db1
    | (Raise e, db1) => (Raise e, db1)
    end.
Proof. reflexivity. Qed.

Lemma bind_query {A B} (q : database -> A) (k : A -> plpgsql B) db :
  (x <- query q ;; k x) db = k (q db) db.
Proof. reflexivity. Qed.

Lemma bind_ret {A B} (a : A) (k : A -> plpgsql B) db :
  (x <- ret a ;; k x) db = k a db.
Proof. reflexivity. Qed.

Lemma bind_ok {A B} (m : plpgsql A) (k : A -> plpgsql B) db b db' :
  (x <- m ;; k x) db = (Ok b, db') ->
  exists a db1, m db = (Ok a, db1) /\ k a db1 = (Ok b, db').
Proof.
  rewrite bind_run. destruct (m db) as [[a|e] db1]; intros H; [eauto | discriminate].
Qed.

Lemma bind_raise {A B} (m : plpgsql A) (k : A -> plpgsql B) db e db' :
  (x <- m ;; k x) db = (Raise e, db') ->
  m db = (Raise e, db')
  \/ exists a db1, m db = (Ok a, db1) /\ k a db1 = (Raise e, db').
Proof.
  rewrite bind_run. destruct (m db) as [[a|e0] db1]; intros H; [right; eauto|].
  left. congruence.
Qed.

Lemma for_each_plpgsql_cons {X S} (x : X) (r : list X) (s : S)
    (body : S -> X -> plpgsql S) :
  for_each (x :: r) s body = (s' <- body s x ;; for_each r s' body).
Proof. reflexivity. Qed.

Section Keeps.

Variable R : database -> database -> Prop.
Hypothesis R_refl : forall db, R db db.
Hypothesis R_trans : forall a b c, R a b -> R b c -> R a c.

Lemma keeps_ret {A} (a : A) : keeps R (ret a).
Proof. intros db. apply R_refl. Qed.

Lemma keeps_raise {A} (e : sql_error) : keeps R (@raise A e).
Proof. intros db. apply R_refl. Qed.

Lemma keeps_eval {A} (r : result A) : keeps R (eval r).
Proof. intros db. apply R_refl. Qed.

Lemma keeps_query {A} (q : database -> A) : keeps R (query q).
Proof. intros db. apply R_refl. Qed.

Lemma keeps_query_checked {A} (q : database -> result A) :
  keeps R (query_checked q).
Proof. intros db. apply R_refl. Qed.

Lemma keeps_perform (f : database -> database) :
  (forall db, R db (f db)) -> keeps R (perform f).
Proof. intros H db. apply H. Qed.

Lemma keeps_bind {A B} (m : plpgsql A) (k : A -> plpgsql B) :
  keeps R m -> (forall a, keeps R (k a)) -> keeps R (x <- m ;; k x).
Proof.
  intros Hm Hk db. rewrite bind_run. specialize (Hm db).
  destruct (m db) as [[a|e] db1]; simpl in *; [|assumption].
  apply R_trans with db1; [assumption | apply Hk].
Qed.

Lemma keeps_for_each {X S} (rows : list X) (body : S -> X -> plpgsql S) :
  (forall s x, keeps R (body s x)) -> forall s, keeps R (for_each rows s body).
Proof.
  intros Hb. induction rows as [|x r IH]; intros s.
  - apply keeps_ret.
  - rewrite for_each_plpgsql_cons. apply keeps_bind; [apply Hb | apply IH].
Qed.

End Keeps.

Lemma same_inputs_refl db : same_inputs db db.
Proof. unfold same_inputs. auto. Qed.

Lemma same_inputs_trans a b c : same_inputs a b -> same_inputs b c -> same_inputs a c.
Proof.
  unfold same_inputs. intros (?&?&?&?&?) (?&?&?&?&?). repeat split; congruence.
Qed.

Lemma same_inputs_on_points f db : same_inputs db (on_points f db).
Proof. unfold same_inputs. auto. Qed.

Lemma same_inputs_on_fantasy_teams f db : same_inputs db (on_fantasy_teams f db).
Proof. unfold same_inputs. auto. Qed.

Lemma same_inputs_with_fantasy_teams t db : same_inputs db (with_fantasy_teams t db).
Proof. unfold same_inputs. auto. Qed.

Ltac keeps_same_inputs :=
  repeat first
    [ apply (keeps_bind same_inputs same_inputs_trans); [|intro]
    | apply (keeps_for_each same_inputs same_inputs_refl same_inputs_trans); intros
    | apply (keeps_query same_inputs same_inputs_refl)
    | apply (keeps_query_checked same_inputs same_inputs_refl)
    | apply (keeps_eval same_inputs same_inputs_refl)
    | apply (keeps_ret same_inputs same_inputs_refl)
    | apply keeps_perform; intro
    | apply same_inputs_on_points
    | apply same_inputs_on_fantasy_teams
    | apply same_inputs_with_fantasy_teams ].

(** *** Which errors a step can raise *)

Lemma overflow_bind {A B} (m : plpgsql A) (k : A -> plpgsql B) :
  raises_only_overflow m -> (forall a, raises_only_overflow (k a)) ->
  raises_only_overflow (x <- m ;; k x).
Proof.
  intros Hm Hk db e db' H.
  apply bind_raise in H as [H|(a & db1 & _ & H)]; [now apply Hm in H|].
  now apply Hk in H.
Qed.

Lemma overflow_ret {A} (a : A) : raises_only_overflow (ret a : plpgsql A).
Proof. intros db e db' H. discriminate. Qed.

Lemma overflow_query {A} (q : database -> A) : raises_only_overflow (query q).
Proof. intros db e db' H. discriminate. Qed.

Lemma overflow_perform f : raises_only_overflow (perform f).
Proof. intros db e db' H. discriminate. Qed.

Lemma overflow_query_checked {A} (q : database -> result A) :
  (forall db e, q db = Raise e -> e = integer_out_of_range) ->
  raises_only_overflow (query_checked q).
Proof.
  intros Hq db e db' H. unfold query_checked in H. injection H as H _.
  now apply Hq in H.
Qed.

Lemma overflow_int4_add a b : raises_only_overflow (eval (int4_add a b)).
Proof.
  intros db e db' H. unfold eval in H. injection H as H _.
  unfold int4_add, int4 in H. destruct (in_int4 _); congruence.
Qed.

Lemma overflow_for_each {X S} (rows : list X) (body : S -> X -> plpgsql S) :
  (forall s x, raises_only_overflow (body s x)) ->
  forall s, raises_only_overflow (for_each rows s body).
Proof.
  intros Hb. induction rows as [|x r IH]; intros s.
  - apply overflow_ret.
  - rewrite for_each_plpgsql_cons. apply overflow_bind; [apply Hb | apply IH].
Qed.

Lemma calculate_raises_overflow db team gw e :
  calculate_fantasy_team_points db team gw = Raise e -> e = integer_out_of_range.
Proof.
  unfold calculate_fantasy_team_points.
  pose proof (loop_result db team gw (player_records db team gw) 0 0) as H.
  destruct (for_each _ _ _) as [[t c]|e']; simpl.
  - rewrite apply_captain_bonus_cases.
    destruct (0 <? c); [apply int4_raise|].
    destruct (0 <? vice_captain_bonus db team gw); [apply int4_raise | discriminate].
  - congruence.
Qed.

Lemma settle_team_raises_overflow pts next t e :
  settle_team pts next t = Raise e -> e = integer_out_of_range.
Proof.
  unfold settle_team, int4_add, int4_sub, int4. simpl.
  repeat (destruct (in_int4 _); simpl); congruence.
Qed.

Lemma update_where_checked_raises {A} (cond : A -> bool) (set : A -> result A)
    (t : list A) e :
  (forall r e, set r = Raise e -> e = integer_out_of_range) ->
  update_where_checked cond set t = Raise e -> e = integer_out_of_range.
Proof.
  intros Hs. induction t as [|r rest IH]; simpl; [discriminate|].
  destruct (cond r).
  - destruct (set r) as [r'|e'] eqn:E; [|intros H; injection H as <-; eauto].
    destruct (update_where_checked cond set rest); [discriminate|].
    intros H. injection H as <-. now apply IH.
  - destruct (update_where_checked cond set rest); [discriminate|].
    intros H. injection H as <-. now apply IH.
Qed.

Section FinalizerProofs.

Variable g : Z.

Lemma settle_same_inputs team : keeps same_inputs (settle g team).
Proof. unfold settle. keeps_same_inputs. Qed.

Lemma rank_league_same_inputs rc league : keeps same_inputs (rank_league g rc league).
Proof. unfold rank_league, rank_in_league. keeps_same_inputs. Qed.

Lemma rank_overall_same_inputs rc team : keeps same_inputs (rank_overall rc team).
Proof. unfold rank_overall. keeps_same_inputs. Qed.

Lemma settle_raises_overflow team : raises_only_overflow (settle g team).
Proof.
  unfold settle.
  apply overflow_bind;
    [apply overflow_query_checked; intros; eapply calculate_raises_overflow; eauto|].
  intros pts. apply overflow_bind; [apply overflow_perform|]. intros _.
  apply overflow_bind; [apply overflow_int4_add|]. intros next.
  apply overflow_bind; [|intros; apply overflow_perform].
  apply overflow_query_checked. intros db e H.
  eapply update_where_checked_raises; [|exact H].
  intros r e'. apply settle_team_raises_overflow.
Qed.

Lemma rank_league_raises_overflow rc league :
  raises_only_overflow (rank_league g rc league).
Proof.
  unfold rank_league.
  apply overflow_bind; [apply overflow_query|]. intros members.
  apply overflow_for_each. intros s x. unfold rank_in_league.
  apply overflow_bind; [apply overflow_perform | intros; apply overflow_int4_add].
Qed.

Lemma rank_overall_raises_overflow rc team :
  raises_only_overflow (rank_overall rc team).
Proof.
  unfold rank_overall.
  apply overflow_bind; [apply overflow_perform | intros; apply overflow_int4_add].
Qed.

(** A call that passes the check can only fail on INTEGER overflow. *)
Lemma finalize_gameweek_raises db e db' :
  has_incomplete_match g db = false ->
  finalize_gameweek g db = (Raise e, db') -> e = integer_out_of_range.
Proof.
  intros Hinc. unfold finalize_gameweek. rewrite bind_query, Hinc, bind_ret.
  refine (overflow_bind _ _ _ _ db e db'); [apply overflow_query|]. intros teams.
  apply overflow_bind;
    [apply overflow_for_each; intros; apply settle_raises_overflow|]. intros _.
  apply overflow_bind; [apply overflow_query|]. intros leagues.
  apply overflow_bind;
    [apply overflow_for_each; intros; apply rank_league_raises_overflow|].
  intros rc.
  apply overflow_bind; [apply overflow_query|]. intros teams'.
  apply overflow_bind;
    [apply overflow_for_each; intros; apply rank_overall_raises_overflow|].
  intros rc'.
  apply overflow_bind; [apply overflow_perform|]. intros _.
  apply overflow_bind; [apply overflow_int4_add|]. intros next.
  apply overflow_bind; [apply overflow_perform|]. intros _.
  apply overflow_bind; [apply overflow_int4_add|]. intros after.
  apply overflow_perform.
Qed.

(** The precondition check comes first and writes nothing. *)
Lemma finalize_gameweek_check_fails db :
  has_incomplete_match g db = true ->
  finalize_gameweek g db = (Raise (raise_exception cannot_finalize g), db).
Proof.
  intros H. unfold finalize_gameweek. rewrite bind_run. unfold query at 1.
  rewrite H. reflexivity.
Qed.

Lemma query_ok {A} (q : database -> A) db a db' :
  query q db = (Ok a, db') -> a = q db /\ db' = db.
Proof. unfold query. intros H. injection H as <- <-. auto. Qed.

Lemma eval_ok {A} (r : result A) db a db' :
  eval r db = (Ok a, db') -> r = Ok a /\ db' = db.
Proof. unfold eval. intros H. injection H as -> <-. auto. Qed.

Lemma perform_ok f db u db' : perform f db = (Ok u, db') -> db' = f db.
Proof. unfold perform. intros H. now injection H as <-. Qed.

(** The steps of a call that returns. *)
Lemma finalize_gameweek_ok db db' :
  finalize_gameweek g db = (Ok tt, db') ->
  has_incomplete_match g db = false
  /\ exists db1 db2 db3 rc rc' next after,
       for_each (teams_by_id db) tt (fun _ team => settle g team) db = (Ok tt, db1)
       /\ for_each (league_ids db1) 1 (rank_league g) db1 = (Ok rc, db2)
       /\ for_each (overall_table db2) 1 rank_overall db2 = (Ok rc', db3)
       /\ int4_add g 1 = Ok next /\ int4_add g 2 = Ok after
       /\ db' = on_gameweeks (mark_after_next after)
                  (on_gameweeks (promote_next next)
                     (on_gameweeks (finalize_target g) db3)).
Proof.
  unfold finalize_gameweek. intros H.
  apply bind_ok in H as (inc & d0 & Hq & H). apply query_ok in Hq as [-> ->].
  destruct (has_incomplete_match g db) eqn:Hinc.
  { rewrite bind_run in H. discriminate. }
  split; [reflexivity|].
  apply bind_ok in H as ([] & d0 & Hr & H). injection Hr as <-.
  apply bind_ok in H as (teams & d0 & Hq & H). apply query_ok in Hq as [-> ->].
  apply bind_ok in H as ([] & db1 & H1 & H).
  apply bind_ok in H as (leagues & d0 & Hq & H). apply query_ok in Hq as [-> ->].
  apply bind_ok in H as (rc & db2 & H2 & H).
  apply bind_ok in H as (teams & d0 & Hq & H). apply query_ok in Hq as [-> ->].
  apply bind_ok in H as (rc' & db3 & H3 & H).
  apply bind_ok in H as ([] & d4 & Hp4 & H). apply perform_ok in Hp4. subst d4.
  apply bind_ok in H as (next & d0 & He & H). apply eval_ok in He as [He ->].
  apply bind_ok in H as ([] & d5 & Hp5 & H). apply perform_ok in Hp5. subst d5.
  apply bind_ok in H as (after & d0 & He' & H). apply eval_ok in He' as [He' ->].
  apply perform_ok in H.
  exists db1, db2, db3, rc, rc', next, after. auto 10.
Qed.

Lemma for_each_keeps_same_inputs {X S} (rows : list X) (s : S)
    (body : S -> X -> plpgsql S) db r db' :
  (forall s x, keeps same_inputs (body s x)) ->
  for_each rows s body db = (r, db') -> same_inputs db db'.
Proof.
  intros Hb H.
  pose proof (keeps_for_each same_inputs same_inputs_refl same_inputs_trans
                rows body Hb s db) as K.
  rewrite H in K. exact K.
Qed.

(** Nothing before the three UPDATE gameweeks statements touches the
    tables the procedure reads. *)
Lemma finalize_gameweek_gameweeks db db' :
  finalize_gameweek g db = (Ok tt, db') ->
  exists next after,
    int4_add g 1 = Ok next /\ int4_add g 2 = Ok after
    /\ gameweeks db'
       = mark_after_next after (promote_next next (finalize_target g (gameweeks db)))
    /\ real_matches db' = real_matches db
    /\ rosters db' = rosters db
    /\ players db' = players db
    /\ gameweek_scores db' = gameweek_scores db.
Proof.
  intros H. apply finalize_gameweek_ok in H
    as (_ & db1 & db2 & db3 & rc & rc' & next & after
        & H1 & H2 & H3 & Hn & Ha & ->).
  apply for_each_keeps_same_inputs in H1;
    [|intros; apply settle_same_inputs].
  apply for_each_keeps_same_inputs in H2;
    [|intros; apply rank_league_same_inputs].
  apply for_each_keeps_same_inputs in H3;
    [|intros; apply rank_overall_same_inputs].
  pose proof (same_inputs_trans _ _ _ (same_inputs_trans _ _ _ H1 H2) H3)
    as (Eg & Em & Er & Ep & Es).
  exists next, after. simpl. rewrite Eg. auto 10.
Qed.

Lemma Forall2_map_self {A B} (R : A -> B -> Prop) (f : A -> B) (l : list A) :
  (forall x, R x (f x)) -> Forall2 R l (map f l).
Proof. intros H. induction l; simpl; constructor; auto. Qed.

Lemma finalize_gameweek_rows db db' :
  finalize_gameweek g db = (Ok tt, db') ->
  gameweeks db' = map (advance_row g) (gameweeks db).
Proof.
  intros H. apply finalize_gameweek_gameweeks in H
    as (next & after & Hn & Ha & -> & _).
  apply int4_ok in Hn, Ha. subst next after.
  unfold mark_after_next, promote_next, finalize_target, Sql.update_where.
  rewrite !map_map. reflexivity.
Qed.

Lemma advance_row_effect r :
  gameweek_number (advance_row g r) = gameweek_number r
  /\ (gameweek_number r = g ->
      status (advance_row g r) = "finalized"
      /\ is_current (advance_row g r) = false
      /\ is_finished (advance_row g r) = true)
  /\ (gameweek_number r = g + 1 ->
      status (advance_row g r) = "active"
      /\ is_current (advance_row g r) = true
      /\ is_next (advance_row g r) = false)
  /\ (gameweek_number r = g + 2 -> is_next (advance_row g r) = true).
Proof.
  unfold advance_row.
  destruct (gameweek_number r =? g) eqn:E1; simpl;
    destruct (gameweek_number r =? g + 1) eqn:E2; simpl;
    destruct (gameweek_number r =? g + 2) eqn:E3; simpl;
    repeat split; intros; try reflexivity; lia.
Qed.

(** C2: when a real match of the target gameweek has a status other than
    'completed', [finalize_gameweek] raises its exception, naming the
    gameweek, before anything is written: the database at the raise is
    the database of the call, table by table. *)
Theorem finalize_gameweek_refuses db :
  (exists m, In m (real_matches db)
             /\ RealMatches.gameweek m = g
             /\ RealMatches.status m <> "completed") ->
  finalize_gameweek g db = (Raise (raise_exception cannot_finalize g), db).
Proof.
  intros (m & Hm & Hg & Hs). apply finalize_gameweek_check_fails.
  unfold has_incomplete_match. apply existsb_exists. exists m.
  split; [assumption|]. apply andb_true_iff. split; [lia|].
  apply negb_true_iff. now apply String.eqb_neq.
Qed.

(** C8: after a call that returns, every gameweek numbered g is
    'finalized' and not current, every gameweek numbered g+1 is 'active'
    and current, every gameweek numbered g+2 is next; the table has the
    gameweek numbers it had. *)
Theorem finalize_gameweek_advances db db' :
  finalize_gameweek g db = (Ok tt, db') ->
  map gameweek_number (gameweeks db') = map gameweek_number (gameweeks db)
  /\ forall r, In r (gameweeks db') ->
       (gameweek_number r = g -> status r = "finalized" /\ is_current r = false)
       /\ (gameweek_number r = g + 1 -> status r = "active" /\ is_current r = true)
       /\ (gameweek_number r = g + 2 -> is_next r = true).
Proof.
  intros H. rewrite (finalize_gameweek_rows db db' H). split.
  - rewrite map_map. apply map_ext. intros r. apply advance_row_effect.
  - intros r Hr. apply in_map_iff in Hr as [r0 [<- _]].
    destruct (advance_row_effect r0) as (En & H0 & H1 & H2). rewrite En.
    split; [|split]; intros E.
    + destruct (H0 E) as (? & ? & ?). auto.
    + destruct (H1 E) as (? & ? & ?). auto.
    + auto.
Qed.

Lemma all_matches_completed db :
  (forall m, In m (real_matches db) -> RealMatches.gameweek m = g ->
             RealMatches.status m = "completed") ->
  has_incomplete_match g db = false.
Proof.
  intros H. unfold has_incomplete_match.
  destruct (existsb _ (real_matches db)) eqn:E; [|reflexivity].
  apply existsb_exists in E as [m [Hm E]].
  apply andb_true_iff in E as [Eg Es]. apply Z.eqb_eq in Eg.
  apply negb_true_iff, String.eqb_neq in Es. now specialize (H m Hm Eg).
Qed.

(** C10: when every match of gameweek g is 'completed', each gameweek
    numbered g+1 ends 'active' and current whatever its status was,
    'finalized' included; the only other outcome is an INTEGER overflow
    raised on the way. *)
Theorem finalize_gameweek_promotes_next db :
  (forall m, In m (real_matches db) -> RealMatches.gameweek m = g ->
             RealMatches.status m = "completed") ->
  match finalize_gameweek g db with
  | (Ok _, db') =>
      Forall2 (fun old new =>
                 gameweek_number new = gameweek_number old
                 /\ (gameweek_number old = g + 1 ->
                     status new = "active" /\ is_current new = true))
              (gameweeks db) (gameweeks db')
  | (Raise e, _) => e = integer_out_of_range
  end.
Proof.
  intros Hpre. apply all_matches_completed in Hpre.
  destruct (finalize_gameweek g db) as [[[]|e] db'] eqn:H.
  - rewrite (finalize_gameweek_rows db db' H). apply Forall2_map_self.
    intros r. destruct (advance_row_effect r) as (En & _ & H1 & _).
    split; [assumption|]. intros E. now destruct (H1 E) as (? & ? & ?).
  - exact (finalize_gameweek_raises db e db' Hpre H).
Qed.

End FinalizerProofs.

(** The example season with a live match in gameweek 1 is not finalized. *)
Lemma finalize_gameweek_refuses_witness :
  (exists m, In m (real_matches Example.match_live)
             /\ RealMatches.gameweek m = 1
             /\ RealMatches.status m <> "completed")
  /\ finalize_gameweek 1 Example.match_live
     = (Raise (raise_exception cannot_finalize 1), Example.match_live).
Proof.
  assert (H : exists m, In m (real_matches Example.match_live)
                        /\ RealMatches.gameweek m = 1
                        /\ RealMatches.status m <> "completed").
  { exists (RealMatches.mk 1 "live"). simpl. split; [auto|]. split; [reflexivity|].
    discriminate. }
  split; [exact H|]. exact (finalize_gameweek_refuses 1 Example.match_live H).
Defined.

(** Finalizing gameweek 1 of the example season. *)
Lemma finalize_gameweek_advances_witness :
  finalize_gameweek 1 Example.season
  = (Ok tt, snd (finalize_gameweek 1 Example.season))
  /\ map (fun r => (gameweek_number r, status r, is_current r, is_next r))
         (gameweeks (snd (finalize_gameweek 1 Example.season)))
     = [(1, "finalized", false, false); (2, "active", true, false);
        (3, "upcoming", false, true)]
  /\ forall r, In r (gameweeks (snd (finalize_gameweek 1 Example.season))) ->
       (gameweek_number r = 1 -> status r = "finalized" /\ is_current r = false)
       /\ (gameweek_number r = 1 + 1 -> status r = "active" /\ is_current r = true)
       /\ (gameweek_number r = 1 + 2 -> is_next r = true).
Proof.
  split; [reflexivity | split; [reflexivity|]].
  apply (finalize_gameweek_advances 1 Example.season
           (snd (finalize_gameweek 1 Example.season))).
  reflexivity.
Defined.

(** Gameweek 2 of the example season was 'finalized' and is 'active' after
    finalizing gameweek 1. *)
Lemma finalize_gameweek_promotes_next_witness :
  (forall m, In m (real_matches Example.season) -> RealMatches.gameweek m = 1 ->
             RealMatches.status m = "completed")
  /\ map status (gameweeks Example.season) = ["active"; "finalized"; "upcoming"]
  /\ map status (gameweeks (snd (finalize_gameweek 1 Example.season)))
     = ["finalized"; "active"; "upcoming"]
  /\ match finalize_gameweek 1 Example.season with
     | (Ok _, db') =>
         Forall2 (fun old new =>
                    gameweek_number new = gameweek_number old
                    /\ (gameweek_number old = 1 + 1 ->
                        status new = "active" /\ is_current new = true))
                 (gameweeks Example.season) (gameweeks db')
     | (Raise e, _) => e = integer_out_of_range
     end.
Proof.
  assert (Hpre : forall m, In m (real_matches Example.season) ->
                   RealMatches.gameweek m = 1 ->
                   RealMatches.status m = "completed").
  { simpl. intros m [<-|[<-|[<-|[]]]]; simpl; intros E;
      [reflexivity | reflexivity | discriminate E]. }
  split; [exact Hpre | split; [reflexivity | split; [reflexivity|]]].
  exact (finalize_gameweek_promotes_next 1 Example.season Hpre).
Defined.

(** ** The totals of a finalization *)

Lemma Forall2_compose {A B C} (R1 : A -> B -> Prop) (R2 : B -> C -> Prop)
    (R3 : A -> C -> Prop) (a : list A) (b : list B) (c : list C) :
  (forall x y z, R1 x y -> R2 y z -> R3 x z) ->
  Forall2 R1 a b -> Forall2 R2 b c -> Forall2 R3 a c.
Proof.
  intros H H1. revert c. induction H1; intros c H2; inversion H2; subst;
    constructor; eauto.
Qed.

Lemma Forall2_refl {A} (R : A -> A -> Prop) (l : list A) :
  (forall x, R x x) -> Forall2 R l l.
Proof. intros H. induction l; constructor; auto. Qed.

Lemma Forall2_impl {A B} (R R' : A -> B -> Prop) (a : list A) (b : list B) :
  (forall x y, R x y -> R' x y) -> Forall2 R a b -> Forall2 R' a b.
Proof. intros H. induction 1; constructor; auto. Qed.

Lemma Forall2_map_eq {A B C} (R : A -> B -> Prop) (f : A -> C) (g : B -> C)
    (a : list A) (b : list B) :
  (forall x y, R x y -> g y = f x) -> Forall2 R a b -> map g b = map f a.
Proof. intros H. induction 1; simpl; [reflexivity|]. f_equal; auto. Qed.

Lemma distinct_NoDup (l : list N) : distinct N.eqb l = true -> NoDup l.
Proof.
  induction l as [|x r IH]; simpl; intros H; constructor;
    apply andb_true_iff in H as [Hx Hr]; [|now apply IH].
  intros Hin. apply negb_true_iff in Hx.
  assert (existsb (N.eqb x) r = true)
    by (apply existsb_exists; exists x; split; [assumption | apply N.eqb_refl]).
  congruence.
Qed.


Lemma update_where_checked_ok {A} (cond : A -> bool) (set : A -> result A)
    (t t' : list A) :
  update_where_checked cond set t = Ok t' ->
  Forall2 (fun old new => if cond old then set old = Ok new else new = old) t t'.
Proof.
  revert t'. induction t as [|r rest IH]; simpl; intros t' H.
  - injection H as <-. constructor.
  - destruct (cond r) eqn:Ec.
    + destruct (set r) as [r'|] eqn:Es; [|discriminate].
      destruct (update_where_checked cond set rest) as [rest'|]; [|discriminate].
      injection H as <-. constructor; [now rewrite Ec | now apply IH].
    + destruct (update_where_checked cond set rest) as [rest'|]; [|discriminate].
      injection H as <-. constructor; [now rewrite Ec | now apply IH].
Qed.

Lemma settle_team_ok points next t t' :
  settle_team points next t = Ok t' ->
  FantasyTeams.fantasy_team_id t' = FantasyTeams.fantasy_team_id t
  /\ FantasyTeams.total_points t'
     = Some (Sql.coalesce (FantasyTeams.total_points t) 0 + points
             - Sql.coalesce (FantasyTeams.gameweek_points t) 0)
  /\ FantasyTeams.gameweek_points t' = Some points.
Proof.
  unfold settle_team, int4_add, int4_sub, int4. simpl.
  repeat (destruct (in_int4 _); simpl; [|discriminate]).
  intros H. injection H as <-. simpl. auto.
Qed.

Lemma calculate_same_tables db db1 team gw :
  rosters db1 = rosters db -> players db1 = players db ->
  gameweek_scores db1 = gameweek_scores db ->
  calculate_fantasy_team_points db1 team gw
  = calculate_fantasy_team_points db team gw.
Proof.
  destruct db, db1. simpl. intros -> -> ->. reflexivity.
Qed.

Section TotalsProofs.

Variable g : Z.

Lemma settle_ok team db db' :
  settle g team db = (Ok tt, db') ->
  exists points next,
    calculate_fantasy_team_points db team g = Ok points
    /\ int4_add g 1 = Ok next
    /\ Forall2 (fun old new =>
                  if is_team team old
                  then settle_team points next old = Ok new
                  else new = old)
               (fantasy_teams db) (fantasy_teams db').
Proof.
  unfold settle. intros H.
  apply bind_ok in H as (points & d0 & Hc & H).
  unfold query_checked in Hc. injection Hc as Hc <-.
  apply bind_ok in H as ([] & d1 & Hp & H). apply perform_ok in Hp. subst d1.
  apply bind_ok in H as (next & d0 & He & H). apply eval_ok in He as [He ->].
  apply bind_ok in H as (teams & d0 & Hu & H).
  unfold query_checked in Hu. injection Hu as Hu <-.
  apply perform_ok in H. subst db'. simpl in *.
  exists points, next. repeat split; try assumption.
  now apply update_where_checked_ok.
Qed.

Lemma settle_loop db0 (l : list uuid) : forall db_a db_b,
  NoDup l -> same_inputs db0 db_a ->
  for_each l tt (fun _ team => settle g team) db_a = (Ok tt, db_b) ->
  Forall2 (fun old new =>
             if existsb (N.eqb (FantasyTeams.fantasy_team_id old)) l
             then settled db0 g old new
             else new = old)
          (fantasy_teams db_a) (fantasy_teams db_b).
Proof.
  induction l as [|i l IH]; intros db_a db_b Hnd Hin H.
  - injection H as <-. simpl. now apply Forall2_refl.
  - rewrite for_each_plpgsql_cons in H.
    apply bind_ok in H as ([] & db1 & Hs & H).
    inversion Hnd as [|? ? Hi Hnd']; subst.
    pose proof (settle_same_inputs g i db_a) as K. rewrite Hs in K. simpl in K.
    pose proof (same_inputs_trans _ _ _ Hin K) as Hin1.
    apply settle_ok in Hs as (points & next & Hc & Hn & Hstep).
    specialize (IH db1 db_b Hnd' Hin1 H).
    destruct Hin as (_ & _ & Er & Ep & Es).
    rewrite (calculate_same_tables db0 db_a i g Er Ep Es) in Hc.
    refine (Forall2_compose _ _ _ _ _ _ _ Hstep IH).
    intros old mid new H1 H2. simpl. unfold is_team in H1.
    destruct (FantasyTeams.fantasy_team_id old =? i)%N eqn:E.
    + apply N.eqb_eq in E. simpl.
      destruct (settle_team_ok _ _ _ _ H1) as (Eid & _).
      replace (existsb (N.eqb (FantasyTeams.fantasy_team_id mid)) l)
        with false in H2.
      * subst new. exists points, next. rewrite E. auto.
      * symmetry. rewrite Eid, E.
        destruct (existsb (N.eqb i) l) eqn:Ex; [|reflexivity].
        apply existsb_exists in Ex as [y [Hy Ey]]. apply N.eqb_eq in Ey.
        subst y. contradiction.
    + subst mid. simpl. exact H2.
Qed.

Lemma teams_by_id_perm db :
  Permutation (teams_by_id db) (map FantasyTeams.fantasy_team_id (fantasy_teams db)).
Proof. unfold teams_by_id. apply Permutation_map, order_by_perm. Qed.

Lemma settle_all_teams db db1 :
  team_ids_unique db = true ->
  for_each (teams_by_id db) tt (fun _ team => settle g team) db = (Ok tt, db1) ->
  Forall2 (settled db g) (fantasy_teams db) (fantasy_teams db1).
Proof.
  intros Hu H.
  assert (Hnd : NoDup (teams_by_id db)).
  { apply (Permutation_NoDup (Permutation_sym (teams_by_id_perm db))).
    now apply distinct_NoDup. }
  pose proof (settle_loop db _ db db1 Hnd (same_inputs_refl db) H) as F.
  assert (Hall : forall t, In t (fantasy_teams db) ->
            existsb (N.eqb (FantasyTeams.fantasy_team_id t)) (teams_by_id db) = true).
  { intros t Ht. apply existsb_exists. exists (FantasyTeams.fantasy_team_id t).
    split; [|apply N.eqb_refl].
    apply (Permutation_in _ (Permutation_sym (teams_by_id_perm db))).
    now apply in_map. }
  revert Hall F. generalize (teams_by_id db) as l.
  generalize (fantasy_teams db1) as t1. generalize (fantasy_teams db) as t0.
  intros t0 t1 l Hall F. induction F as [|old new r r' Hx _ IH];
    constructor.
  - rewrite (Hall old) in Hx by now left. exact Hx.
  - apply IH. intros t Ht. apply Hall. now right.
Qed.

Lemma same_but_rank_refl t : same_but_rank t t.
Proof. unfold same_but_rank. auto 10. Qed.

Lemma same_but_rank_trans a b c :
  same_but_rank a b -> same_but_rank b c -> same_but_rank a c.
Proof.
  unfold same_but_rank. intros (?&?&?&?&?&?&?) (?&?&?&?&?&?&?).
  repeat split; congruence.
Qed.

Lemma same_teams_but_rank_refl db : same_teams_but_rank db db.
Proof. apply Forall2_refl, same_but_rank_refl. Qed.

Lemma same_teams_but_rank_trans a b c :
  same_teams_but_rank a b -> same_teams_but_rank b c -> same_teams_but_rank a c.
Proof.
  unfold same_teams_but_rank. intros H1 H2.
  refine (Forall2_compose _ _ _ _ _ _ _ H1 H2). apply same_but_rank_trans.
Qed.

Lemma rank_league_same_teams rc league :
  keeps same_teams_but_rank (rank_league g rc league).
Proof.
  unfold rank_league, rank_in_league.
  apply (keeps_bind _ same_teams_but_rank_trans);
    [apply (keeps_query _ same_teams_but_rank_refl)|]. intros members.
  apply (keeps_for_each _ same_teams_but_rank_refl same_teams_but_rank_trans).
  intros s x.
  apply (keeps_bind _ same_teams_but_rank_trans);
    [|intros; apply (keeps_eval _ same_teams_but_rank_refl)].
  apply keeps_perform. intros db. unfold same_teams_but_rank. simpl.
  apply Forall2_refl, same_but_rank_refl.
Qed.

Lemma rank_overall_same_teams rc team :
  keeps same_teams_but_rank (rank_overall rc team).
Proof.
  unfold rank_overall.
  apply (keeps_bind _ same_teams_but_rank_trans);
    [|intros; apply (keeps_eval _ same_teams_but_rank_refl)].
  apply keeps_perform. intros db. unfold same_teams_but_rank. simpl.
  unfold Sql.update_where. apply Forall2_map_self. intros t.
  destruct (is_team team t); [|apply same_but_rank_refl].
  unfold same_but_rank. simpl. auto 10.
Qed.

Lemma for_each_keeps {X S} R (rows : list X) (s : S)
    (body : S -> X -> plpgsql S) db r db' :
  (forall db, R db db) -> (forall a b c, R a b -> R b c -> R a c) ->
  (forall s x, keeps R (body s x)) ->
  for_each rows s body db = (r, db') -> R db db'.
Proof.
  intros Hr Ht Hb H.
  pose proof (keeps_for_each R Hr Ht rows body Hb s db) as K.
  rewrite H in K. exact K.
Qed.

(** The fantasy teams after a call that returns. *)
Lemma finalize_gameweek_teams db db' :
  team_ids_unique db = true ->
  finalize_gameweek g db = (Ok tt, db') ->
  Forall2 (fun old new => exists mid, settled db g old mid /\ same_but_rank mid new)
          (fantasy_teams db) (fantasy_teams db').
Proof.
  intros Hu H. apply finalize_gameweek_ok in H
    as (_ & db1 & db2 & db3 & rc & rc' & next & after
        & H1 & H2 & H3 & _ & _ & ->).
  apply (settle_all_teams db db1 Hu) in H1.
  apply (for_each_keeps same_teams_but_rank) in H2;
    [| apply same_teams_but_rank_refl | apply same_teams_but_rank_trans
     | intros; apply rank_league_same_teams].
  apply (for_each_keeps same_teams_but_rank) in H3;
    [| apply same_teams_but_rank_refl | apply same_teams_but_rank_trans
     | intros; apply rank_overall_same_teams].
  pose proof (same_teams_but_rank_trans _ _ _ H2 H3) as H23.
  simpl. refine (Forall2_compose _ _ _ _ _ _ _ H1 H23). eauto.
Qed.

(** C9: a call that returns sets every team's total_points to its old
    total plus the points calculated for g minus its old gameweek_points,
    and its gameweek_points to the points calculated; rosters, players and
    scores are as before; and a second call that returns, on a database
    with the same rosters, players and scores and the teams the first call
    left, leaves every total_points as the first call left it. *)
Theorem finalize_gameweek_totals db db' :
  team_ids_unique db = true ->
  finalize_gameweek g db = (Ok tt, db') ->
  Forall2 (fun old new =>
             FantasyTeams.fantasy_team_id new = FantasyTeams.fantasy_team_id old
             /\ exists points,
                  calculate_fantasy_team_points db
                    (FantasyTeams.fantasy_team_id old) g = Ok points
                  /\ FantasyTeams.total_points new
                     = Some (Sql.coalesce (FantasyTeams.total_points old) 0
                             + points
                             - Sql.coalesce (FantasyTeams.gameweek_points old) 0)
                  /\ FantasyTeams.gameweek_points new = Some points)
          (fantasy_teams db) (fantasy_teams db')
  /\ (rosters db' = rosters db /\ players db' = players db
      /\ gameweek_scores db' = gameweek_scores db)
  /\ (forall db2 db'',
        rosters db2 = rosters db -> players db2 = players db ->
        gameweek_scores db2 = gameweek_scores db ->
        fantasy_teams db2 = fantasy_teams db' ->
        finalize_gameweek g db2 = (Ok tt, db'') ->
        map FantasyTeams.total_points (fantasy_teams db'')
        = map FantasyTeams.total_points (fantasy_teams db')).
Proof.
  intros Hu H.
  assert (Hrow : forall d d', team_ids_unique d = true ->
            finalize_gameweek g d = (Ok tt, d') ->
            Forall2 (fun old new =>
               FantasyTeams.fantasy_team_id new = FantasyTeams.fantasy_team_id old
               /\ exists points,
                    calculate_fantasy_team_points d
                      (FantasyTeams.fantasy_team_id old) g = Ok points
                    /\ FantasyTeams.total_points new
                       = Some (Sql.coalesce (FantasyTeams.total_points old) 0
                               + points
                               - Sql.coalesce (FantasyTeams.gameweek_points old) 0)
                    /\ FantasyTeams.gameweek_points new = Some points)
              (fantasy_teams d) (fantasy_teams d')).
  { intros d d' Hd Hf.
    refine (Forall2_impl _ _ _ _ _ (finalize_gameweek_teams d d' Hd Hf)).
    intros old new (mid & (points & next & Hc & _ & Hs) & Hr).
    apply settle_team_ok in Hs as (Eid & Et & Eg).
    destruct Hr as (Rid & _ & Rt & Rg & _).
    split; [congruence|]. exists points. repeat split; congruence. }
  pose proof (Hrow db db' Hu H) as F1.
  split; [exact F1|]. split.
  { apply finalize_gameweek_gameweeks in H
      as (_ & _ & _ & _ & _ & Er & Ep & Es). auto. }
  intros db2 db'' Er Ep Es Et H2.
  assert (Hids : map FantasyTeams.fantasy_team_id (fantasy_teams db')
                 = map FantasyTeams.fantasy_team_id (fantasy_teams db))
    by (refine (Forall2_map_eq _ _ _ _ _ _ F1); now intros x y [E _]).
  assert (Hu2 : team_ids_unique db2 = true)
    by (unfold team_ids_unique; now rewrite Et, Hids).
  pose proof (Hrow db2 db'' Hu2 H2) as F2. rewrite Et in F2.
  clear -F1 F2 Er Ep Es. revert F2.
  generalize (fantasy_teams db''). induction F1 as [|old new r r' Hx _ IH];
    intros t'' F2; inversion F2 as [|? new2 ? r'' Hy F2']; subst; simpl;
    [reflexivity|].
  f_equal; [|now apply IH].
  destruct Hx as (Eid & points & Hc & Et & Eg).
  destruct Hy as (_ & points2 & Hc2 & Et2 & _).
  rewrite (calculate_same_tables db db2 _ g Er Ep Es), Eid, Hc in Hc2.
  injection Hc2 as <-. rewrite Et2, Et, Eg. simpl. f_equal. lia.
Qed.

End TotalsProofs.

(** The totals of the example season: 40 with 7 recorded becomes 50 with 17. *)
Lemma finalize_gameweek_totals_witness :
  team_ids_unique Example.season = true
  /\ finalize_gameweek 1 Example.season
     = (Ok tt, snd (finalize_gameweek 1 Example.season))
  /\ map (fun t => (FantasyTeams.total_points t, FantasyTeams.gameweek_points t))
         (fantasy_teams Example.season) = [(Some 40, Some 7)]
  /\ map (fun t => (FantasyTeams.total_points t, FantasyTeams.gameweek_points t))
         (fantasy_teams (snd (finalize_gameweek 1 Example.season)))
     = [(Some 50, Some 17)]
  /\ forall db2 db'',
       rosters db2 = rosters Example.season ->
       players db2 = players Example.season ->
       gameweek_scores db2 = gameweek_scores Example.season ->
       fantasy_teams db2 = fantasy_teams (snd (finalize_gameweek 1 Example.season)) ->
       finalize_gameweek 1 db2 = (Ok tt, db'') ->
       map FantasyTeams.total_points (fantasy_teams db'')
       = map FantasyTeams.total_points
           (fantasy_teams (snd (finalize_gameweek 1 Example.season))).
Proof.
  split; [reflexivity | split; [reflexivity | split; [reflexivity |
    split; [reflexivity|]]]].
  apply (finalize_gameweek_totals 1 Example.season
           (snd (finalize_gameweek 1 Example.season))); reflexivity.
Defined.

(** Finalizing gameweek 1 of the example season twice: 40 + 17 - 7 = 50
    after the first call and still 50 after the second. *)
Lemma finalize_twice_same_total :
  map FantasyTeams.total_points
      (fantasy_teams (snd (finalize_gameweek 1 Example.season))) = [Some 50]
  /\ fst (finalize_gameweek 1 (snd (finalize_gameweek 1 Example.season))) = Ok tt
  /\ map FantasyTeams.total_points
         (fantasy_teams
            (snd (finalize_gameweek 1 (snd (finalize_gameweek 1 Example.season)))))
     = [Some 50].
Proof. split; [reflexivity | split; reflexivity]. Qed.

(** ** When the calculator returns *)

Section CalculatorReturns.

Variable db : database.
Variable team : uuid.
Variable gw : Z.

(** Every stored score is within [B] of zero. *)
Variable B : Z.
Hypothesis B_nonneg : 0 <= B.
Hypothesis scores_bounded :
  forall gs, In gs (gameweek_scores db) ->
    - B <= Sql.coalesce (GameweekScores.total_points gs) 0 <= B.

Lemma recorded_points_bounded pid : - B <= recorded_points db gw pid <= B.
Proof.
  unfold recorded_points.
  destruct (Sql.limit_1 (scores_of db gw pid)) as [gs|] eqn:E; [|lia].
  apply scores_bounded. unfold Sql.limit_1, scores_of in E.
  destruct (filter _ (gameweek_scores db)) as [|x r] eqn:F; [discriminate|].
  injection E as ->. assert (H : In gs (gs :: r)) by now left.
  rewrite <- F in H. now apply filter_In in H as [H _].
Qed.

Lemma in_int4_within z : - int4_max <= z <= int4_max -> in_int4 z = true.
Proof.
  unfold in_int4, int4_min, int4_max. intros H.
  apply andb_true_iff. split; lia.
Qed.

Lemma loop_returns rows : forall total_points captain_points,
  (forall x, In x rows -> - B <= counted db team gw x <= B) ->
  - (int4_max - Z.of_nat (List.length rows) * B) <= total_points
    <= int4_max - Z.of_nat (List.length rows) * B ->
  exists t c,
    for_each rows (total_points, captain_points) (add_player db team gw) = Ok (t, c).
Proof.
  induction rows as [|x r IH]; intros t0 c0 Hb Ht.
  - exists t0, c0. reflexivity.
  - rewrite for_each_result_cons, add_player_contribution.
    assert (Hx : - B <= counted db team gw x <= B) by (apply Hb; now left).
    assert (Hr : forall y, In y r -> - B <= counted db team gw y <= B)
      by (intros y Hy; apply Hb; now right).
    change (List.length (x :: r)) with (S (List.length r)) in Ht.
    rewrite Nat2Z.inj_succ, Z.mul_succ_l in Ht.
    assert (HL : 0 <= Z.of_nat (List.length r) * B)
      by (apply Z.mul_nonneg_nonneg; [apply Nat2Z.is_nonneg | assumption]).
    revert Ht HL IH. generalize (Z.of_nat (List.length r) * B). intros L Ht HL IH.
    unfold counted in Hx. cbn [fst snd].
    destruct (contribution db team gw x) as [v|]; cbn [Sql.coalesce] in Hx.
    + unfold int4_add, int4. rewrite in_int4_within by lia.
      apply IH; [assumption | lia].
    + apply IH; [assumption | lia].
Qed.

Hypothesis schema : scoring_schema db = true.

Lemma starter_contribution_bounded r :
  - B <= starter_contribution db team gw r <= B.
Proof.
  unfold starter_contribution.
  destruct (0 <? recorded_minutes db gw (Rosters.player_id r));
    [apply recorded_points_bounded|].
  destruct (substitute_points db team gw r) as [s|] eqn:E; [|lia].
  unfold substitute_points in E. apply highest_some in E as [Hin _].
  apply in_map_iff in Hin as [r2 [<- _]]. apply recorded_points_bounded.
Qed.

Lemma base_total_bounded :
  - (Z.of_nat (List.length (team_rosters db team)) * B)
  <= base_total db team gw
  <= Z.of_nat (List.length (team_rosters db team)) * B.
Proof.
  unfold base_total, starters. rewrite sum_of_filter.
  induction (team_rosters db team) as [|r l IH].
  - unfold sum_of. simpl. lia.
  - rewrite map_cons, sum_of_cons.
    change (List.length (r :: l)) with (S (List.length l)).
    rewrite Nat2Z.inj_succ, Z.mul_succ_l.
    pose proof (starter_contribution_bounded r).
    revert IH. generalize (Z.of_nat (List.length l) * B). intros L IH.
    destruct (Rosters.is_starter r); lia.
Qed.

Lemma captain_contribution_bounded : - B <= captain_contribution db team gw <= B.
Proof.
  unfold captain_contribution.
  destruct (filter Rosters.is_captain (starters db team)); [lia|].
  apply starter_contribution_bounded.
Qed.

Lemma vice_captain_bonus_bounded : 0 <= vice_captain_bonus db team gw <= B.
Proof.
  split; [apply vice_captain_bonus_nonneg|].
  unfold vice_captain_bonus. destruct (vice_captain_id db team) as [v|]; [|lia].
  pose proof (recorded_points_bounded v).
  destruct (0 <? recorded_points db gw v); lia.
Qed.

(** With scores within [B] of zero and a roster small enough for
    (entries + 1) * B to stay in the INTEGER range, no addition overflows
    and the calculator returns the base total plus the bonus. *)
Lemma calculate_fantasy_team_points_returns :
  at_most_one_captain db team = true ->
  (Z.of_nat (List.length (team_rosters db team)) + 1) * B <= int4_max ->
  calculate_fantasy_team_points db team gw
  = Ok (base_total db team gw
        + (if 0 <? captain_contribution db team gw
           then captain_contribution db team gw
           else vice_captain_bonus db team gw)).
Proof.
  intros Hc Hsize. rewrite Z.mul_add_distr_r, Z.mul_1_l in Hsize.
  pose proof base_total_bounded as Hb.
  pose proof captain_contribution_bounded as Hcc.
  pose proof vice_captain_bonus_bounded as Hv.
  unfold calculate_fantasy_team_points.
  pose proof (loop_result db team gw (player_records db team gw) 0 0) as Hloop.
  destruct (loop_returns (player_records db team gw) 0 0) as (t & c & Hok).
  - intros x Hx.
    apply (Permutation_in _ (player_records_perm db team gw schema)) in Hx.
    apply in_map_iff in Hx as [r [<- Hr]].
    rewrite (counted_roster db team gw schema r Hr).
    pose proof (starter_contribution_bounded r).
    destruct (Rosters.is_starter r); lia.
  - rewrite (Permutation_length (player_records_perm db team gw schema)), length_map.
    lia.
  - rewrite Hok in Hloop. rewrite Hok. cbn [bind result_monad].
    destruct Hloop as [-> ->].
    rewrite (sum_of_counted db team gw schema),
      (captain_after_loop db team gw schema Hc).
    rewrite apply_captain_bonus_cases, Z.add_0_l.
    revert Hsize Hb. generalize (Z.of_nat (List.length (team_rosters db team)) * B).
    intros L Hsize Hb.
    destruct (0 <? captain_contribution db team gw) eqn:E.
    + unfold int4_add, int4. rewrite in_int4_within by lia. reflexivity.
    + destruct (0 <? vice_captain_bonus db team gw) eqn:Ev.
      * unfold int4_add, int4. rewrite in_int4_within by lia. reflexivity.
      * f_equal. lia.
Qed.

End CalculatorReturns.

(** * Further properties of the procedures *)

(** ** The display gameweek *)

Lemma sql_max_some (l : list Z) (m : Z) :
  sql_max l = Some m -> In m l /\ forall x, In x l -> x <= m.
Proof. exact (highest_some l m). Qed.

Lemma in_finalized t n :
  In n (map gameweek_number
            (filter (fun g => Sql.holds (status_is "finalized" g)) t))
  <-> exists g, In g t /\ status g = "finalized" /\ gameweek_number g = n.
Proof.
  rewrite in_map_iff. split.
  - intros (g & En & Hg). apply filter_In in Hg as [Hg Hs].
    exists g. split; [assumption|]. split; [|assumption].
    unfold status_is, Sql.holds in Hs.
    destruct (String.eqb (status g) "finalized") eqn:E;
      [now apply String.eqb_eq | discriminate].
  - intros (g & Hg & Hs & En). exists g. split; [assumption|].
    apply filter_In. split; [assumption|]. unfold status_is, Sql.holds.
    apply String.eqb_eq in Hs. now rewrite Hs.
Qed.

Lemma latest_finalized_none t :
  (forall g, In g t -> status g <> "finalized") ->
  max_finalized t = None.
Proof.
  intros Hnone. unfold max_finalized.
  destruct (sql_max _) as [m|] eqn:E; [|reflexivity].
  apply sql_max_some in E as [Hin _]. apply in_finalized in Hin
    as (g & Hg & Hs & _). now destruct (Hnone g Hg).
Qed.

Lemma latest_finalized_some t :
  (exists g, In g t /\ status g = "finalized") ->
  exists m, max_finalized t = Some m
            /\ (exists g, In g t /\ status g = "finalized" /\ gameweek_number g = m)
            /\ forall g, In g t -> status g = "finalized" -> gameweek_number g <= m.
Proof.
  intros (g0 & Hg0 & Hs0). unfold max_finalized.
  destruct (sql_max _) as [m|] eqn:E.
  - apply sql_max_some in E as [Hin Hmax]. exists m. split; [reflexivity|]. split.
    + now apply in_finalized in Hin.
    + intros g Hg Hs. apply Hmax. apply in_finalized. eauto.
  - apply highest_none in E.
    assert (Hin : In (gameweek_number g0)
              (map gameweek_number
                 (filter (fun g => Sql.holds (status_is "finalized" g)) t)))
      by (apply in_finalized; eauto).
    rewrite E in Hin. destruct Hin.
Qed.

(** X1: [get_latest_finalized_gameweek] is 0 when no gameweek is 'finalized';
    otherwise it is the number of a 'finalized' gameweek and no 'finalized'
    gameweek has a larger number. *)
Theorem latest_finalized_is_greatest t :
  ((forall g, In g t -> status g <> "finalized") ->
   get_latest_finalized_gameweek t = 0)
  /\ ((exists g, In g t /\ status g = "finalized") ->
      (exists g, In g t /\ status g = "finalized"
                 /\ gameweek_number g = get_latest_finalized_gameweek t)
      /\ forall g, In g t -> status g = "finalized" ->
           gameweek_number g <= get_latest_finalized_gameweek t).
Proof.
  unfold get_latest_finalized_gameweek. split.
  - intros Hnone. now rewrite (latest_finalized_none t Hnone).
  - intros Hsome. destruct (latest_finalized_some t Hsome) as (m & -> & Hm & Hmax).
    simpl. split; [destruct Hm as (g & ? & ? & ?); eauto | exact Hmax].
Qed.

Lemma in_active t n :
  In n (map gameweek_number
            (filter (fun g => Sql.holds (status_is "active" g)) t))
  <-> exists g, In g t /\ status g = "active" /\ gameweek_number g = n.
Proof.
  rewrite in_map_iff. split.
  - intros (g & En & Hg). apply filter_In in Hg as [Hg Hs].
    exists g. split; [assumption|]. split; [|assumption].
    unfold status_is, Sql.holds in Hs.
    destruct (String.eqb (status g) "active") eqn:E;
      [now apply String.eqb_eq | discriminate].
  - intros (g & Hg & Hs & En). exists g. split; [assumption|].
    apply filter_In. split; [assumption|]. unfold status_is, Sql.holds.
    apply String.eqb_eq in Hs. now rewrite Hs.
Qed.

Lemma display_gameweek_active t g0 r :
  filter (fun g => Sql.holds (status_is "active" g)) t = g0 :: r ->
  get_display_gameweek t = gameweek_number g0.
Proof. unfold get_display_gameweek. intros ->. reflexivity. Qed.

Lemma display_gameweek_no_active t :
  filter (fun g => Sql.holds (status_is "active" g)) t = [] ->
  get_display_gameweek t = Sql.coalesce (max_finalized t) 1.
Proof. unfold get_display_gameweek. intros ->. reflexivity. Qed.

Lemma active_rows_nonempty t :
  (exists g, In g t /\ status g = "active") ->
  exists g0 r, filter (fun g => Sql.holds (status_is "active" g)) t = g0 :: r
               /\ In g0 t /\ status g0 = "active".
Proof.
  intros (g & Hg & Hs).
  destruct (filter (fun g => Sql.holds (status_is "active" g)) t)
    as [|g0 r] eqn:F.
  - assert (Hin : In (gameweek_number g)
              (map gameweek_number
                 (filter (fun g => Sql.holds (status_is "active" g)) t)))
      by (apply in_active; eauto).
    rewrite F in Hin. destruct Hin.
  - exists g0, r. split; [reflexivity|].
    assert (Hin : In g0 (filter (fun g => Sql.holds (status_is "active" g)) t))
      by (rewrite F; now left).
    apply filter_In in Hin as [Hin Hs0]. split; [assumption|].
    unfold status_is, Sql.holds in Hs0.
    destruct (String.eqb (status g0) "active") eqn:E;
      [now apply String.eqb_eq | discriminate].
Qed.

Lemma active_rows_empty t :
  (forall g, In g t -> status g <> "active") ->
  filter (fun g => Sql.holds (status_is "active" g)) t = [].
Proof.
  intros Hnone. destruct (filter _ t) as [|g0 r] eqn:F; [reflexivity|].
  assert (Hin : In (gameweek_number g0)
            (map gameweek_number
               (filter (fun g => Sql.holds (status_is "active" g)) t)))
    by (rewrite F; now left).
  apply in_active in Hin as (g1 & Hg1 & Hs1 & _). now destruct (Hnone g1 Hg1).
Qed.

(** X2: [get_display_gameweek] is the number of an 'active' gameweek whenever
    there is one.  With none active it is the latest finalized gameweek,
    and 1 -- not the 0 of [get_latest_finalized_gameweek] -- when no
    gameweek is 'finalized' either. *)
Theorem display_gameweek_prefers_active t :
  ((exists g, In g t /\ status g = "active") ->
   exists g, In g t /\ status g = "active"
             /\ gameweek_number g = get_display_gameweek t)
  /\ ((forall g, In g t -> status g <> "active") ->
      ((exists g, In g t /\ status g = "finalized") ->
       get_display_gameweek t = get_latest_finalized_gameweek t)
      /\ ((forall g, In g t -> status g <> "finalized") ->
          get_display_gameweek t = 1
          /\ get_latest_finalized_gameweek t = 0)).
Proof.
  split.
  - intros Hsome. destruct (active_rows_nonempty t Hsome) as (g0 & r & F & Hg0 & Hs0).
    rewrite (display_gameweek_active t g0 r F). eauto.
  - intros Hnone. rewrite (display_gameweek_no_active t (active_rows_empty t Hnone)).
    unfold get_latest_finalized_gameweek. split.
    + intros Hsome. now destruct (latest_finalized_some t Hsome) as (m & -> & _).
    + intros Hnf. rewrite (latest_finalized_none t Hnf). split; reflexivity.
Qed.

(** ** Further effects of a finalization *)

Section FinalizerFrame.

Variable g : Z.

(** X3: [finalize_gameweek] leaves the times of every gameweek and every
    gameweek not numbered g, g+1 or g+2 as they were; it sets is_finished
    on g only: a gameweek g+1 keeps its is_finished, also when it goes
    from 'finalized' back to 'active', and loses is_next; a gameweek g+2
    only gains is_next. *)
Theorem finalize_gameweek_touches_three db db' :
  finalize_gameweek g db = (Ok tt, db') ->
  Forall2 (fun old new =>
             deadline_time new = deadline_time old
             /\ start_time new = start_time old
             /\ end_time new = end_time old
             /\ (gameweek_number old = g ->
                 is_finished new = true /\ is_next new = is_next old)
             /\ (gameweek_number old = g + 1 ->
                 is_finished new = is_finished old /\ is_next new = false)
             /\ (gameweek_number old = g + 2 -> new = with_is_next true old)
             /\ (gameweek_number old <> g -> gameweek_number old <> g + 1 ->
                 gameweek_number old <> g + 2 -> new = old))
          (gameweeks db) (gameweeks db').
Proof.
  intros H. rewrite (finalize_gameweek_rows g db db' H).
  apply Forall2_map_self. intros r. unfold advance_row.
  destruct (gameweek_number r =? g) eqn:E1; simpl;
    destruct (gameweek_number r =? g + 1) eqn:E2; simpl;
    destruct (gameweek_number r =? g + 2) eqn:E3; simpl;
    (split; [reflexivity|]); (split; [reflexivity|]); (split; [reflexivity|]);
    (split; [intros; try lia; split; reflexivity|]);
    (split; [intros; try lia; split; reflexivity|]);
    (split; [intros; try lia; try reflexivity|]);
    intros; try lia; reflexivity.
Qed.

End FinalizerFrame.

Lemma finalize_gameweek_touches_three_witness :
  finalize_gameweek 1 Example.season = (Ok tt, Fixture.after_first)
  /\ map is_finished (gameweeks Example.season) = [false; true; false]
  /\ map (fun r => (status r, is_finished r)) (gameweeks Fixture.after_first)
     = [("finalized", true); ("active", true); ("upcoming", false)]
  /\ Forall2 (fun old new =>
             deadline_time new = deadline_time old
             /\ start_time new = start_time old
             /\ end_time new = end_time old
             /\ (gameweek_number old = 1 ->
                 is_finished new = true /\ is_next new = is_next old)
             /\ (gameweek_number old = 1 + 1 ->
                 is_finished new = is_finished old /\ is_next new = false)
             /\ (gameweek_number old = 1 + 2 -> new = with_is_next true old)
             /\ (gameweek_number old <> 1 -> gameweek_number old <> 1 + 1 ->
                 gameweek_number old <> 1 + 2 -> new = old))
          (gameweeks Example.season) (gameweeks Fixture.after_first).
Proof.
  split; [reflexivity | split; [reflexivity | split; [reflexivity|]]].
  apply (finalize_gameweek_touches_three 1 Example.season Fixture.after_first).
  reflexivity.
Defined.

Section FinalizerEffects.

Variable g : Z.

Lemma advance_row_active r :
  status (advance_row g r) = "active" ->
  gameweek_number r = g + 1 \/ (status r = "active" /\ gameweek_number r <> g).
Proof.
  unfold advance_row.
  destruct (gameweek_number r =? g) eqn:E1; simpl;
    destruct (gameweek_number r =? g + 1) eqn:E2; simpl;
    destruct (gameweek_number r =? g + 2) eqn:E3; simpl;
    intros H; try discriminate H; try (left; lia); right; split; auto; lia.
Qed.

Lemma advance_row_finalized r :
  status (advance_row g r) = "finalized" ->
  gameweek_number r = g \/ (status r = "finalized" /\ gameweek_number r <> g + 1).
Proof.
  unfold advance_row.
  destruct (gameweek_number r =? g) eqn:E1; simpl;
    destruct (gameweek_number r =? g + 1) eqn:E2; simpl;
    destruct (gameweek_number r =? g + 2) eqn:E3; simpl;
    intros H; try discriminate H; try (left; lia); right; split; auto; lia.
Qed.

(** X4: in a season where only gameweek g may be 'active' and nothing beyond g
    is 'finalized', a finalization of g that returns moves both derived
    reads on: [get_display_gameweek] becomes g+1 and
    [get_latest_finalized_gameweek] becomes g. *)
Theorem finalize_gameweek_moves_display db db' :
  finalize_gameweek g db = (Ok tt, db') ->
  (exists r, In r (gameweeks db) /\ gameweek_number r = g) ->
  (exists r, In r (gameweeks db) /\ gameweek_number r = g + 1) ->
  (forall r, In r (gameweeks db) -> status r = "active" -> gameweek_number r = g) ->
  (forall r, In r (gameweeks db) -> status r = "finalized" -> gameweek_number r < g) ->
  get_display_gameweek (gameweeks db') = g + 1
  /\ get_latest_finalized_gameweek (gameweeks db') = g.
Proof.
  intros H (rg & Hrg & Eg) (rn & Hrn & En) Hact Hfin.
  rewrite (finalize_gameweek_rows g db db' H).
  set (t' := map (advance_row g) (gameweeks db)).
  destruct (advance_row_effect g rg) as (Ng & Hg & _).
  destruct (advance_row_effect g rn) as (Nn & _ & Hn & _).
  specialize (Hg Eg) as (Sg & _). specialize (Hn En) as (Sn & _).
  split.
  - destruct (active_rows_nonempty t') as (a & rest & F & Ha & Sa).
    + exists (advance_row g rn). split; [now apply in_map | assumption].
    + rewrite (display_gameweek_active t' a rest F).
      apply in_map_iff in Ha as (r & <- & Hr).
      destruct (advance_row_effect g r) as (-> & _).
      destruct (advance_row_active r Sa) as [E|[Sr Er]]; [assumption|].
      specialize (Hact r Hr Sr). contradiction.
  - unfold get_latest_finalized_gameweek.
    destruct (latest_finalized_some t') as (m & -> & (a & Ha & Sa & Ea) & Hmax).
    + exists (advance_row g rg). split; [now apply in_map | assumption].
    + simpl. assert (Hge : g <= m).
      { rewrite <- Eg, <- Ng. apply Hmax; [now apply in_map | assumption]. }
      apply in_map_iff in Ha as (r & <- & Hr).
      destruct (advance_row_effect g r) as (Nr & _). rewrite Nr in Ea.
      destruct (advance_row_finalized r Sa) as [E|[Sr Er]]; [lia|].
      specialize (Hfin r Hr Sr). lia.
Qed.

End FinalizerEffects.

(** Finalizing gameweek 1 of the opening season: the display gameweek goes
    from 1 to 2 and the latest finalized gameweek from 0 to 1. *)
Lemma finalize_gameweek_moves_display_witness :
  get_display_gameweek (gameweeks Fixture.opening) = 1
  /\ get_latest_finalized_gameweek (gameweeks Fixture.opening) = 0
  /\ get_display_gameweek (gameweeks (snd (finalize_gameweek 1 Fixture.opening)))
     = 1 + 1
  /\ get_latest_finalized_gameweek
       (gameweeks (snd (finalize_gameweek 1 Fixture.opening))) = 1.
Proof.
  split; [reflexivity | split; [reflexivity|]].
  apply (finalize_gameweek_moves_display 1 Fixture.opening
           (snd (finalize_gameweek 1 Fixture.opening))).
  - reflexivity.
  - exists (Gameweeks.mk 1 "active" (Some 0) (Some 10) (Some 20) true false false).
    split; [now left | reflexivity].
  - exists (Gameweeks.mk 2 "upcoming" (Some 25) (Some 30) (Some 40) false true false).
    split; [right; now left | reflexivity].
  - simpl. intros r [<-|[<-|[<-|[]]]]; simpl; intros E;
      [reflexivity | discriminate E | discriminate E].
  - simpl. intros r [<-|[<-|[<-|[]]]]; simpl; intros E; discriminate E.
Defined.

(** ** Transfer counters and successive finalizations *)

Lemma settle_team_counters points next t t' :
  settle_team points next t = Ok t' ->
  FantasyTeams.league_id t' = FantasyTeams.league_id t
  /\ FantasyTeams.current_gameweek t' = Some next
  /\ FantasyTeams.transfers_made_this_gw t' = Some 0
  /\ FantasyTeams.transfers_banked t'
     = Some (Z.min (Sql.coalesce (FantasyTeams.transfers_banked t) 0 + 1) 1).
Proof.
  unfold settle_team, int4_add, int4_sub, int4. simpl.
  repeat (destruct (in_int4 _); simpl; [|discriminate]).
  intros H. injection H as <-. simpl. auto.
Qed.

Section Counters.

Variable g : Z.

(** X5: a finalization that returns moves every fantasy team to gameweek g+1,
    resets its transfers made to 0 and sets its banked transfers to
    LEAST(COALESCE(transfers_banked, 0) + 1, 1): to 1 when the old count was
    0 or more or NULL, to the old count plus 1 when it was below 0; the
    team's league is not touched. *)
Theorem finalize_gameweek_resets_transfers db db' :
  team_ids_unique db = true ->
  finalize_gameweek g db = (Ok tt, db') ->
  Forall2 (fun old new =>
             FantasyTeams.fantasy_team_id new = FantasyTeams.fantasy_team_id old
             /\ FantasyTeams.league_id new = FantasyTeams.league_id old
             /\ FantasyTeams.current_gameweek new = Some (g + 1)
             /\ FantasyTeams.transfers_made_this_gw new = Some 0
             /\ FantasyTeams.transfers_banked new
                = Some (Z.min (Sql.coalesce (FantasyTeams.transfers_banked old) 0
                               + 1) 1))
          (fantasy_teams db) (fantasy_teams db').
Proof.
  intros Hu H.
  refine (Forall2_impl _ _ _ _ _ (finalize_gameweek_teams g db db' Hu H)).
  intros old new (mid & (points & next & _ & Hn & Hs) & Hr).
  apply int4_ok in Hn. subst next.
  pose proof (settle_team_ok _ _ _ _ Hs) as (Eid & _).
  apply settle_team_counters in Hs as (El & Ec & Em & Eb).
  destruct Hr as (Rid & Rl & _ & _ & Rc & Rm & Rb).
  split; [congruence|]. split; [congruence|]. split; [congruence|].
  split; congruence.
Qed.

(** X6: two finalizations in a row, of g and then of g2: every team's total is
    its total before both, minus the gameweek points recorded before both,
    plus the points of g2 alone.  The points of g have been taken out
    again as the "previous" gameweek points. *)
Theorem finalize_twice_keeps_last_only db db1 db2 g2 :
  team_ids_unique db = true ->
  finalize_gameweek g db = (Ok tt, db1) ->
  finalize_gameweek g2 db1 = (Ok tt, db2) ->
  Forall2 (fun old new =>
             FantasyTeams.fantasy_team_id new = FantasyTeams.fantasy_team_id old
             /\ exists points2,
                  calculate_fantasy_team_points db
                    (FantasyTeams.fantasy_team_id old) g2 = Ok points2
                  /\ FantasyTeams.total_points new
                     = Some (Sql.coalesce (FantasyTeams.total_points old) 0
                             - Sql.coalesce (FantasyTeams.gameweek_points old) 0
                             + points2)
                  /\ FantasyTeams.gameweek_points new = Some points2)
          (fantasy_teams db) (fantasy_teams db2).
Proof.
  intros Hu H1 H2.
  pose proof (finalize_gameweek_teams g db db1 Hu H1) as F1.
  assert (Hids : map FantasyTeams.fantasy_team_id (fantasy_teams db1)
                 = map FantasyTeams.fantasy_team_id (fantasy_teams db)).
  { refine (Forall2_map_eq _ _ _ _ _ _ F1).
    intros x y (mid & (p & n & _ & _ & Hs) & Hr).
    apply settle_team_ok in Hs as (E & _). destruct Hr as (R & _). congruence. }
  assert (Hu1 : team_ids_unique db1 = true)
    by (unfold team_ids_unique; now rewrite Hids).
  pose proof (finalize_gameweek_teams g2 db1 db2 Hu1 H2) as F2.
  apply finalize_gameweek_gameweeks in H1
    as (_ & _ & _ & _ & _ & _ & Er & Ep & Es).
  refine (Forall2_compose _ _ _ _ _ _ _ F1 F2).
  intros old mid new (m1 & (p1 & n1 & _ & _ & Hs1) & R1)
                     (m2 & (p2 & n2 & Hc2 & _ & Hs2) & R2).
  apply settle_team_ok in Hs1 as (Eid1 & Et1 & Eg1).
  apply settle_team_ok in Hs2 as (Eid2 & Et2 & Eg2).
  destruct R1 as (Rid1 & _ & Rt1 & Rg1 & _).
  destruct R2 as (Rid2 & _ & Rt2 & Rg2 & _).
  rewrite (calculate_same_tables db db1 _ g2 Er Ep Es) in Hc2.
  split; [congruence|]. exists p2. split; [congruence|]. split; [|congruence].
  rewrite Rt2, Et2, Rt1, Et1, Rg1, Eg1. simpl. f_equal. lia.
Qed.

End Counters.

Lemma finalize_gameweek_resets_transfers_witness :
  team_ids_unique Example.season = true
  /\ finalize_gameweek 1 Example.season = (Ok tt, Fixture.after_first)
  /\ map (fun t => (FantasyTeams.current_gameweek t,
                    FantasyTeams.transfers_made_this_gw t,
                    FantasyTeams.transfers_banked t))
         (fantasy_teams Example.season) = [(Some 1, Some 2, Some 0)]
  /\ Forall2 (fun old new =>
             FantasyTeams.fantasy_team_id new = FantasyTeams.fantasy_team_id old
             /\ FantasyTeams.league_id new = FantasyTeams.league_id old
             /\ FantasyTeams.current_gameweek new = Some (1 + 1)
             /\ FantasyTeams.transfers_made_this_gw new = Some 0
             /\ FantasyTeams.transfers_banked new
                = Some (Z.min (Sql.coalesce (FantasyTeams.transfers_banked old) 0
                               + 1) 1))
          (fantasy_teams Example.season) (fantasy_teams Fixture.after_first).
Proof.
  split; [reflexivity | split; [reflexivity | split; [reflexivity|]]].
  apply (finalize_gameweek_resets_transfers 1 Example.season Fixture.after_first);
    reflexivity.
Defined.

(** The opening season: the worked example's team scores 17 in gameweek 1
    and 5 in gameweek 2; after finalizing 1 and then 2 its total is 5. *)
Lemma finalize_twice_keeps_last_only_witness :
  team_ids_unique Fixture.opening = true
  /\ calculate_fantasy_team_points Fixture.opening 1%N 1 = Ok 17
  /\ calculate_fantasy_team_points Fixture.opening 1%N 2 = Ok 5
  /\ map FantasyTeams.total_points
         (fantasy_teams (snd (finalize_gameweek 1 Fixture.opening))) = [Some 17]
  /\ map FantasyTeams.total_points
         (fantasy_teams
            (snd (finalize_gameweek 2 (snd (finalize_gameweek 1 Fixture.opening)))))
     = [Some 5]
  /\ Forall2 (fun old new =>
             FantasyTeams.fantasy_team_id new = FantasyTeams.fantasy_team_id old
             /\ exists points2,
                  calculate_fantasy_team_points Fixture.opening
                    (FantasyTeams.fantasy_team_id old) 2 = Ok points2
                  /\ FantasyTeams.total_points new
                     = Some (Sql.coalesce (FantasyTeams.total_points old) 0
                             - Sql.coalesce (FantasyTeams.gameweek_points old) 0
                             + points2)
                  /\ FantasyTeams.gameweek_points new = Some points2)
          (fantasy_teams Fixture.opening)
          (fantasy_teams
             (snd (finalize_gameweek 2 (snd (finalize_gameweek 1 Fixture.opening))))).
Proof.
  split; [reflexivity | split; [reflexivity | split; [reflexivity |
    split; [reflexivity | split; [reflexivity|]]]]].
  apply (finalize_twice_keeps_last_only 1 Fixture.opening
           (snd (finalize_gameweek 1 Fixture.opening))
           (snd (finalize_gameweek 2 (snd (finalize_gameweek 1 Fixture.opening))))
           2); reflexivity.
Defined.

(** ** A table and its image, row by row *)

Lemma Forall2_map_self_in {A B} (R : A -> B -> Prop) (f : A -> B) (l : list A) :
  (forall x, In x l -> R x (f x)) -> Forall2 R l (map f l).
Proof.
  induction l as [|a r IH]; intros H; simpl; constructor.
  - apply H. now left.
  - apply IH. intros x Hx. apply H. now right.
Qed.

(** ** The overall ranking *)


Section SortedOrderBy.

Context {A : Type}.
Variable before : A -> A -> bool.
Hypothesis before_asym : forall a b, before a b = true -> before b a = false.
Hypothesis before_negtrans :
  forall a b c, before a b = false -> before b c = false -> before a c = false.

Lemma insert_by_sorted (x : A) (l : list A) :
  StronglySorted (fun a b => before b a = false) l ->
  StronglySorted (fun a b => before b a = false) (Sql.insert_by before x l).
Proof.
  induction 1 as [|y r Hr IH Hy]; simpl.
  - constructor; constructor.
  - destruct (before y x) eqn:E.
    + constructor; [assumption|].
      rewrite Forall_forall in *. intros z Hz.
      apply (Permutation_in _ (insert_by_perm before x r)) in Hz.
      destruct Hz as [<-|Hz]; [now apply before_asym | now apply Hy].
    + constructor; [constructor; assumption|].
      constructor; [assumption|].
      rewrite Forall_forall in *. intros z Hz.
      apply before_negtrans with y; [now apply Hy | assumption].
Qed.

Lemma order_by_sorted (l : list A) :
  StronglySorted (fun a b => before b a = false) (Sql.order_by before l).
Proof.
  induction l as [|x r IH]; simpl; [constructor | now apply insert_by_sorted].
Qed.

End SortedOrderBy.

Lemma order_by_map {A B} (before : A -> A -> bool) (before' : B -> B -> bool)
    (f : A -> B) (l : list A) :
  (forall a b, before' (f a) (f b) = before a b) ->
  Sql.order_by before' (map f l) = map f (Sql.order_by before l).
Proof.
  intros H. induction l as [|x r IH]; simpl; [reflexivity|]. rewrite IH.
  generalize (Sql.order_by before r). intros s.
  induction s as [|y s IHs]; simpl; [reflexivity|].
  rewrite H. destruct (before y x); simpl; [now rewrite IHs | reflexivity].
Qed.

Ltac order_cases :=
  repeat match goal with
         | |- context [FantasyTeams.fantasy_team_id ?a] =>
             let i := fresh "i" in
             generalize (FantasyTeams.fantasy_team_id a); intros i;
             unfold uuid in i
         | |- context [FantasyTeams.total_points ?a] =>
             destruct (FantasyTeams.total_points a)
         end;
  simpl;
  repeat match goal with
         | |- context [(?x <? ?y)%N] => destruct (N.ltb_spec x y)
         | |- context [(?x <? ?y)%Z] => destruct (Z.ltb_spec x y)
         end;
  simpl; try reflexivity; try discriminate; try lia.

Lemma overall_order_irrefl a : overall_order a a = false.
Proof. unfold overall_order. order_cases. Qed.

Lemma overall_order_asym a b : overall_order a b = true -> overall_order b a = false.
Proof. unfold overall_order. order_cases. Qed.

Lemma overall_order_negtrans a b c :
  overall_order a b = false -> overall_order b c = false -> overall_order a c = false.
Proof. unfold overall_order. order_cases. Qed.

Lemma overall_order_with_rank k k' a b :
  overall_order (FantasyTeams.with_rank k a) (FantasyTeams.with_rank k' b)
  = overall_order a b.
Proof. reflexivity. Qed.

Lemma index_of_none x l : ~ In x l -> index_of x l = None.
Proof.
  induction l as [|y r IH]; simpl; [reflexivity|]. intros H.
  destruct (x =? y)%N eqn:E; [apply N.eqb_eq in E; subst; tauto|].
  rewrite IH; [reflexivity | tauto].
Qed.

(** The rows in the order of a duplicate-free id list sit at 0, 1, 2, ... *)
Lemma index_of_positions {A} (key : A -> uuid) (s : list A) :
  NoDup (map key s) ->
  map (fun r => index_of (key r) (map key s)) s = map Some (seq 0 (List.length s)).
Proof.
  induction s as [|x s IH]; simpl; [reflexivity|]. intros H.
  inversion H as [|? ? Hx Hs]; subst. rewrite N.eqb_refl. f_equal.
  transitivity (map (option_map S)
                    (map (fun r => index_of (key r) (map key s)) s)).
  - rewrite map_map. apply map_ext_in. intros r Hr.
    destruct (key r =? key x)%N eqn:E; [|reflexivity].
    apply N.eqb_eq in E. destruct Hx. rewrite <- E. now apply in_map.
  - rewrite (IH Hs), <- seq_shift, !map_map. reflexivity.
Qed.


Lemma rank_overall_ok k team db k' db' :
  rank_overall k team db = (Ok k', db') ->
  k' = k + 1
  /\ db' = on_fantasy_teams
             (Sql.update_where (is_team team) (FantasyTeams.with_rank (Some k))) db.
Proof.
  unfold rank_overall. intros H.
  apply bind_ok in H as ([] & d & Hp & H). apply perform_ok in Hp. subst d.
  apply eval_ok in H as [H ->]. apply int4_ok in H. auto.
Qed.

Lemma rank_overall_loop (l : list uuid) : forall k db_a k' db_b,
  NoDup l ->
  for_each l k rank_overall db_a = (Ok k', db_b) ->
  fantasy_teams db_b = map (rank_by_position l k) (fantasy_teams db_a).
Proof.
  induction l as [|x l IH]; intros k db_a k' db_b Hnd H.
  - injection H as _ <-. unfold rank_by_position. simpl. symmetry. apply map_id.
  - rewrite for_each_plpgsql_cons in H.
    apply bind_ok in H as (k1 & db1 & Hs & H).
    apply rank_overall_ok in Hs as [-> ->].
    inversion Hnd as [|? ? Hx Hnd']; subst.
    rewrite (IH _ _ _ _ Hnd' H). simpl. unfold Sql.update_where.
    rewrite map_map. apply map_ext. intros r.
    unfold rank_by_position, is_team. simpl.
    destruct (FantasyTeams.fantasy_team_id r =? x)%N eqn:E; simpl.
    + apply N.eqb_eq in E. subst x. rewrite (index_of_none _ _ Hx).
      now rewrite Z.add_0_r.
    + destruct (index_of (FantasyTeams.fantasy_team_id r) l) as [i|]; simpl;
        [|reflexivity].
      do 2 f_equal. lia.
Qed.

Lemma ranks_from_length k n : List.length (ranks_from k n) = n.
Proof. unfold ranks_from. now rewrite length_map, length_seq. Qed.

Lemma ranks_from_cons k n : ranks_from k (S n) = k :: ranks_from (k + 1) n.
Proof.
  unfold ranks_from. simpl. rewrite Z.add_0_r. f_equal.
  rewrite <- seq_shift, map_map. apply map_ext. intros i. lia.
Qed.

Lemma ranks_from_ge k n r : In r (ranks_from k n) -> k <= r.
Proof.
  unfold ranks_from. intros H. apply in_map_iff in H as (i & <- & _). lia.
Qed.

(** Ranks handed out along a sorted list follow its order. *)
Lemma ranks_follow_order {A} (before : A -> A -> bool) (rank : A -> option Z)
    (s : list A) : forall k,
  (forall a, before a a = false) ->
  StronglySorted (fun a b => before b a = false) s ->
  map rank s = map Some (ranks_from k (List.length s)) ->
  forall a b, In a s -> In b s -> before a b = true ->
    exists ra rb, rank a = Some ra /\ rank b = Some rb /\ ra < rb.
Proof.
  induction s as [|x s IH]; intros k Hirr Hs Hr a b Ha Hb Hab; [destruct Ha|].
  simpl List.length in Hr. rewrite ranks_from_cons in Hr. simpl in Hr.
  injection Hr as Hx Hr. inversion Hs as [|? ? Hs' Hall]; subst.
  rewrite Forall_forall in Hall.
  assert (Hge : forall c, In c s -> exists rc, rank c = Some rc /\ k + 1 <= rc).
  { intros c Hc. apply (in_map rank) in Hc. rewrite Hr in Hc.
    apply in_map_iff in Hc as (rc & E & Hrc). apply ranks_from_ge in Hrc. eauto. }
  destruct Ha as [<-|Ha], Hb as [<-|Hb].
  - rewrite Hirr in Hab. discriminate.
  - destruct (Hge b Hb) as (rb & Eb & Hle). exists k, rb. repeat split; auto. lia.
  - rewrite (Hall a Ha) in Hab. discriminate.
  - exact (IH (k + 1) Hirr Hs' Hr a b Ha Hb Hab).
Qed.

Section OverallRanking.

Variable g : Z.

Lemma finalize_gameweek_ids db db' :
  team_ids_unique db = true ->
  finalize_gameweek g db = (Ok tt, db') ->
  map FantasyTeams.fantasy_team_id (fantasy_teams db')
  = map FantasyTeams.fantasy_team_id (fantasy_teams db).
Proof.
  intros Hu H.
  refine (Forall2_map_eq _ _ _ _ _ _ (finalize_gameweek_teams g db db' Hu H)).
  intros x y (mid & (p & n & _ & _ & Hs) & Hr).
  apply settle_team_ok in Hs as (E & _). destruct Hr as (R & _). congruence.
Qed.

(** The teams after a call that returns, as the last loop left them. *)
Lemma finalize_gameweek_overall db db' :
  team_ids_unique db = true ->
  finalize_gameweek g db = (Ok tt, db') ->
  exists t2,
    NoDup (map FantasyTeams.fantasy_team_id t2)
    /\ fantasy_teams db'
       = map (rank_by_position
                (map FantasyTeams.fantasy_team_id (Sql.order_by overall_order t2)) 1)
             t2.
Proof.
  intros Hu H. pose proof H as H0. apply finalize_gameweek_ok in H
    as (_ & db1 & db2 & db3 & rc & rc' & next & after
        & H1 & H2 & H3 & _ & _ & ->).
  exists (fantasy_teams db2).
  assert (Hids : map FantasyTeams.fantasy_team_id (fantasy_teams db2)
                 = map FantasyTeams.fantasy_team_id (fantasy_teams db)).
  { apply (settle_all_teams g db db1 Hu) in H1.
    apply (for_each_keeps same_teams_but_rank) in H2;
      [| apply same_teams_but_rank_refl | apply same_teams_but_rank_trans
       | intros; apply rank_league_same_teams].
    refine (Forall2_map_eq _ _ _ _ _ _ (Forall2_compose _ _ _ _ _ _ _ H1 H2)).
    - intros x y E. exact E.
    - intros x mid y (p & n & _ & _ & Hs) Hr. simpl.
      apply settle_team_ok in Hs as (E & _). destruct Hr as (R & _). congruence. }
  assert (Hnd : NoDup (map FantasyTeams.fantasy_team_id (fantasy_teams db2)))
    by (rewrite Hids; now apply distinct_NoDup).
  split; [assumption|]. simpl.
  apply (rank_overall_loop _ 1 db2 rc' db3); [|exact H3].
  unfold overall_table.
  apply (Permutation_NoDup
           (Permutation_sym (Permutation_map _ (order_by_perm overall_order _)))).
  assumption.
Qed.

(** X8: after a finalization that returns, reading the teams in the order
    total_points DESC, fantasy_team_id gives the ranks 1, 2, ..., N: every
    rank from 1 to the number of teams is held by exactly one team, and a
    team that sorts before another (more total points, or the same and a
    smaller id) has the smaller rank. *)
Theorem finalize_gameweek_overall_ranks db db' :
  team_ids_unique db = true ->
  finalize_gameweek g db = (Ok tt, db') ->
  map FantasyTeams.rank (overall_ranking db')
  = map Some (ranks_from 1 (List.length (fantasy_teams db')))
  /\ Permutation (map FantasyTeams.rank (fantasy_teams db'))
                 (map Some (ranks_from 1 (List.length (fantasy_teams db'))))
  /\ forall a b, In a (fantasy_teams db') -> In b (fantasy_teams db') ->
       overall_order a b = true ->
       exists ra rb, FantasyTeams.rank a = Some ra /\ FantasyTeams.rank b = Some rb
                     /\ ra < rb.
Proof.
  intros Hu H. destruct (finalize_gameweek_overall db db' Hu H) as (t2 & Hnd & Et).
  set (l := map FantasyTeams.fantasy_team_id (Sql.order_by overall_order t2)) in *.
  assert (Hs : overall_ranking db' = map (rank_by_position l 1)
                                         (Sql.order_by overall_order t2)).
  { unfold overall_ranking. rewrite Et. apply order_by_map. intros a b.
    unfold rank_by_position.
    destruct (index_of _ l), (index_of _ l); reflexivity. }
  assert (Hlen : List.length (fantasy_teams db')
                 = List.length (Sql.order_by overall_order t2)).
  { rewrite Et, length_map. symmetry. apply Permutation_length, order_by_perm. }
  assert (Hranks : map FantasyTeams.rank (overall_ranking db')
                   = map Some (ranks_from 1 (List.length (fantasy_teams db')))).
  { rewrite Hs, Hlen, map_map. unfold ranks_from. rewrite map_map.
    assert (Hnd' : NoDup (map FantasyTeams.fantasy_team_id
                              (Sql.order_by overall_order t2)))
      by (apply (Permutation_NoDup
                   (Permutation_sym
                      (Permutation_map _ (order_by_perm overall_order t2))));
          assumption).
    pose proof (index_of_positions FantasyTeams.fantasy_team_id _ Hnd') as Hpos.
    fold l in Hpos.
    transitivity (map (fun o : option nat =>
                         match o with
                         | Some i => Some (1 + Z.of_nat i)
                         | None => None
                         end)
                      (map (fun r => index_of (FantasyTeams.fantasy_team_id r) l)
                           (Sql.order_by overall_order t2))).
    - rewrite map_map. apply map_ext_in. intros r Hr.
      unfold rank_by_position.
      destruct (index_of (FantasyTeams.fantasy_team_id r) l) as [i|] eqn:E;
        [reflexivity|].
      exfalso. apply (in_map (fun r => index_of (FantasyTeams.fantasy_team_id r) l))
        in Hr. rewrite Hpos, E in Hr.
      apply in_map_iff in Hr as (i & Hi & _). discriminate.
    - rewrite Hpos, map_map. reflexivity. }
  assert (Hperm : Permutation (overall_ranking db') (fantasy_teams db'))
    by apply order_by_perm.
  split; [exact Hranks|]. split.
  - rewrite <- Hranks. apply Permutation_sym, Permutation_map, Hperm.
  - intros a b Ha Hb Hab.
    apply (Permutation_in _ (Permutation_sym Hperm)) in Ha, Hb.
    refine (ranks_follow_order overall_order FantasyTeams.rank
              (overall_ranking db') 1 overall_order_irrefl _ _ a b Ha Hb Hab).
    + apply order_by_sorted;
        [apply overall_order_asym | apply overall_order_negtrans].
    + rewrite Hranks. f_equal. f_equal.
      symmetry. apply Permutation_length, Hperm.
Qed.

End OverallRanking.

(** Three teams: the two on 20 points come first, the smaller id ahead, and
    the team that scored 17 is third. *)
Lemma finalize_gameweek_overall_ranks_witness :
  team_ids_unique Fixture.three_teams = true
  /\ finalize_gameweek 1 Fixture.three_teams = (Ok tt, Fixture.second_week)
  /\ map (fun t => (FantasyTeams.fantasy_team_id t, FantasyTeams.total_points t,
                    FantasyTeams.rank t))
         (fantasy_teams Fixture.second_week)
     = [ (3%N, Some 20, Some 2); (1%N, Some 17, Some 3); (2%N, Some 20, Some 1) ]
  /\ map FantasyTeams.rank (overall_ranking Fixture.second_week)
     = map Some (ranks_from 1 3).
Proof.
  assert (H : finalize_gameweek 1 Fixture.three_teams = (Ok tt, Fixture.second_week))
    by (vm_compute; reflexivity).
  split; [reflexivity | split; [exact H | split; [vm_compute; reflexivity|]]].
  exact (proj1 (finalize_gameweek_overall_ranks 1 Fixture.three_teams
                  Fixture.second_week eq_refl H)).
Defined.

(** ** The ledger of gameweek points *)

Section Ledger.

Variable g : Z.

Lemma points_key_spec team r :
  points_key g team r = true <-> ledger_key r = (team, g).
Proof.
  unfold points_key, ledger_key. rewrite andb_true_iff, N.eqb_eq, Z.eqb_eq.
  split; [intros [-> ->]; reflexivity | intros H; injection H; auto].
Qed.

Lemma upsert_has_key team p t :
  exists r, In r (upsert_points g team p t) /\ points_key g team r = true.
Proof.
  unfold upsert_points. destruct (existsb (points_key g team) t) eqn:E.
  - apply existsb_exists in E as (r & Hr & Hk).
    exists (TeamGameweekPoints.with_points p r). split; [|exact Hk].
    unfold Sql.update_where. apply in_map_iff. exists r. now rewrite Hk.
  - exists (TeamGameweekPoints.mk team g p None). split.
    + apply in_or_app. right. now left.
    + unfold points_key. simpl. now rewrite N.eqb_refl, Z.eqb_refl.
Qed.

Lemma upsert_key_points team p t r :
  In r (upsert_points g team p t) -> points_key g team r = true ->
  TeamGameweekPoints.points r = p.
Proof.
  unfold upsert_points. destruct (existsb (points_key g team) t) eqn:E.
  - unfold Sql.update_where. intros H Hk.
    apply in_map_iff in H as (r0 & <- & Hr0).
    destruct (points_key g team r0) eqn:E0; [reflexivity|congruence].
  - intros H Hk. apply in_app_or in H as [H|[<-|[]]]; [|reflexivity].
    exfalso. rewrite <- not_true_iff_false in E. apply E.
    apply existsb_exists. eauto.
Qed.

Lemma upsert_other team p t r :
  In r (upsert_points g team p t) -> points_key g team r = false -> In r t.
Proof.
  unfold upsert_points. destruct (existsb (points_key g team) t) eqn:E.
  - unfold Sql.update_where. intros H Hk.
    apply in_map_iff in H as (r0 & <- & Hr0).
    destruct (points_key g team r0) eqn:E0; [|exact Hr0].
    unfold points_key in *. simpl in Hk. congruence.
  - intros H Hk. apply in_app_or in H as [H|[<-|[]]]; [exact H|].
    unfold points_key in Hk. simpl in Hk.
    now rewrite N.eqb_refl, Z.eqb_refl in Hk.
Qed.

Lemma upsert_keeps_key team p t r :
  In r t -> exists r', In r' (upsert_points g team p t)
                       /\ ledger_key r' = ledger_key r.
Proof.
  intros Hr. unfold upsert_points. destruct (existsb (points_key g team) t).
  - exists (if points_key g team r then TeamGameweekPoints.with_points p r else r).
    split.
    + unfold Sql.update_where. apply in_map_iff. now exists r.
    + now destruct (points_key g team r).
  - exists r. split; [apply in_or_app; now left | reflexivity].
Qed.

Lemma filter_map_fixed {A} (keep : A -> bool) (f : A -> A) (l : list A) :
  (forall r, keep (f r) = keep r) -> (forall r, keep r = true -> f r = r) ->
  filter keep (map f l) = filter keep l.
Proof.
  intros Hk Hf. induction l as [|r l IH]; [reflexivity|]. simpl.
  rewrite Hk. destruct (keep r) eqn:E; [rewrite (Hf r E)|]; now rewrite IH.
Qed.

Lemma upsert_other_gameweeks team p t :
  other_gameweeks g (upsert_points g team p t) = other_gameweeks g t.
Proof.
  unfold upsert_points, other_gameweeks.
  destruct (existsb (points_key g team) t).
  - unfold Sql.update_where. apply filter_map_fixed; intros r.
    + now destruct (points_key g team r).
    + unfold points_key. intros E. apply negb_true_iff in E. rewrite E.
      now rewrite andb_false_r.
  - rewrite filter_app. simpl. rewrite Z.eqb_refl. simpl. apply app_nil_r.
Qed.

Lemma upsert_keys team p t :
  map ledger_key (upsert_points g team p t) = map ledger_key t
  \/ (~ In (team, g) (map ledger_key t)
      /\ map ledger_key (upsert_points g team p t)
         = (map ledger_key t ++ [(team, g)])%list).
Proof.
  unfold upsert_points. destruct (existsb (points_key g team) t) eqn:E.
  - left. apply map_update_where. reflexivity.
  - right. split; [|now rewrite map_app].
    intros H. apply in_map_iff in H as (r & Hk & Hr).
    rewrite <- not_true_iff_false in E. apply E.
    apply existsb_exists. exists r. split; [exact Hr|].
    now apply points_key_spec.
Qed.

Lemma record_all_snoc pts l team t :
  record_all g pts (l ++ [team])%list t
  = upsert_points g team (pts team) (record_all g pts l t).
Proof. unfold record_all. now rewrite fold_left_app. Qed.

Lemma record_all_has_key pts l t team :
  In team l ->
  exists r, In r (record_all g pts l t) /\ points_key g team r = true.
Proof.
  induction l as [|x l IH] using rev_ind; [intros []|].
  intros H. rewrite record_all_snoc.
  apply in_app_or in H as [H|[<-|[]]]; [|apply upsert_has_key].
  destruct (IH H) as (r & Hr & Hk).
  destruct (upsert_keeps_key x (pts x) _ r Hr) as (r' & Hr' & Ek).
  exists r'. split; [exact Hr'|]. apply points_key_spec.
  rewrite Ek. now apply points_key_spec.
Qed.

Lemma record_all_points pts l t r :
  In r (record_all g pts l t) ->
  TeamGameweekPoints.gameweek r = g ->
  In (TeamGameweekPoints.fantasy_team_id r) l ->
  TeamGameweekPoints.points r = pts (TeamGameweekPoints.fantasy_team_id r).
Proof.
  induction l as [|x l IH] using rev_ind; [intros _ _ []|].
  rewrite record_all_snoc. intros Hr Hg Hin.
  destruct (points_key g x r) eqn:Ek.
  - rewrite (upsert_key_points _ _ _ _ Hr Ek).
    apply points_key_spec in Ek. unfold ledger_key in Ek. congruence.
  - apply in_app_or in Hin as [Hin|[Hx|[]]].
    + apply IH; [|exact Hg|exact Hin]. exact (upsert_other _ _ _ _ Hr Ek).
    + unfold points_key in Ek. rewrite <- Hx, Hg, N.eqb_refl, Z.eqb_refl in Ek.
      discriminate.
Qed.

Lemma record_all_other_gameweeks pts l t :
  other_gameweeks g (record_all g pts l t) = other_gameweeks g t.
Proof.
  induction l as [|x l IH] using rev_ind; [reflexivity|].
  now rewrite record_all_snoc, upsert_other_gameweeks.
Qed.

Lemma record_all_NoDup pts l t :
  NoDup (map ledger_key t) -> NoDup (map ledger_key (record_all g pts l t)).
Proof.
  intros Hnd. induction l as [|x l IH] using rev_ind; [exact Hnd|].
  rewrite record_all_snoc.
  destruct (upsert_keys x (pts x) (record_all g pts l t)) as [->|[Hx ->]];
    [exact IH|].
  apply NoDup_app; [exact IH | repeat constructor; intros [] |].
  intros k Hk [<-|[]]. contradiction.
Qed.

Lemma settle_ledger team db db' :
  settle g team db = (Ok tt, db') ->
  exists points,
    calculate_fantasy_team_points db team g = Ok points
    /\ fantasy_team_gameweek_points db'
       = upsert_points g team points (fantasy_team_gameweek_points db).
Proof.
  unfold settle. intros H.
  apply bind_ok in H as (points & d0 & Hc & H).
  unfold query_checked in Hc. injection Hc as Hc <-.
  apply bind_ok in H as ([] & d1 & Hp & H). apply perform_ok in Hp. subst d1.
  apply bind_ok in H as (next & d0 & He & H). apply eval_ok in He as [He ->].
  apply bind_ok in H as (teams & d0 & Hu & H).
  unfold query_checked in Hu. injection Hu as Hu <-.
  apply perform_ok in H. subst db'. exists points. split; [exact Hc|reflexivity].
Qed.

(** The ledger after the first loop: the upserts of the calculated points. *)
Lemma settle_loop_ledger db0 (pts : uuid -> Z) (l : list uuid) : forall db_a db_b,
  (forall team p, calculate_fantasy_team_points db0 team g = Ok p -> pts team = p) ->
  same_inputs db0 db_a ->
  for_each l tt (fun _ team => settle g team) db_a = (Ok tt, db_b) ->
  (forall team, In team l ->
     calculate_fantasy_team_points db0 team g = Ok (pts team))
  /\ fantasy_team_gameweek_points db_b
     = record_all g pts l (fantasy_team_gameweek_points db_a).
Proof.
  induction l as [|x l IH]; intros db_a db_b Hp Hin H.
  - injection H as <-. split; [intros _ []|reflexivity].
  - rewrite for_each_plpgsql_cons in H.
    apply bind_ok in H as ([] & db1 & Hs & H).
    pose proof (settle_same_inputs g x db_a) as K. rewrite Hs in K. simpl in K.
    pose proof (same_inputs_trans _ _ _ Hin K) as Hin1.
    apply settle_ledger in Hs as (points & Hc & El).
    destruct Hin as (_ & _ & Er & Ep & Es).
    rewrite (calculate_same_tables db0 db_a x g Er Ep Es) in Hc.
    destruct (IH db1 db_b Hp Hin1 H) as (Hall & E). split.
    + intros team [<-|Ht]; [|now apply Hall]. now rewrite (Hp _ _ Hc).
    + rewrite E, El. unfold record_all. simpl. now rewrite (Hp _ _ Hc).
Qed.

Lemma same_but_league_rank_refl r : same_but_league_rank g r r.
Proof. unfold same_but_league_rank. auto. Qed.

Lemma same_but_league_rank_trans a b c :
  same_but_league_rank g a b -> same_but_league_rank g b c ->
  same_but_league_rank g a c.
Proof.
  unfold same_but_league_rank. intros (K1 & P1 & O1) (K2 & P2 & O2).
  split; [congruence|]. split; [congruence|]. intros Hg.
  rewrite <- (O1 Hg). apply O2. rewrite (O1 Hg). exact Hg.
Qed.

Lemma same_ledger_but_rank_refl db : same_ledger_but_rank g db db.
Proof. apply Forall2_refl, same_but_league_rank_refl. Qed.

Lemma same_ledger_but_rank_trans a b c :
  same_ledger_but_rank g a b -> same_ledger_but_rank g b c ->
  same_ledger_but_rank g a c.
Proof.
  unfold same_ledger_but_rank. intros H1 H2.
  refine (Forall2_compose _ _ _ _ _ _ _ H1 H2). apply same_but_league_rank_trans.
Qed.

Lemma rank_league_same_ledger rc league :
  keeps (same_ledger_but_rank g) (rank_league g rc league).
Proof.
  unfold rank_league, rank_in_league.
  apply (keeps_bind _ same_ledger_but_rank_trans);
    [apply (keeps_query _ same_ledger_but_rank_refl)|]. intros members.
  apply (keeps_for_each _ same_ledger_but_rank_refl same_ledger_but_rank_trans).
  intros s x.
  apply (keeps_bind _ same_ledger_but_rank_trans);
    [|intros; apply (keeps_eval _ same_ledger_but_rank_refl)].
  apply keeps_perform. intros db. unfold same_ledger_but_rank. simpl.
  unfold Sql.update_where. apply Forall2_map_self. intros r.
  destruct (points_key g (fst x) r) eqn:E; [|apply same_but_league_rank_refl].
  unfold same_but_league_rank. split; [reflexivity|]. split; [reflexivity|].
  intros Hg. apply points_key_spec in E. unfold ledger_key in E. congruence.
Qed.

Lemma same_ledger_refl db : same_ledger db db.
Proof. reflexivity. Qed.

Lemma same_ledger_trans a b c : same_ledger a b -> same_ledger b c -> same_ledger a c.
Proof. unfold same_ledger. congruence. Qed.

Lemma rank_overall_same_ledger rc team : keeps same_ledger (rank_overall rc team).
Proof.
  unfold rank_overall.
  apply (keeps_bind _ same_ledger_trans);
    [|intros; apply (keeps_eval _ same_ledger_refl)].
  apply keeps_perform. intros db. reflexivity.
Qed.

(** The ledger after a call that returns: the upserts of the first loop,
    then the ranks of the second. *)
Lemma finalize_gameweek_ledger_rows db db' :
  finalize_gameweek g db = (Ok tt, db') ->
  exists pts,
    (forall team, In team (teams_by_id db) ->
       calculate_fantasy_team_points db team g = Ok (pts team))
    /\ Forall2 (same_but_league_rank g)
               (record_all g pts (teams_by_id db) (fantasy_team_gameweek_points db))
               (fantasy_team_gameweek_points db').
Proof.
  intros H. apply finalize_gameweek_ok in H
    as (_ & db1 & db2 & db3 & rc & rc' & next & after
        & H1 & H2 & H3 & _ & _ & ->).
  set (pts := fun team => match calculate_fantasy_team_points db team g with
                          | Ok p => p
                          | Raise _ => 0
                          end).
  exists pts.
  destruct (settle_loop_ledger db pts (teams_by_id db) db db1) as (Hall & E1);
    [intros team p Hc; unfold pts; now rewrite Hc
    | apply same_inputs_refl | exact H1 |].
  split; [exact Hall|]. rewrite <- E1.
  apply (for_each_keeps (same_ledger_but_rank g)) in H2;
    [| apply same_ledger_but_rank_refl | apply same_ledger_but_rank_trans
     | intros; apply rank_league_same_ledger].
  apply (for_each_keeps same_ledger) in H3;
    [| apply same_ledger_refl | apply same_ledger_trans
     | intros; apply rank_overall_same_ledger].
  simpl. rewrite H3. exact H2.
Qed.

End Ledger.

Lemma Forall2_in_right {A B} (R : A -> B -> Prop) (a : list A) (b : list B) y :
  Forall2 R a b -> In y b -> exists x, In x a /\ R x y.
Proof.
  induction 1 as [|x y' a b Hxy _ IH]; [intros []|].
  intros [<-|Hy]; [exists x; split; [now left|exact Hxy]|].
  destruct (IH Hy) as (x0 & Hx0 & Hr). exists x0. split; [now right|exact Hr].
Qed.

Lemma Forall2_in_left {A B} (R : A -> B -> Prop) (a : list A) (b : list B) x :
  Forall2 R a b -> In x a -> exists y, In y b /\ R x y.
Proof.
  induction 1 as [|x' y a b Hxy _ IH]; [intros []|].
  intros [<-|Hx]; [exists y; split; [now left|exact Hxy]|].
  destruct (IH Hx) as (y0 & Hy0 & Hr). exists y0. split; [now right|exact Hr].
Qed.

Lemma distinct_keys_NoDup (l : list (uuid * Z)) :
  distinct score_key_eqb l = true <-> NoDup l.
Proof.
  induction l as [|x l IH]; simpl; [split; [constructor|reflexivity]|].
  rewrite andb_true_iff, negb_true_iff, IH. split.
  - intros [Hx Hl]. constructor; [|exact Hl]. intros Hin.
    rewrite <- not_true_iff_false in Hx. apply Hx. apply existsb_exists.
    exists x. split; [exact Hin|now apply score_key_eqb_eq].
  - intros H. inversion H as [|? ? Hx Hl]; subst. split; [|exact Hl].
    apply not_true_iff_false. intros E.
    apply existsb_exists in E as (y & Hy & E). apply score_key_eqb_eq in E.
    now subst y.
Qed.

Lemma same_but_league_rank_other g l l' :
  Forall2 (same_but_league_rank g) l l' ->
  other_gameweeks g l' = other_gameweeks g l.
Proof.
  unfold other_gameweeks. induction 1 as [|a b l l' (K & _ & O) _ IH];
    [reflexivity|]. simpl.
  assert (Eg : TeamGameweekPoints.gameweek b = TeamGameweekPoints.gameweek a)
    by (unfold ledger_key in K; congruence).
  rewrite Eg. destruct (TeamGameweekPoints.gameweek a =? g) eqn:E; simpl;
    [exact IH|].
  apply Z.eqb_neq in E. rewrite (O E). now rewrite IH.
Qed.

Section LedgerAfterFinalize.

Variable g : Z.

(** X9: after a finalization of gameweek [g] that returns, the ledger has a row
    for every fantasy team and [g]; every such row holds the points
    calculated for the team on the tables the call found; the rows of other
    gameweeks are what and where they were; and keys that were unique are
    unique still. *)
Theorem finalize_gameweek_ledger db db' :
  finalize_gameweek g db = (Ok tt, db') ->
  (forall t, In t (fantasy_teams db) ->
     exists r, In r (fantasy_team_gameweek_points db')
               /\ ledger_key r = (FantasyTeams.fantasy_team_id t, g))
  /\ (forall t r, In t (fantasy_teams db) ->
        In r (fantasy_team_gameweek_points db') ->
        ledger_key r = (FantasyTeams.fantasy_team_id t, g) ->
        calculate_fantasy_team_points db (FantasyTeams.fantasy_team_id t) g
        = Ok (TeamGameweekPoints.points r))
  /\ other_gameweeks g (fantasy_team_gameweek_points db')
     = other_gameweeks g (fantasy_team_gameweek_points db)
  /\ (ledger_keys_unique db = true -> ledger_keys_unique db' = true).
Proof.
  intros H. destruct (finalize_gameweek_ledger_rows g db db' H) as (pts & Hc & F).
  assert (Hin : forall t, In t (fantasy_teams db) ->
                  In (FantasyTeams.fantasy_team_id t) (teams_by_id db)).
  { intros t Ht. apply (Permutation_in _ (Permutation_sym (teams_by_id_perm db))).
    now apply in_map. }
  split; [|split; [|split]].
  - intros t Ht.
    destruct (record_all_has_key g pts _ (fantasy_team_gameweek_points db) _
                (Hin t Ht)) as (r1 & Hr1 & Hk).
    destruct (Forall2_in_left _ _ _ _ F Hr1) as (r & Hr & K & _).
    exists r. split; [exact Hr|]. rewrite K. now apply points_key_spec.
  - intros t r Ht Hr Hk.
    destruct (Forall2_in_right _ _ _ _ F Hr) as (r1 & Hr1 & K & P & _).
    rewrite Hk in K. unfold ledger_key in K. injection K as Et Eg.
    rewrite P, (record_all_points g pts _ _ r1 Hr1 (eq_sym Eg));
      rewrite <- Et; [now apply Hc, Hin | now apply Hin].
  - rewrite (same_but_league_rank_other g _ _ F).
    apply record_all_other_gameweeks.
  - unfold ledger_keys_unique. rewrite !distinct_keys_NoDup. intros Hnd.
    rewrite (Forall2_map_eq _ ledger_key ledger_key _ _
               (fun x y (R : same_but_league_rank g x y) => proj1 R) F).
    now apply record_all_NoDup.
Qed.

End LedgerAfterFinalize.

(** Three teams and an empty ledger: one row each for gameweek 1. *)
Lemma finalize_gameweek_ledger_witness :
  finalize_gameweek 1 Fixture.three_teams = (Ok tt, Fixture.second_week)
  /\ map (fun r => (ledger_key r, TeamGameweekPoints.points r))
         (fantasy_team_gameweek_points Fixture.second_week)
     = [ ((1%N, 1), 17); ((2%N, 1), 0); ((3%N, 1), 0) ]
  /\ other_gameweeks 1 (fantasy_team_gameweek_points Fixture.second_week)
     = other_gameweeks 1 (fantasy_team_gameweek_points Fixture.three_teams).
Proof.
  assert (H : finalize_gameweek 1 Fixture.three_teams = (Ok tt, Fixture.second_week))
    by (vm_compute; reflexivity).
  split; [exact H | split; [vm_compute; reflexivity|]].
  exact (proj1 (proj2 (proj2
           (finalize_gameweek_ledger 1 Fixture.three_teams Fixture.second_week H)))).
Defined.

(** ** The league ranking *)

Lemma flat_map_if_singleton {A B} (p : A -> bool) (f : A -> B) (l : list A) :
  flat_map (fun x => if p x then [f x] else []) l = map f (filter p l).
Proof.
  induction l as [|x l IH]; [reflexivity|]. simpl.
  destruct (p x); simpl; now rewrite IH.
Qed.

Lemma map_flat_map {A B C} (f : B -> C) (k : A -> list B) (l : list A) :
  map f (flat_map k l) = flat_map (fun x => map f (k x)) l.
Proof.
  induction l as [|x l IH]; [reflexivity|]. simpl. now rewrite map_app, IH.
Qed.

(** The ranking query of a league is its join, best points first. *)
Lemma league_table_join g league db :
  league_table g league db
  = map (fun r => (TeamGameweekPoints.fantasy_team_id r, TeamGameweekPoints.points r))
        (Sql.order_by by_points (league_join g league db)).
Proof.
  rewrite <- (order_by_map by_points (fun a b : uuid * Z => snd b <? snd a));
    [|reflexivity].
  unfold league_table, league_join. f_equal.
  rewrite map_flat_map. apply flat_map_ext. intros ft.
  destruct (Sql.holds _); [|reflexivity].
  rewrite flat_map_if_singleton. apply map_ext_in. intros r Hr.
  apply filter_In in Hr as [_ Hk]. apply points_key_spec in Hk.
  unfold ledger_key in Hk. congruence.
Qed.

Lemma flat_map_through {A B C} (p : A -> B) (k : B -> list C) (l : list A) :
  flat_map (fun x => k (p x)) l = flat_map k (map p l).
Proof.
  induction l as [|x l IH]; [reflexivity|]. simpl. now rewrite IH.
Qed.

Lemma league_join_map g league db d (F : TeamGameweekPoints.row -> TeamGameweekPoints.row) :
  map membership (fantasy_teams d) = map membership (fantasy_teams db) ->
  fantasy_team_gameweek_points d = map F (fantasy_team_gameweek_points db) ->
  (forall r, ledger_key (F r) = ledger_key r) ->
  league_join g league d = map F (league_join g league db).
Proof.
  intros Et El Hk. unfold league_join.
  rewrite (flat_map_through membership
             (fun m => if Sql.holds (Sql.cmp N.eqb (snd m) (Some league))
                       then filter (points_key g (fst m))
                                   (fantasy_team_gameweek_points d)
                       else [])).
  rewrite Et, <- flat_map_through. rewrite map_flat_map.
  apply flat_map_ext. intros ft. simpl.
  destruct (Sql.holds _); [|reflexivity].
  rewrite El, filter_map_comm. f_equal. apply filter_ext. intros r.
  unfold points_key. specialize (Hk r). unfold ledger_key in Hk.
  injection Hk as -> ->. reflexivity.
Qed.

Lemma league_members_map g league db d (F : TeamGameweekPoints.row -> TeamGameweekPoints.row) :
  map membership (fantasy_teams d) = map membership (fantasy_teams db) ->
  fantasy_team_gameweek_points d = map F (fantasy_team_gameweek_points db) ->
  (forall r, ledger_key (F r) = ledger_key r) ->
  (forall r, TeamGameweekPoints.points (F r) = TeamGameweekPoints.points r) ->
  league_table g league d = league_table g league db.
Proof.
  intros Et El Hk Hp. rewrite !league_table_join.
  rewrite (league_join_map g league db d F Et El Hk).
  rewrite (order_by_map by_points by_points F);
    [|intros a b; unfold by_points; now rewrite !Hp].
  rewrite map_map. apply map_ext. intros r. rewrite Hp.
  specialize (Hk r). unfold ledger_key in Hk. injection Hk as -> _. reflexivity.
Qed.

Lemma league_table_members g league db :
  map fst (league_table g league db) = league_members g league db.
Proof.
  rewrite league_table_join, map_map. reflexivity.
Qed.

Lemma rank_in_league_ok g k member db k' db' :
  rank_in_league g k member db = (Ok k', db') ->
  k' = k + 1
  /\ db' = on_points
             (Sql.update_where (points_key g (fst member))
                (TeamGameweekPoints.with_rank_in_league (Some k))) db.
Proof.
  unfold rank_in_league. intros H.
  apply bind_ok in H as ([] & d & Hp & H). apply perform_ok in Hp. subst d.
  apply eval_ok in H as [H ->]. apply int4_ok in H. auto.
Qed.

Lemma rank_in_league_loop g (l : list (uuid * Z)) : forall k db_a k' db_b,
  NoDup (map fst l) ->
  for_each l k (rank_in_league g) db_a = (Ok k', db_b) ->
  fantasy_teams db_b = fantasy_teams db_a
  /\ fantasy_team_gameweek_points db_b
     = map (league_rank_by_position g (map fst l) k)
           (fantasy_team_gameweek_points db_a).
Proof.
  induction l as [|x l IH]; intros k db_a k' db_b Hnd H.
  - injection H as _ <-. split; [reflexivity|].
    unfold league_rank_by_position. simpl. symmetry.
    erewrite map_ext; [apply map_id|]. intros r. simpl.
    now destruct (_ =? g).
  - rewrite for_each_plpgsql_cons in H.
    apply bind_ok in H as (k1 & db1 & Hs & H).
    apply rank_in_league_ok in Hs as [-> ->].
    inversion Hnd as [|? ? Hx Hnd']; subst.
    destruct (IH _ _ _ _ Hnd' H) as (Et & El). split; [exact Et|].
    rewrite El. simpl. unfold Sql.update_where.
    rewrite map_map. apply map_ext. intros r.
    unfold league_rank_by_position, points_key. simpl.
    destruct (TeamGameweekPoints.gameweek r =? g) eqn:Eg;
      [|rewrite andb_false_r, Eg; reflexivity].
    rewrite andb_true_r.
    destruct (TeamGameweekPoints.fantasy_team_id r =? fst x)%N eqn:E; simpl.
    + apply N.eqb_eq in E. rewrite Eg, E, (index_of_none _ _ Hx).
      now rewrite Z.add_0_r.
    + rewrite Eg.
      destruct (index_of (TeamGameweekPoints.fantasy_team_id r) (map fst l))
        as [i|]; simpl; [|reflexivity].
      do 2 f_equal. lia.
Qed.

Lemma league_rank_by_position_key g l k r :
  ledger_key (league_rank_by_position g l k r) = ledger_key r.
Proof.
  unfold league_rank_by_position.
  destruct (_ =? g); [|reflexivity]. now destruct (index_of _ l).
Qed.

Lemma league_rank_by_position_points g l k r :
  TeamGameweekPoints.points (league_rank_by_position g l k r)
  = TeamGameweekPoints.points r.
Proof.
  unfold league_rank_by_position.
  destruct (_ =? g); [|reflexivity]. now destruct (index_of _ l).
Qed.

Lemma rank_league_ledger g rc league db rc' db' :
  NoDup (league_members g league db) ->
  rank_league g rc league db = (Ok rc', db') ->
  fantasy_teams db' = fantasy_teams db
  /\ fantasy_team_gameweek_points db'
     = map (league_rank_by_position g (league_members g league db) 1)
           (fantasy_team_gameweek_points db).
Proof.
  intros Hnd H. unfold rank_league in H. rewrite bind_query in H.
  rewrite <- league_table_members in *.
  exact (rank_in_league_loop g _ 1 db rc' db' Hnd H).
Qed.

(** The ledger after the loops over the leagues [ls]. *)
Lemma rank_leagues_loop g db1 (ls : list uuid) : forall rc d rc' d' F,
  (forall league, NoDup (league_members g league db1)) ->
  map membership (fantasy_teams d) = map membership (fantasy_teams db1) ->
  fantasy_team_gameweek_points d = map F (fantasy_team_gameweek_points db1) ->
  (forall r, ledger_key (F r) = ledger_key r) ->
  (forall r, TeamGameweekPoints.points (F r) = TeamGameweekPoints.points r) ->
  for_each ls rc (rank_league g) d = (Ok rc', d') ->
  fantasy_teams d' = fantasy_teams d
  /\ fantasy_team_gameweek_points d'
     = map (fun r => rank_leagues g db1 ls (F r))
           (fantasy_team_gameweek_points db1).
Proof.
  induction ls as [|league ls IH]; intros rc d rc' d' F Hnd Et El Hk Hp H.
  - injection H as _ <-. split; [reflexivity|exact El].
  - rewrite for_each_plpgsql_cons in H.
    apply bind_ok in H as (rc1 & d1 & Hs & H).
    assert (Em : league_members g league d = league_members g league db1).
    { rewrite <- !league_table_members.
      now rewrite (league_members_map g league db1 d F Et El Hk Hp). }
    apply rank_league_ledger in Hs as (Et1 & El1); [|rewrite Em; apply Hnd].
    rewrite Em, El, map_map in El1.
    destruct (IH rc1 d1 rc' d'
                (fun r => league_rank_by_position g (league_members g league db1)
                            1 (F r)) Hnd) as (Et' & El'); try assumption.
    + now rewrite Et1.
    + intros r. now rewrite league_rank_by_position_key.
    + intros r. now rewrite league_rank_by_position_points.
    + split; [congruence|]. rewrite El'. reflexivity.
Qed.

Lemma unique_key_same_row {A K} (key : A -> K) (l : list A) a b :
  NoDup (map key l) -> In a l -> In b l -> key a = key b -> a = b.
Proof.
  induction l as [|x l IH]; simpl; intros Hnd Ha Hb E; [destruct Ha|].
  inversion Hnd as [|? ? Hx Hl]; subst.
  destruct Ha as [<-|Ha], Hb as [<-|Hb]; [reflexivity| | |now apply IH].
  - exfalso. apply Hx. rewrite E. now apply in_map.
  - exfalso. apply Hx. rewrite <- E. now apply in_map.
Qed.

Lemma in_league_spec (o : option uuid) (league : uuid) :
  Sql.holds (Sql.cmp N.eqb o (Some league)) = true <-> o = Some league.
Proof.
  destruct o as [l|]; simpl; [|split; discriminate].
  destruct (l =? league)%N eqn:E.
  - apply N.eqb_eq in E. subst. tauto.
  - apply N.eqb_neq in E. split; [discriminate|]. intros H. injection H as H.
    contradiction.
Qed.

(** A row of the join, and the team it is joined to. *)
Lemma league_join_in g league db r :
  In r (league_join g league db) <->
  In r (fantasy_team_gameweek_points db)
  /\ TeamGameweekPoints.gameweek r = g
  /\ exists ft, In ft (fantasy_teams db)
                /\ FantasyTeams.fantasy_team_id ft
                   = TeamGameweekPoints.fantasy_team_id r
                /\ FantasyTeams.league_id ft = Some league.
Proof.
  unfold league_join. rewrite in_flat_map. split.
  - intros (ft & Hft & Hr).
    destruct (Sql.holds _) eqn:E; [|destruct Hr].
    apply in_league_spec in E. apply filter_In in Hr as [Hr Hk].
    apply points_key_spec in Hk. unfold ledger_key in Hk. injection Hk as Et Eg.
    split; [exact Hr|]. split; [exact Eg|]. exists ft. auto.
  - intros (Hr & Eg & ft & Hft & Et & El). exists ft. split; [exact Hft|].
    apply in_league_spec in El. cbv beta. rewrite El. apply filter_In. split; [exact Hr|].
    apply points_key_spec. unfold ledger_key. congruence.
Qed.

Lemma one_row_per_key g team (lg : list TeamGameweekPoints.row) :
  NoDup (map ledger_key lg) ->
  NoDup (map TeamGameweekPoints.fantasy_team_id (filter (points_key g team) lg)).
Proof.
  induction lg as [|r lg IH]; simpl; [constructor|]. intros H.
  inversion H as [|? ? Hr Hlg]; subst.
  destruct (points_key g team r) eqn:E; [|now apply IH]. simpl.
  constructor; [|now apply IH]. intros Hin.
  apply in_map_iff in Hin as (r' & Et & Hr'). apply filter_In in Hr' as [Hr' Hk].
  apply Hr. apply in_map_iff. exists r'. split; [|exact Hr'].
  apply points_key_spec in E, Hk. congruence.
Qed.

Lemma league_join_NoDup g league db :
  NoDup (map FantasyTeams.fantasy_team_id (fantasy_teams db)) ->
  NoDup (map ledger_key (fantasy_team_gameweek_points db)) ->
  NoDup (map TeamGameweekPoints.fantasy_team_id (league_join g league db)).
Proof.
  intros Ht Hl. unfold league_join.
  induction (fantasy_teams db) as [|ft ts IH]; simpl; [constructor|].
  inversion Ht as [|? ? Hft Hts]; subst. rewrite map_app.
  apply NoDup_app; [| now apply IH |].
  - destruct (Sql.holds _); [now apply one_row_per_key | constructor].
  - intros t H1 H2. apply Hft.
    assert (E : t = FantasyTeams.fantasy_team_id ft).
    { destruct (Sql.holds _); [|destruct H1].
      apply in_map_iff in H1 as (r & <- & Hr). apply filter_In in Hr as [_ Hk].
      apply points_key_spec in Hk. unfold ledger_key in Hk. congruence. }
    subst t. apply in_map_iff in H2 as (r & Er & Hr).
    apply in_flat_map in Hr as (ft' & Hft' & Hr).
    destruct (Sql.holds _); [|destruct Hr].
    apply filter_In in Hr as [_ Hk]. apply points_key_spec in Hk.
    unfold ledger_key in Hk. apply in_map_iff. exists ft'.
    split; [congruence|exact Hft'].
Qed.

Lemma league_members_perm g league db :
  Permutation (league_members g league db)
              (map TeamGameweekPoints.fantasy_team_id (league_join g league db)).
Proof. unfold league_members. apply Permutation_map, order_by_perm. Qed.

Lemma league_members_NoDup g league db :
  NoDup (map FantasyTeams.fantasy_team_id (fantasy_teams db)) ->
  NoDup (map ledger_key (fantasy_team_gameweek_points db)) ->
  NoDup (league_members g league db).
Proof.
  intros Ht Hl.
  apply (Permutation_NoDup (Permutation_sym (league_members_perm g league db))).
  now apply league_join_NoDup.
Qed.

(** A team with unique id is a member of one league only. *)
Lemma league_members_disjoint g league league' db team :
  NoDup (map FantasyTeams.fantasy_team_id (fantasy_teams db)) ->
  In team (league_members g league db) ->
  In team (league_members g league' db) ->
  league' = league.
Proof.
  intros Hnd H1 H2.
  apply (Permutation_in _ (league_members_perm _ _ _)) in H1, H2.
  apply in_map_iff in H1 as (r1 & E1 & H1), H2 as (r2 & E2 & H2).
  apply league_join_in in H1 as (_ & _ & ft1 & Hf1 & Ei1 & El1).
  apply league_join_in in H2 as (_ & _ & ft2 & Hf2 & Ei2 & El2).
  assert (E : ft1 = ft2).
  { apply (unique_key_same_row FantasyTeams.fantasy_team_id (fantasy_teams db));
      [exact Hnd | exact Hf1 | exact Hf2 | congruence]. }
  subst ft2. congruence.
Qed.

Lemma rank_leagues_key g db ls : forall r,
  ledger_key (rank_leagues g db ls r) = ledger_key r.
Proof.
  unfold rank_leagues. induction ls as [|l ls IH]; intros r; [reflexivity|].
  simpl. now rewrite IH, league_rank_by_position_key.
Qed.

Lemma rank_leagues_points g db ls : forall r,
  TeamGameweekPoints.points (rank_leagues g db ls r) = TeamGameweekPoints.points r.
Proof.
  unfold rank_leagues. induction ls as [|l ls IH]; intros r; [reflexivity|].
  simpl. now rewrite IH, league_rank_by_position_points.
Qed.

Lemma index_of_some x l : In x l -> exists i, index_of x l = Some i.
Proof.
  induction l as [|y r IH]; simpl; [intros []|]. intros H.
  destruct (x =? y)%N eqn:E; [now exists 0%nat|].
  apply N.eqb_neq in E. destruct H as [->|H]; [contradiction|].
  destruct (IH H) as (i & ->). now exists (S i).
Qed.

(** Leagues a team is no member of leave its row alone. *)
Lemma rank_leagues_skip g db ls : forall r,
  (forall league, In league ls ->
     ~ In (TeamGameweekPoints.fantasy_team_id r) (league_members g league db)) ->
  rank_leagues g db ls r = r.
Proof.
  unfold rank_leagues. induction ls as [|l ls IH]; intros r H; [reflexivity|].
  simpl. unfold league_rank_by_position at 2.
  rewrite (index_of_none _ _ (H l (or_introl eq_refl))).
  replace (if TeamGameweekPoints.gameweek r =? g then r else r) with r
    by now destruct (_ =? g).
  apply IH. intros league Hl. apply H. now right.
Qed.

(** The league a team is a member of gives its row the rank. *)
Lemma rank_leagues_member g db ls league r i :
  NoDup ls -> In league ls ->
  TeamGameweekPoints.gameweek r = g ->
  index_of (TeamGameweekPoints.fantasy_team_id r) (league_members g league db)
  = Some i ->
  (forall league', league' <> league ->
     ~ In (TeamGameweekPoints.fantasy_team_id r) (league_members g league' db)) ->
  rank_leagues g db ls r
  = TeamGameweekPoints.with_rank_in_league (Some (1 + Z.of_nat i)) r.
Proof.
  intros Hnd Hin Eg Ei Hother. revert r Eg Ei Hother Hnd Hin.
  induction ls as [|l ls IH]; intros r Eg Ei Hother Hnd Hin; [destruct Hin|].
  inversion Hnd as [|? ? Hl Hls]; subst. destruct Hin as [->|Hin].
  - change (rank_leagues (TeamGameweekPoints.gameweek r) db (league :: ls) r)
      with (rank_leagues (TeamGameweekPoints.gameweek r) db ls
              (league_rank_by_position (TeamGameweekPoints.gameweek r)
                 (league_members (TeamGameweekPoints.gameweek r) league db) 1 r)).
    unfold league_rank_by_position. rewrite Z.eqb_refl, Ei.
    apply rank_leagues_skip. intros league' Hl'. simpl. apply Hother.
    intros ->. contradiction.
  - change (rank_leagues (TeamGameweekPoints.gameweek r) db (l :: ls) r)
      with (rank_leagues (TeamGameweekPoints.gameweek r) db ls
              (league_rank_by_position (TeamGameweekPoints.gameweek r)
                 (league_members (TeamGameweekPoints.gameweek r) l db) 1 r)).
    unfold league_rank_by_position at 1.
    rewrite (index_of_none _ _ (Hother l ltac:(intros ->; contradiction))).
    rewrite Z.eqb_refl. now apply IH.
Qed.

Lemma by_points_irrefl a : by_points a a = false.
Proof. unfold by_points. apply Z.ltb_irrefl. Qed.

Lemma by_points_asym a b : by_points a b = true -> by_points b a = false.
Proof. unfold by_points. lia. Qed.

Lemma by_points_negtrans a b c :
  by_points a b = false -> by_points b c = false -> by_points a c = false.
Proof. unfold by_points. lia. Qed.

Lemma league_ids_in db league ft :
  In ft (fantasy_teams db) -> FantasyTeams.league_id ft = Some league ->
  In league (league_ids db).
Proof.
  intros Hft El. unfold league_ids. apply nodup_In, in_flat_map.
  exists ft. split; [exact Hft|]. rewrite El. now left.
Qed.

Lemma settled_membership db g old new :
  settled db g old new -> membership new = membership old.
Proof.
  intros (p & n & _ & _ & H). unfold settle_team in H.
  destruct (int4_add _ p); [|discriminate]. simpl in H.
  destruct (int4_sub _ _); [|discriminate]. simpl in H.
  destruct (int4_add _ 1); [|discriminate]. simpl in H.
  injection H as <-. reflexivity.
Qed.

Lemma same_but_rank_membership a b :
  same_but_rank a b -> membership b = membership a.
Proof. intros (Ei & El & _). unfold membership. congruence. Qed.

Lemma not_in_filter {A} (p : A -> bool) (l : list A) :
  (forall y, In y l -> p y = true -> False) -> filter p l = [].
Proof.
  induction l as [|x l IH]; simpl; [reflexivity|]. intros H.
  destruct (p x) eqn:E; [destruct (H x (or_introl eq_refl) E)|].
  apply IH. intros y Hy. apply H. now right.
Qed.

Lemma filter_unique_key g team (lg : list TeamGameweekPoints.row) r :
  NoDup (map ledger_key lg) -> In r lg -> ledger_key r = (team, g) ->
  filter (points_key g team) lg = [r].
Proof.
  induction lg as [|x lg IH]; simpl; intros Hnd Hr Ek; [destruct Hr|].
  inversion Hnd as [|? ? Hx Hlg]; subst.
  destruct Hr as [->|Hr].
  - apply points_key_spec in Ek as Ek'. rewrite Ek'. f_equal.
    apply not_in_filter. intros y Hy Hk. apply Hx.
    apply points_key_spec in Hk. rewrite Ek, <- Hk. now apply in_map.
  - destruct (points_key g team x) eqn:E; [|now apply IH].
    exfalso. apply Hx. apply points_key_spec in E. rewrite E, <- Ek.
    now apply in_map.
Qed.

(** With one ledger row for every team and the gameweek, the join lists the
    teams of the league, each once. *)
Lemma league_join_teams g league db :
  NoDup (map ledger_key (fantasy_team_gameweek_points db)) ->
  (forall ft, In ft (fantasy_teams db) ->
     exists r, In r (fantasy_team_gameweek_points db)
               /\ ledger_key r = (FantasyTeams.fantasy_team_id ft, g)) ->
  map TeamGameweekPoints.fantasy_team_id (league_join g league db)
  = map FantasyTeams.fantasy_team_id
        (filter (fun ft => Sql.holds (Sql.cmp N.eqb (FantasyTeams.league_id ft)
                                                     (Some league)))
                (fantasy_teams db)).
Proof.
  intros Hnd. unfold league_join.
  induction (fantasy_teams db) as [|ft ts IH]; intros Hrow; [reflexivity|].
  simpl. rewrite map_app, IH by (intros x Hx; apply Hrow; now right).
  destruct (Sql.holds _); [|reflexivity].
  destruct (Hrow ft (or_introl eq_refl)) as (r & Hr & Ek).
  rewrite (filter_unique_key g _ _ r Hnd Hr Ek). simpl. f_equal.
  unfold ledger_key in Ek. congruence.
Qed.

Section LeagueRanking.

Variable g : Z.

(** The teams and the ledger after a call that returns, from what the
    first loop left. *)
Lemma finalize_gameweek_league_rows db db' :
  team_ids_unique db = true -> ledger_keys_unique db = true ->
  finalize_gameweek g db = (Ok tt, db') ->
  exists db1,
    NoDup (map FantasyTeams.fantasy_team_id (fantasy_teams db1))
    /\ NoDup (map ledger_key (fantasy_team_gameweek_points db1))
    /\ (forall team,
          In team (map FantasyTeams.fantasy_team_id (fantasy_teams db1)) ->
          exists r, In r (fantasy_team_gameweek_points db1)
                    /\ ledger_key r = (team, g))
    /\ map membership (fantasy_teams db') = map membership (fantasy_teams db1)
    /\ fantasy_team_gameweek_points db'
       = map (rank_leagues g db1 (league_ids db1))
             (fantasy_team_gameweek_points db1).
Proof.
  intros Hu Hl H. apply finalize_gameweek_ok in H
    as (_ & db1 & db2 & db3 & rc & rc' & next & after
        & H1 & H2 & H3 & _ & _ & ->).
  exists db1.
  assert (Eids : map FantasyTeams.fantasy_team_id (fantasy_teams db1)
                 = map FantasyTeams.fantasy_team_id (fantasy_teams db)).
  { pose proof (settle_all_teams g db db1 Hu H1) as F.
    exact (Forall2_map_eq _ FantasyTeams.fantasy_team_id
             FantasyTeams.fantasy_team_id _ _
             (fun x y (S : settled db g x y) =>
                f_equal fst (settled_membership db g x y S)) F). }
  assert (Hnd : NoDup (map FantasyTeams.fantasy_team_id (fantasy_teams db1)))
    by (rewrite Eids; now apply distinct_NoDup).
  set (pts := fun team => match calculate_fantasy_team_points db team g with
                          | Ok p => p
                          | Raise _ => 0
                          end).
  destruct (settle_loop_ledger g db pts (teams_by_id db) db db1) as (_ & El1);
    [intros team p Hc; unfold pts; now rewrite Hc
    | apply same_inputs_refl | exact H1 |].
  assert (Hndl : NoDup (map ledger_key (fantasy_team_gameweek_points db1)))
    by (rewrite El1; apply record_all_NoDup; now apply distinct_keys_NoDup).
  split; [exact Hnd|]. split; [exact Hndl|]. split.
  { intros team Ht. rewrite Eids in Ht.
    apply (Permutation_in _ (Permutation_sym (teams_by_id_perm db))) in Ht.
    destruct (record_all_has_key g pts _ (fantasy_team_gameweek_points db) _ Ht)
      as (r & Hr & Hk).
    exists r. rewrite El1. split; [exact Hr|now apply points_key_spec]. }
  destruct (rank_leagues_loop g db1 (league_ids db1) 1 db1 rc db2 (fun r => r))
    as (Et2 & El2); try reflexivity; try exact H2.
  { intros league. now apply league_members_NoDup. }
  { symmetry. apply map_id. }
  apply (for_each_keeps same_ledger) in H3 as El3;
    [| apply same_ledger_refl | apply same_ledger_trans
     | intros; apply rank_overall_same_ledger].
  apply (for_each_keeps same_teams_but_rank) in H3;
    [| apply same_teams_but_rank_refl | apply same_teams_but_rank_trans
     | intros; apply rank_overall_same_teams].
  simpl. split.
  - rewrite <- Et2. apply (Forall2_map_eq _ _ _ _ _ same_but_rank_membership H3).
  - rewrite El3. exact El2.
Qed.

(** X10: after a finalization that returns, the ranking query of a league joins
    every team of the league to one ledger row of the gameweek; these rows
    hold the ranks 1, 2, ..., n, each once, and of two of them the one with
    more points has the smaller rank. *)
Theorem finalize_gameweek_league_ranks db db' league :
  team_ids_unique db = true -> ledger_keys_unique db = true ->
  finalize_gameweek g db = (Ok tt, db') ->
  map TeamGameweekPoints.fantasy_team_id (league_join g league db')
  = map FantasyTeams.fantasy_team_id
        (filter (fun ft => Sql.holds (Sql.cmp N.eqb (FantasyTeams.league_id ft)
                                                     (Some league)))
                (fantasy_teams db'))
  /\ Permutation
    (map TeamGameweekPoints.rank_in_league (league_join g league db'))
    (map Some (ranks_from 1 (List.length (league_join g league db'))))
  /\ forall a b,
       In a (league_join g league db') -> In b (league_join g league db') ->
       TeamGameweekPoints.points b < TeamGameweekPoints.points a ->
       exists ra rb,
         TeamGameweekPoints.rank_in_league a = Some ra
         /\ TeamGameweekPoints.rank_in_league b = Some rb
         /\ ra < rb.
Proof.
  intros Hu Hl H.
  destruct (finalize_gameweek_league_rows db db' Hu Hl H)
    as (db1 & Hnd & Hndl & Hrow & Et & El).
  set (F := rank_leagues g db1 (league_ids db1)) in *.
  assert (Ek : map ledger_key (fantasy_team_gameweek_points db')
               = map ledger_key (fantasy_team_gameweek_points db1)).
  { rewrite El, map_map. apply map_ext. intros r. apply rank_leagues_key. }
  split.
  { apply league_join_teams; [now rewrite Ek|]. intros ft Hft.
    assert (Hid : In (FantasyTeams.fantasy_team_id ft)
                     (map FantasyTeams.fantasy_team_id (fantasy_teams db1))).
    { replace (map FantasyTeams.fantasy_team_id (fantasy_teams db1))
        with (map fst (map membership (fantasy_teams db1)))
        by (rewrite map_map; reflexivity).
      rewrite <- Et, map_map. now apply (in_map FantasyTeams.fantasy_team_id). }
    destruct (Hrow _ Hid) as (r & Hr & Hk). exists (F r). split.
    - rewrite El. now apply in_map.
    - unfold F. now rewrite rank_leagues_key. }
  set (J := league_join g league db1).
  set (S := Sql.order_by by_points J).
  assert (EJ : league_join g league db' = map F J)
    by (apply league_join_map; [exact Et | exact El
                               | intros r; apply rank_leagues_key]).
  assert (HS : forall r, In r S <-> In r J) by (intros r; apply order_by_In).
  assert (Hm : NoDup (map TeamGameweekPoints.fantasy_team_id S))
    by exact (league_members_NoDup g league db1 Hnd Hndl).
  assert (HF : forall r, In r S ->
            TeamGameweekPoints.rank_in_league (F r)
            = option_map (fun i => 1 + Z.of_nat i)
                (index_of (TeamGameweekPoints.fantasy_team_id r)
                          (map TeamGameweekPoints.fantasy_team_id S))).
  { intros r Hr.
    assert (Hin : In (TeamGameweekPoints.fantasy_team_id r)
                     (league_members g league db1)) by now apply in_map.
    destruct (index_of_some _ _ Hin) as (i & Ei).
    apply HS, league_join_in in Hr as (_ & Eg & ft & Hft & _ & Elg).
    change (map TeamGameweekPoints.fantasy_team_id S)
      with (league_members g league db1). rewrite Ei. unfold F.
    rewrite (rank_leagues_member g db1 _ league r i); try assumption;
      [reflexivity | apply NoDup_nodup | exact (league_ids_in db1 league ft Hft Elg) |].
    intros league' Hne Hin'. apply Hne.
    exact (league_members_disjoint g league league' db1 _ Hnd Hin Hin'). }
  assert (Hranks : map (fun r => TeamGameweekPoints.rank_in_league (F r)) S
                   = map Some (ranks_from 1 (List.length S))).
  { transitivity (map (option_map (fun i => 1 + Z.of_nat i))
                      (map (fun r => index_of (TeamGameweekPoints.fantasy_team_id r)
                                       (map TeamGameweekPoints.fantasy_team_id S))
                           S)).
    - rewrite map_map. apply map_ext_in. exact HF.
    - rewrite (index_of_positions TeamGameweekPoints.fantasy_team_id S Hm).
      unfold ranks_from. rewrite !map_map. reflexivity. }
  assert (Hlen : List.length S = List.length J)
    by apply Permutation_length, order_by_perm.
  rewrite EJ, map_map, length_map. split.
  - rewrite <- Hlen, <- Hranks.
    apply Permutation_map, Permutation_sym, order_by_perm.
  - intros a' b' Ha Hb Hlt.
    apply in_map_iff in Ha as (a & <- & Ha), Hb as (b & <- & Hb).
    unfold F in Hlt. rewrite !rank_leagues_points in Hlt.
    apply HS in Ha, Hb.
    refine (ranks_follow_order by_points
              (fun r => TeamGameweekPoints.rank_in_league (F r)) S 1
              by_points_irrefl _ Hranks a b Ha Hb _).
    + apply order_by_sorted; [apply by_points_asym | apply by_points_negtrans].
    + unfold by_points. now apply Z.ltb_lt.
Qed.

End LeagueRanking.

(** Three teams, two of them in league 7: the team with 17 points is first
    in the league and the team with none second; the third team, in no
    league, has no rank. *)
Lemma finalize_gameweek_league_ranks_witness :
  team_ids_unique Fixture.three_teams = true
  /\ ledger_keys_unique Fixture.three_teams = true
  /\ finalize_gameweek 1 Fixture.three_teams = (Ok tt, Fixture.second_week)
  /\ map (fun r => (TeamGameweekPoints.fantasy_team_id r,
                    TeamGameweekPoints.points r,
                    TeamGameweekPoints.rank_in_league r))
         (fantasy_team_gameweek_points Fixture.second_week)
     = [ (1%N, 17, Some 1); (2%N, 0, Some 2); (3%N, 0, None) ]
  /\ Permutation
       (map TeamGameweekPoints.rank_in_league
            (league_join 1 7%N Fixture.second_week))
       (map Some (ranks_from 1 2)).
Proof.
  assert (H : finalize_gameweek 1 Fixture.three_teams = (Ok tt, Fixture.second_week))
    by (vm_compute; reflexivity).
  split; [reflexivity | split; [reflexivity | split; [exact H |
    split; [vm_compute; reflexivity|]]]].
  exact (proj1 (proj2 (finalize_gameweek_league_ranks 1 Fixture.three_teams
                         Fixture.second_week 7%N eq_refl eq_refl H))).
Defined.

(** ** Totals and the ledger *)

Lemma Forall2_with_in {A B} (R : A -> B -> Prop) (a : list A) (b : list B) :
  Forall2 R a b -> Forall2 (fun x y => In x a /\ R x y) a b.
Proof.
  induction 1 as [|x y a b Hxy _ IH]; constructor.
  - split; [now left|exact Hxy].
  - refine (Forall2_impl _ _ _ _ _ IH). intros x' y' [Hin Hr].
    split; [now right|exact Hr].
Qed.

Section LedgerTotals.

Variable g : Z.
Variable team : uuid.

Lemma ledger_total_cons r t :
  ledger_total team (r :: t)
  = (if (TeamGameweekPoints.fantasy_team_id r =? team)%N
     then TeamGameweekPoints.points r else 0) + ledger_total team t.
Proof.
  unfold ledger_total. simpl. now destruct (_ =? team)%N.
Qed.

Lemma ledger_total_app t t' :
  ledger_total team (t ++ t') = ledger_total team t + ledger_total team t'.
Proof.
  induction t as [|r t IH]; [reflexivity|]. simpl.
  rewrite !ledger_total_cons, IH. lia.
Qed.

Lemma ledger_entry_cons r t :
  ledger_entry g team (r :: t)
  = if points_key g team r then TeamGameweekPoints.points r
    else ledger_entry g team t.
Proof. unfold ledger_entry. simpl. now destruct (points_key g team r). Qed.

Lemma ledger_entry_none t :
  existsb (points_key g team) t = false -> ledger_entry g team t = 0.
Proof.
  induction t as [|r t IH]; [reflexivity|]. simpl. rewrite ledger_entry_cons.
  destruct (points_key g team r); [discriminate|exact IH].
Qed.

Lemma update_where_none {A} (cond : A -> bool) (set : A -> A) (t : list A) :
  existsb cond t = false -> Sql.update_where cond set t = t.
Proof.
  unfold Sql.update_where. induction t as [|r t IH]; [reflexivity|]. simpl.
  destruct (cond r); [discriminate|]. intros H. now rewrite IH.
Qed.

Lemma no_second_key r t :
  NoDup (map ledger_key (r :: t)) -> points_key g team r = true ->
  existsb (points_key g team) t = false.
Proof.
  intros Hnd Hk. inversion Hnd as [|? ? Hr _]; subst.
  apply not_true_iff_false. intros E. apply existsb_exists in E as (y & Hy & Ey).
  apply Hr. apply points_key_spec in Hk, Ey. rewrite Hk, <- Ey. now apply in_map.
Qed.

(** The upsert for the team itself. *)
Lemma upsert_total_same p t :
  NoDup (map ledger_key t) ->
  ledger_total team (upsert_points g team p t)
  = ledger_total team t - ledger_entry g team t + p.
Proof.
  intros Hnd. unfold upsert_points.
  destruct (existsb (points_key g team) t) eqn:E.
  - induction t as [|r t IH]; [discriminate|].
    change (Sql.update_where (points_key g team)
              (TeamGameweekPoints.with_points p) (r :: t))
      with ((if points_key g team r then TeamGameweekPoints.with_points p r else r)
            :: Sql.update_where (points_key g team)
                 (TeamGameweekPoints.with_points p) t).
    rewrite !ledger_total_cons, ledger_entry_cons.
    destruct (points_key g team r) eqn:Ek.
    + rewrite (update_where_none _ _ _ (no_second_key r t Hnd Ek)).
      apply points_key_spec in Ek. unfold ledger_key in Ek. injection Ek as Et _.
      simpl. rewrite Et, N.eqb_refl. lia.
    + simpl in E. rewrite Ek in E. simpl in E.
      inversion Hnd as [|? ? _ Hnd']; subst. rewrite (IH Hnd' E). lia.
  - rewrite ledger_total_app, (ledger_entry_none t E), ledger_total_cons.
    simpl. rewrite N.eqb_refl. unfold ledger_total. simpl. lia.
Qed.

Lemma upsert_entry_same p t :
  NoDup (map ledger_key t) ->
  ledger_entry g team (upsert_points g team p t) = p.
Proof.
  intros Hnd. unfold upsert_points.
  destruct (existsb (points_key g team) t) eqn:E.
  - induction t as [|r t IH]; [discriminate|].
    change (Sql.update_where (points_key g team)
              (TeamGameweekPoints.with_points p) (r :: t))
      with ((if points_key g team r then TeamGameweekPoints.with_points p r else r)
            :: Sql.update_where (points_key g team)
                 (TeamGameweekPoints.with_points p) t).
    rewrite ledger_entry_cons. destruct (points_key g team r) eqn:Ek.
    + unfold points_key in *. simpl. now rewrite Ek.
    + rewrite Ek. simpl in E. rewrite Ek in E. simpl in E.
      inversion Hnd as [|? ? _ Hnd']; subst. exact (IH Hnd' E).
  - induction t as [|r t IH]; simpl.
    + unfold ledger_entry. simpl. unfold points_key. simpl.
      now rewrite N.eqb_refl, Z.eqb_refl.
    + simpl in E. apply orb_false_iff in E as [Ek E].
      rewrite ledger_entry_cons, Ek. inversion Hnd as [|? ? _ Hnd']; subst.
      exact (IH Hnd' E).
Qed.

(** The upsert for another team. *)
Lemma upsert_total_other x p t :
  x <> team ->
  ledger_total team (upsert_points g x p t) = ledger_total team t.
Proof.
  intros Hx. unfold upsert_points. destruct (existsb (points_key g x) t).
  - unfold ledger_total, Sql.update_where. f_equal.
    induction t as [|r t IH]; [reflexivity|]. simpl.
    destruct (points_key g x r) eqn:Ek; simpl.
    + apply points_key_spec in Ek. unfold ledger_key in Ek. injection Ek as Et _.
      rewrite Et. destruct (x =? team)%N eqn:E;
        [apply N.eqb_eq in E; contradiction|exact IH].
    + destruct (_ =? team)%N; simpl; now rewrite IH.
  - rewrite ledger_total_app, ledger_total_cons. simpl.
    destruct (x =? team)%N eqn:E; [apply N.eqb_eq in E; contradiction|].
    unfold ledger_total. simpl. lia.
Qed.

Lemma upsert_entry_other x p t :
  x <> team ->
  ledger_entry g team (upsert_points g x p t) = ledger_entry g team t.
Proof.
  intros Hx.
  assert (Hno : forall r, points_key g x r = true -> points_key g team r = false).
  { intros r Hk. apply points_key_spec in Hk. apply not_true_iff_false.
    intros Hk'. apply points_key_spec in Hk'. congruence. }
  unfold upsert_points. destruct (existsb (points_key g x) t).
  - unfold Sql.update_where. induction t as [|r t IH]; [reflexivity|]. simpl.
    rewrite !ledger_entry_cons. destruct (points_key g x r) eqn:Ek.
    + rewrite (Hno r Ek).
      replace (points_key g team (TeamGameweekPoints.with_points p r))
        with (points_key g team r) by reflexivity.
      now rewrite (Hno r Ek).
    + now rewrite IH.
  - induction t as [|r t IH]; simpl.
    + unfold ledger_entry. simpl.
      rewrite (Hno (TeamGameweekPoints.mk x g p None)); [reflexivity|].
      unfold points_key. simpl. now rewrite N.eqb_refl, Z.eqb_refl.
    + rewrite !ledger_entry_cons, IH. reflexivity.
Qed.

Lemma upsert_NoDup x p t :
  NoDup (map ledger_key t) -> NoDup (map ledger_key (upsert_points g x p t)).
Proof.
  intros Hnd. destruct (upsert_keys g x p t) as [->|[Hx ->]]; [exact Hnd|].
  apply NoDup_app; [exact Hnd | repeat constructor; intros [] |].
  intros k Hk [<-|[]]. contradiction.
Qed.

Lemma record_all_total_other pts l : forall t,
  ~ In team l ->
  ledger_total team (record_all g pts l t) = ledger_total team t.
Proof.
  induction l as [|x l IH]; intros t Hn; [reflexivity|].
  change (record_all g pts (x :: l) t)
    with (record_all g pts l (upsert_points g x (pts x) t)).
  rewrite IH by (intros H; apply Hn; now right).
  apply upsert_total_other. intros ->. apply Hn. now left.
Qed.

(** The first loop replaces the team's entry for [g] by its points. *)
Lemma record_all_total pts l : forall t,
  NoDup l -> In team l -> NoDup (map ledger_key t) ->
  ledger_total team (record_all g pts l t)
  = ledger_total team t - ledger_entry g team t + pts team.
Proof.
  induction l as [|x l IH]; intros t Hl Hin Hnd; [destruct Hin|].
  change (record_all g pts (x :: l) t)
    with (record_all g pts l (upsert_points g x (pts x) t)).
  inversion Hl as [|? ? Hx Hl']; subst.
  destruct (N.eq_dec x team) as [->|Hne].
  - rewrite record_all_total_other by exact Hx. now apply upsert_total_same.
  - destruct Hin as [->|Hin]; [contradiction|].
    rewrite (IH _ Hl' Hin (upsert_NoDup x (pts x) t Hnd)).
    now rewrite upsert_total_other, upsert_entry_other.
Qed.

Lemma same_but_league_rank_total l l' :
  Forall2 (same_but_league_rank g) l l' ->
  ledger_total team l' = ledger_total team l.
Proof.
  induction 1 as [|a b l l' (K & P & _) _ IH]; [reflexivity|].
  rewrite !ledger_total_cons, IH, P. unfold ledger_key in K.
  injection K as -> _. reflexivity.
Qed.

End LedgerTotals.

Section Gap.

Variable g : Z.

(** X11: by how much a team's total_points exceeds the sum of its ledger points:
    a finalization that returns lowers this by the team's old
    gameweek_points less the points the ledger held for it and the gameweek
    (0 without a row).  A total in step with the ledger stays so exactly
    when the old gameweek_points are the ledger's old entry. *)
Theorem finalize_gameweek_total_and_ledger db db' :
  team_ids_unique db = true -> ledger_keys_unique db = true ->
  finalize_gameweek g db = (Ok tt, db') ->
  Forall2 (fun old new =>
             FantasyTeams.fantasy_team_id new = FantasyTeams.fantasy_team_id old
             /\ exists total,
                  FantasyTeams.total_points new = Some total
                  /\ total
                     - ledger_total (FantasyTeams.fantasy_team_id old)
                                    (fantasy_team_gameweek_points db')
                     = Sql.coalesce (FantasyTeams.total_points old) 0
                       - ledger_total (FantasyTeams.fantasy_team_id old)
                                      (fantasy_team_gameweek_points db)
                       - (Sql.coalesce (FantasyTeams.gameweek_points old) 0
                          - ledger_entry g (FantasyTeams.fantasy_team_id old)
                                         (fantasy_team_gameweek_points db)))
          (fantasy_teams db) (fantasy_teams db').
Proof.
  intros Hu Hl H.
  destruct (finalize_gameweek_ledger_rows g db db' H) as (pts & Hc & F).
  assert (Hnd : NoDup (teams_by_id db)).
  { apply (Permutation_NoDup (Permutation_sym (teams_by_id_perm db))).
    now apply distinct_NoDup. }
  apply distinct_keys_NoDup in Hl.
  refine (Forall2_impl _ _ _ _ _
            (Forall2_with_in _ _ _ (finalize_gameweek_teams g db db' Hu H))).
  intros old new (Hin & mid & (p & n & Hp & _ & Hs) & Hr).
  apply settle_team_ok in Hs as (Ei & Et & _).
  destruct Hr as (Ei' & _ & Et' & _).
  assert (Hid : In (FantasyTeams.fantasy_team_id old) (teams_by_id db)).
  { apply (Permutation_in _ (Permutation_sym (teams_by_id_perm db))).
    now apply in_map. }
  split; [congruence|].
  exists (Sql.coalesce (FantasyTeams.total_points old) 0 + p
          - Sql.coalesce (FantasyTeams.gameweek_points old) 0).
  split; [congruence|].
  rewrite (same_but_league_rank_total g _ _ _ F).
  rewrite (record_all_total g _ pts _ _ Hnd Hid Hl).
  specialize (Hc _ Hid). rewrite Hp in Hc. injection Hc as <-. lia.
Qed.

End Gap.


(** The three teams after gameweek 1: the team that scored 17 has a total
    of 17 beside a ledger sum of 17; finalizing gameweek 2, in which it
    scores 5, leaves it a total of 5 beside a ledger sum of 22. *)
Lemma finalize_gameweek_total_and_ledger_witness :
  team_ids_unique Fixture.second_week = true
  /\ ledger_keys_unique Fixture.second_week = true
  /\ finalize_gameweek 2 Fixture.second_week = (Ok tt, Fixture.third_week)
  /\ map (fun t => (FantasyTeams.fantasy_team_id t, FantasyTeams.total_points t,
                    FantasyTeams.gameweek_points t,
                    ledger_total (FantasyTeams.fantasy_team_id t)
                      (fantasy_team_gameweek_points Fixture.second_week)))
         (fantasy_teams Fixture.second_week)
     = [ (3%N, Some 20, Some 0, 0); (1%N, Some 17, Some 17, 17);
         (2%N, Some 20, Some 0, 0) ]
  /\ map (fun t => (FantasyTeams.fantasy_team_id t, FantasyTeams.total_points t,
                    ledger_total (FantasyTeams.fantasy_team_id t)
                      (fantasy_team_gameweek_points Fixture.third_week)))
         (fantasy_teams Fixture.third_week)
     = [ (3%N, Some 20, 0); (1%N, Some 5, 22); (2%N, Some 20, 0) ]
  /\ Forall2 (fun old new =>
             FantasyTeams.fantasy_team_id new = FantasyTeams.fantasy_team_id old
             /\ exists total,
                  FantasyTeams.total_points new = Some total
                  /\ total
                     - ledger_total (FantasyTeams.fantasy_team_id old)
                         (fantasy_team_gameweek_points Fixture.third_week)
                     = Sql.coalesce (FantasyTeams.total_points old) 0
                       - ledger_total (FantasyTeams.fantasy_team_id old)
                           (fantasy_team_gameweek_points Fixture.second_week)
                       - (Sql.coalesce (FantasyTeams.gameweek_points old) 0
                          - ledger_entry 2 (FantasyTeams.fantasy_team_id old)
                              (fantasy_team_gameweek_points Fixture.second_week)))
          (fantasy_teams Fixture.second_week) (fantasy_teams Fixture.third_week).
Proof.
  assert (H : finalize_gameweek 2 Fixture.second_week = (Ok tt, Fixture.third_week))
    by (vm_compute; reflexivity).
  split; [reflexivity | split; [reflexivity | split; [exact H |
    split; [vm_compute; reflexivity | split; [vm_compute; reflexivity|]]]]].
  exact (finalize_gameweek_total_and_ledger 2 Fixture.second_week
           Fixture.third_week eq_refl eq_refl H).
Defined.

(** ** The migration's recalculation and the next finalization *)

Lemma recalculate_total_points_ok db db1 :
  recalculate_total_points db = Ok db1 ->
  fantasy_team_gameweek_points db1 = fantasy_team_gameweek_points db
  /\ gameweeks db1 = gameweeks db
  /\ Forall2 (fun old new =>
                FantasyTeams.fantasy_team_id new = FantasyTeams.fantasy_team_id old
                /\ FantasyTeams.total_points new
                   = Some (ledger_total (FantasyTeams.fantasy_team_id old)
                             (fantasy_team_gameweek_points db)))
             (fantasy_teams db) (fantasy_teams db1).
Proof.
  unfold recalculate_total_points. intros H.
  destruct (update_where_checked _ _ _) as [teams|e] eqn:E; [|discriminate].
  simpl in H. injection H as <-. split; [reflexivity|]. split; [reflexivity|].
  apply update_where_checked_ok in E. simpl.
  refine (Forall2_impl _ _ _ _ _ E). intros old new Hs. simpl in Hs.
  unfold int4 in Hs. destruct (in_int4 _); [|discriminate].
  simpl in Hs. injection Hs as <-. auto.
Qed.

Section AfterMigration.

Variable g : Z.

(** X12: the two recalculating statements make total_points the sum of the
    team's ledger points and gameweek_points its points of the latest
    finalized gameweek.  A finalization that returns after them leaves
    total_points the sum of the ledger points then, less the old points of
    the latest finalized gameweek, plus the old points of the gameweek
    finalized: in step with the ledger when the latest finalized gameweek
    is finalized again, short of it by that gameweek's points when a
    gameweek without rows in the ledger is. *)
Theorem recalculated_then_finalized db db1 db' :
  team_ids_unique db = true -> ledger_keys_unique db = true ->
  recalculate_total_points db = Ok db1 ->
  finalize_gameweek g (show_latest_gameweek_points db1) = (Ok tt, db') ->
  Forall2 (fun old new =>
             FantasyTeams.fantasy_team_id new = FantasyTeams.fantasy_team_id old
             /\ FantasyTeams.total_points new
                = Some (ledger_total (FantasyTeams.fantasy_team_id old)
                          (fantasy_team_gameweek_points db')
                        - ledger_entry (get_latest_finalized_gameweek (gameweeks db))
                            (FantasyTeams.fantasy_team_id old)
                            (fantasy_team_gameweek_points db)
                        + ledger_entry g (FantasyTeams.fantasy_team_id old)
                            (fantasy_team_gameweek_points db)))
          (fantasy_teams db) (fantasy_teams db').
Proof.
  intros Hu Hl H1 H.
  destruct (recalculate_total_points_ok db db1 H1) as (El & Eg & F1).
  set (db2 := show_latest_gameweek_points db1) in *.
  assert (El2 : fantasy_team_gameweek_points db2 = fantasy_team_gameweek_points db)
    by exact El.
  assert (F2 : Forall2 (fun old new =>
                 FantasyTeams.fantasy_team_id new = FantasyTeams.fantasy_team_id old
                 /\ FantasyTeams.total_points new
                    = Some (ledger_total (FantasyTeams.fantasy_team_id old)
                              (fantasy_team_gameweek_points db))
                 /\ FantasyTeams.gameweek_points new
                    = Some (ledger_entry
                              (get_latest_finalized_gameweek (gameweeks db))
                              (FantasyTeams.fantasy_team_id old)
                              (fantasy_team_gameweek_points db)))
              (fantasy_teams db) (fantasy_teams db2)).
  { unfold db2, show_latest_gameweek_points, on_fantasy_teams. simpl.
    rewrite El, Eg. clear - F1. induction F1 as [|old new a b (Ei & Et) _ IH];
      simpl; constructor; [|exact IH]. simpl. rewrite Ei. auto. }
  assert (Hu2 : team_ids_unique db2 = true).
  { unfold team_ids_unique in *.
    rewrite (Forall2_map_eq _ FantasyTeams.fantasy_team_id
               FantasyTeams.fantasy_team_id _ _
               (fun x y R => proj1 R) F2). exact Hu. }
  destruct (finalize_gameweek_ledger_rows g db2 db' H) as (pts & Hc & F).
  assert (Hnd : NoDup (teams_by_id db2)).
  { apply (Permutation_NoDup (Permutation_sym (teams_by_id_perm db2))).
    now apply distinct_NoDup. }
  apply distinct_keys_NoDup in Hl. rewrite <- El2 in Hl.
  refine (Forall2_compose _ _ _ _ _ _ _ F2
            (Forall2_with_in _ _ _ (finalize_gameweek_teams g db2 db' Hu2 H))).
  intros old mid0 new (Ei0 & Et0 & Eg0) (Hin & mid & (p & n & Hp & _ & Hs) & Hr).
  apply settle_team_ok in Hs as (Ei & Et & _).
  destruct Hr as (Ei' & _ & Et' & _).
  assert (Hid : In (FantasyTeams.fantasy_team_id mid0) (teams_by_id db2)).
  { apply (Permutation_in _ (Permutation_sym (teams_by_id_perm db2))).
    now apply in_map. }
  split; [congruence|].
  rewrite (same_but_league_rank_total g _ _ _ F).
  rewrite <- Ei0, (record_all_total g _ pts _ _ Hnd Hid Hl).
  specialize (Hc _ Hid). rewrite Hp in Hc. injection Hc as <-.
  rewrite Et', Et, Et0, Eg0, El2, Ei0. simpl. f_equal. lia.
Qed.

End AfterMigration.

(** The three teams after gameweek 1, recalculated: the team with 17 points
    in the ledger has a total of 17; after gameweek 2, in which it scores 5,
    its ledger sum is 22 and its total 22 - 17 = 5. *)
Lemma recalculated_then_finalized_witness :
  team_ids_unique Fixture.second_week = true
  /\ ledger_keys_unique Fixture.second_week = true
  /\ recalculate_total_points Fixture.second_week = Ok Fixture.recalculated
  /\ finalize_gameweek 2 (show_latest_gameweek_points Fixture.recalculated)
     = (Ok tt, Fixture.recalculated_third_week)
  /\ map FantasyTeams.total_points (fantasy_teams Fixture.recalculated)
     = [Some 0; Some 17; Some 0]
  /\ map (fun t => (FantasyTeams.total_points t,
                    ledger_total (FantasyTeams.fantasy_team_id t)
                      (fantasy_team_gameweek_points Fixture.recalculated_third_week)))
         (fantasy_teams Fixture.recalculated_third_week)
     = [ (Some 0, 0); (Some 5, 22); (Some 0, 0) ]
  /\ Forall2 (fun old new =>
             FantasyTeams.fantasy_team_id new = FantasyTeams.fantasy_team_id old
             /\ FantasyTeams.total_points new
                = Some (ledger_total (FantasyTeams.fantasy_team_id old)
                          (fantasy_team_gameweek_points
                             Fixture.recalculated_third_week)
                        - ledger_entry
                            (get_latest_finalized_gameweek
                               (gameweeks Fixture.second_week))
                            (FantasyTeams.fantasy_team_id old)
                            (fantasy_team_gameweek_points Fixture.second_week)
                        + ledger_entry 2 (FantasyTeams.fantasy_team_id old)
                            (fantasy_team_gameweek_points Fixture.second_week)))
          (fantasy_teams Fixture.second_week)
          (fantasy_teams Fixture.recalculated_third_week).
Proof.
  assert (H1 : recalculate_total_points Fixture.second_week = Ok Fixture.recalculated)
    by (vm_compute; reflexivity).
  assert (H2 : finalize_gameweek 2 (show_latest_gameweek_points Fixture.recalculated)
               = (Ok tt, Fixture.recalculated_third_week))
    by (vm_compute; reflexivity).
  split; [reflexivity | split; [reflexivity | split; [exact H1 | split; [exact H2 |
    split; [vm_compute; reflexivity | split; [vm_compute; reflexivity|]]]]]].
  exact (recalculated_then_finalized 2 Fixture.second_week Fixture.recalculated
           Fixture.recalculated_third_week eq_refl eq_refl H1 H2).
Defined.

(** ** The administration page and the procedures *)

Lemma filter_all_length {A} (p : A -> bool) (l : list A) :
  List.length (filter p l) = List.length l <-> forallb p l = true.
Proof.
  induction l as [|x l IH]; simpl; [tauto|].
  pose proof (filter_length_le p l) as Hle.
  destruct (p x); simpl; [rewrite <- IH; lia|]. split; [lia|discriminate].
Qed.

Lemma stats_complete_iff db g :
  (GameweekManager.completed_matches (GameweekManager.fetchGameweekStats db g)
   =? GameweekManager.total_matches (GameweekManager.fetchGameweekStats db g))
  = negb (has_incomplete_match g db).
Proof.
  unfold GameweekManager.fetchGameweekStats, GameweekManager.length_of,
    has_incomplete_match. simpl.
  generalize (real_matches db) as l. intros l.
  destruct (existsb _ l) eqn:E; simpl.
  - apply Z.eqb_neq. intros H. apply Nat2Z.inj in H.
    apply filter_all_length in H. rewrite forallb_forall in H.
    apply existsb_exists in E as (m & Hm & Hc).
    apply andb_true_iff in Hc as [Hg Hs].
    rewrite (H m) in Hs; [discriminate|]. apply filter_In. auto.
  - apply Z.eqb_eq. f_equal. apply filter_all_length, forallb_forall.
    intros m Hm. apply filter_In in Hm as [Hm Hg].
    destruct (String.eqb (RealMatches.status m) "completed") eqn:Es;
      [reflexivity|].
    rewrite <- not_true_iff_false in E. exfalso. apply E.
    apply existsb_exists. exists m. split; [exact Hm|]. now rewrite Hg, Es.
Qed.

(** X13: whenever the page, on statistics it has just fetched, shows the
    Finalize button for a gameweek, [finalize_gameweek] passes its check of
    the matches: it can only fail on INTEGER overflow.  When the page
    counts fewer completed matches than matches, [finalize_gameweek] raises
    its exception and writes nothing. *)
Theorem finalize_button_agrees_with_check db selectedGW :
  let stats := GameweekManager.fetchGameweekStats db (gameweek_number selectedGW) in
  (GameweekManager.shows_finalize selectedGW (Some stats) = true ->
   has_incomplete_match (gameweek_number selectedGW) db = false
   /\ forall e db',
        finalize_gameweek (gameweek_number selectedGW) db = (Raise e, db') ->
        e = integer_out_of_range)
  /\ (GameweekManager.completed_matches stats < GameweekManager.total_matches stats ->
      GameweekManager.shows_finalize selectedGW (Some stats) = false
      /\ finalize_gameweek (gameweek_number selectedGW) db
         = (Raise (raise_exception cannot_finalize (gameweek_number selectedGW)), db)).
Proof.
  intros stats. pose proof (stats_complete_iff db (gameweek_number selectedGW)) as E.
  fold stats in E. split.
  - unfold GameweekManager.shows_finalize. intros H.
    apply andb_true_iff in H as [_ H]. rewrite E in H. apply negb_true_iff in H.
    split; [exact H|]. intros e db'. now apply finalize_gameweek_raises.
  - intros Hlt.
    assert (Hne : (GameweekManager.completed_matches stats
                   =? GameweekManager.total_matches stats) = false)
      by (apply Z.eqb_neq; lia).
    split.
    + unfold GameweekManager.shows_finalize. rewrite Hne. apply andb_false_r.
    + rewrite E in Hne. apply negb_false_iff in Hne.
      now apply finalize_gameweek_check_fails.
Qed.

Lemma setGameweekStatus_rows g s t :
  GameweekManager.setGameweekStatus g s t = map (set_status_row g s) t.
Proof.
  unfold GameweekManager.setGameweekStatus, set_status_row, Sql.update_where.
  destruct (String.eqb s "active"); [rewrite !map_map|]; reflexivity.
Qed.

Lemma set_status_row_columns g s r :
  gameweek_number (set_status_row g s r) = gameweek_number r
  /\ deadline_time (set_status_row g s r) = deadline_time r
  /\ start_time (set_status_row g s r) = start_time r
  /\ end_time (set_status_row g s r) = end_time r
  /\ status (set_status_row g s r) = if gameweek_number r =? g then s else status r.
Proof.
  unfold set_status_row.
  set (r1 := if gameweek_number r =? g then _ else r).
  assert (H1 : gameweek_number r1 = gameweek_number r
               /\ deadline_time r1 = deadline_time r
               /\ start_time r1 = start_time r /\ end_time r1 = end_time r
               /\ status r1 = if gameweek_number r =? g then s else status r)
    by (subst r1; destruct (gameweek_number r =? g); simpl; auto 10).
  destruct (String.eqb s "active"); [|exact H1]. cbv zeta.
  set (r2 := if negb (gameweek_number r1 =? g) then _ else r1).
  assert (H2 : gameweek_number r2 = gameweek_number r1
               /\ deadline_time r2 = deadline_time r1
               /\ start_time r2 = start_time r1 /\ end_time r2 = end_time r1
               /\ status r2 = status r1)
    by (subst r2; destruct (negb _); simpl; auto 10).
  destruct H1 as (? & ? & ? & ? & ?), H2 as (? & ? & ? & ? & ?).
  destruct (gameweek_number r2 =? g + 1); simpl; repeat split; congruence.
Qed.

(** ** The hook and the procedures *)

Lemma firstn_split_in {A} (n : nat) (l : list A) x :
  In x (firstn n l) ->
  exists a b, l = (a ++ x :: b)%list /\ (List.length a < n)%nat.
Proof.
  revert l. induction n as [|n IH]; intros l H; [destruct H|].
  destruct l as [|y l]; [destruct H|]. simpl in H. destruct H as [->|H].
  - exists [], l. split; [reflexivity|simpl; lia].
  - destruct (IH l H) as (a & b & -> & Hlen). exists (y :: a), b.
    split; [reflexivity|simpl; lia].
Qed.

Lemma sorted_suffix {A} (R : A -> A -> Prop) (a l : list A) :
  StronglySorted R (a ++ l)%list -> StronglySorted R l.
Proof.
  induction a as [|x a IH]; simpl; [auto|]. intros H.
  inversion H; subst. auto.
Qed.

(** A fetched row has fewer than ten rows with a smaller number. *)
Lemma fetched_is_among_first_ten t r :
  In r (UseGameweek.fetched t) ->
  (List.length (filter (fun x => (gameweek_number x <? gameweek_number r)%Z) t)
   < 10)%nat.
Proof.
  unfold UseGameweek.fetched. intros H.
  rewrite <- (filter_length_perm _ _ _ (order_by_perm by_gameweek_number t)).
  pose proof (order_by_sorted by_gameweek_number by_gameweek_number_asym
                by_gameweek_number_negtrans t) as Hs.
  destruct (firstn_split_in _ _ _ H) as (a & b & E & Hlen).
  rewrite E in *. rewrite filter_app, length_app.
  assert (Hb : filter (fun x => gameweek_number x <? gameweek_number r) (r :: b) = []).
  { apply sorted_suffix in Hs.
    inversion Hs as [|? ? _ Hall]; subst. rewrite Forall_forall in Hall.
    simpl. rewrite Z.ltb_irrefl. apply not_in_filter. intros y Hy Hlt.
    specialize (Hall y Hy). unfold by_gameweek_number in Hall. lia. }
  rewrite Hb. simpl. pose proof (filter_length_le
    (fun x => gameweek_number x <? gameweek_number r) a). lia.
Qed.

Lemma find_all_false {A} (p : A -> bool) (l : list A) :
  (forall x, In x l -> p x = false) -> find p l = None.
Proof.
  induction l as [|x l IH]; simpl; [reflexivity|]. intros H.
  rewrite (H x (or_introl eq_refl)). apply IH. intros y Hy. apply H. now right.
Qed.

Lemma find_one_true {A} (p : A -> bool) (l : list A) x :
  In x l -> p x = true -> exists y, find p l = Some y.
Proof.
  intros Hx Hp. destruct (find p l) as [y|] eqn:E; [eauto|].
  rewrite (find_none _ _ E x Hx) in Hp. discriminate.
Qed.

Lemma firstn_in_prefix {A} (n : nat) (a b : list A) x :
  (List.length a < n)%nat -> In x (firstn n (a ++ x :: b)%list).
Proof.
  intros H. rewrite firstn_app. apply in_or_app. right.
  destruct (n - List.length a)%nat as [|k] eqn:E; [lia|]. now left.
Qed.

Lemma fetched_in t r : In r (UseGameweek.fetched t) -> In r t.
Proof.
  unfold UseGameweek.fetched. intros H.
  apply (order_by_In by_gameweek_number).
  destruct (firstn_split_in _ _ _ H) as (a & b & -> & _).
  apply in_or_app. right. now left.
Qed.

(** With unique numbers, a row with fewer than ten rows below it is fetched. *)
Lemma first_ten_are_fetched t r :
  NoDup (map gameweek_number t) -> In r t ->
  (List.length (lower_numbered (gameweek_number r) t) < 10)%nat ->
  In r (UseGameweek.fetched t).
Proof.
  unfold UseGameweek.fetched, lower_numbered. intros Hnd Hr Hlen.
  rewrite <- (filter_length_perm _ _ _ (order_by_perm by_gameweek_number t)) in Hlen.
  pose proof (order_by_sorted by_gameweek_number by_gameweek_number_asym
                by_gameweek_number_negtrans t) as Hs.
  apply (Permutation_NoDup
           (Permutation_sym (Permutation_map gameweek_number
                               (order_by_perm by_gameweek_number t)))) in Hnd.
  apply (order_by_In by_gameweek_number) in Hr.
  destruct (in_split _ _ Hr) as (a & b & E). rewrite E in *.
  apply firstn_in_prefix.
  assert (Ha : forall x, In x a -> gameweek_number x < gameweek_number r).
  { intros x Hx. rewrite map_app in Hnd. simpl in Hnd.
    apply NoDup_remove_2 in Hnd.
    assert (gameweek_number x <> gameweek_number r).
    { intros Eq. apply Hnd. apply in_or_app. left. rewrite <- Eq. now apply in_map. }
    clear Hnd Hlen Hr E. induction a as [|y a IH]; [destruct Hx|].
    simpl in Hs. inversion Hs as [|? ? Hs' Hall]; subst.
    destruct Hx as [->|Hx]; [|now apply IH].
    rewrite Forall_forall in Hall.
    specialize (Hall r (in_or_app _ _ _ (or_intror (in_eq r b)))).
    unfold by_gameweek_number in Hall. lia. }
  rewrite filter_app, length_app in Hlen.
  assert (Efa : filter (fun g => gameweek_number g <? gameweek_number r) a = a).
  { clear - Ha. induction a as [|y a IH]; [reflexivity|]. simpl.
    assert (H : (gameweek_number y <? gameweek_number r) = true)
      by (apply Z.ltb_lt, Ha; now left).
    rewrite H. f_equal. apply IH. intros x Hx. apply Ha. now right. }
  rewrite Efa in Hlen. lia.
Qed.

Lemma fetch_current t outcome now :
  UseGameweek.current (UseGameweek.fetchGameweekStatus t outcome now)
  = find is_current (UseGameweek.fetched t).
Proof.
  unfold UseGameweek.fetchGameweekStatus.
  now destruct (UseGameweek.or_else _ _).
Qed.

Section HookCurrent.

Variable t : list Gameweeks.row.
Variable c : Z.
Hypothesis numbers_unique : gameweek_numbers_unique t = true.
Hypothesis has_number : In c (map gameweek_number t).
Hypothesis only_current :
  forall r, In r t -> is_current r = (gameweek_number r =? c).

(** X15: the hook fetches the first ten gameweeks by number.  Of a table in
    which the gameweek numbered c is the one marked current, it reports
    that gameweek as current when fewer than ten gameweeks are numbered
    below it, and no current gameweek when ten or more are. *)
Theorem hook_current_is_among_first_ten outcome now :
  ((List.length (lower_numbered c t) < 10)%nat ->
   exists r,
     UseGameweek.current (UseGameweek.fetchGameweekStatus t outcome now) = Some r
     /\ In r t /\ gameweek_number r = c /\ is_current r = true)
  /\ ((10 <= List.length (lower_numbered c t))%nat ->
      UseGameweek.current (UseGameweek.fetchGameweekStatus t outcome now) = None).
Proof.
  rewrite fetch_current. split; intros Hlen.
  - assert (Hnd : NoDup (map gameweek_number t)).
    { clear - numbers_unique.
      unfold gameweek_numbers_unique in numbers_unique.
      induction (map gameweek_number t) as [|x l IH]; [constructor|].
      simpl in numbers_unique. apply andb_true_iff in numbers_unique as [Hx Hl].
      constructor; [|now apply IH]. intros Hin. apply negb_true_iff in Hx.
      rewrite <- not_true_iff_false in Hx. apply Hx. apply existsb_exists.
      exists x. split; [exact Hin|apply Z.eqb_refl]. }
    pose proof has_number as Hc.
    apply in_map_iff in Hc as (r & Er & Hr).
    assert (Hf : In r (UseGameweek.fetched t)).
    { apply first_ten_are_fetched; [exact Hnd | exact Hr |]. now rewrite Er. }
    assert (Hcur : is_current r = true)
      by (rewrite (only_current r Hr), Er; apply Z.eqb_refl).
    destruct (find_one_true is_current _ r Hf Hcur) as (y & Ey).
    exists y. split; [exact Ey|]. apply find_some in Ey as [Hy Hyc].
    apply fetched_in in Hy. split; [exact Hy|]. split; [|exact Hyc].
    rewrite (only_current y Hy) in Hyc. lia.
  - apply find_all_false. intros x Hx.
    destruct (is_current x) eqn:E; [|reflexivity]. exfalso.
    pose proof (fetched_is_among_first_ten _ _ Hx) as Hlt.
    apply fetched_in in Hx. rewrite (only_current x Hx) in E.
    apply Z.eqb_eq in E. rewrite E in Hlt.
    change (filter (fun x0 => gameweek_number x0 <? c) t)
      with (lower_numbered c t) in Hlt.
    lia.
Qed.

End HookCurrent.

(** Eleven finalized gameweeks and the twelfth, active, marked current:
    the hook reports no current gameweek. *)
Lemma hook_current_is_among_first_ten_witness :
  gameweek_numbers_unique Fixture.twelve_gameweeks = true
  /\ map gameweek_number (filter is_current Fixture.twelve_gameweeks) = [12]
  /\ UseGameweek.current
       (UseGameweek.fetchGameweekStatus Fixture.twelve_gameweeks
          UseGameweek.rpc_error 5)
     = None.
Proof.
  split; [reflexivity | split; [reflexivity|]].
  refine (proj2 (hook_current_is_among_first_ten Fixture.twelve_gameweeks 12
                   eq_refl _ _ UseGameweek.rpc_error 5) _).
  - vm_compute. tauto.
  - intros r Hr. vm_compute in Hr.
    repeat (destruct Hr as [<-|Hr]; [reflexivity|]). destruct Hr.
  - vm_compute. lia.
Defined.

(** X16: what the hook reports about transfers when it reads the answer of
    [transfers_allowed] on the gameweeks table t': that they are allowed
    exactly when no gameweek is 'active'.  With a gameweek 'active' the
    procedure answers false; with none it raises, the answer carries the
    error, and the hook keeps its default.  An answer without data counts
    as false. *)
Theorem hook_allows_transfers_only_on_failure t db_now t' now :
  UseGameweek.transfersAllowed
    (UseGameweek.fetchGameweekStatus t
       (UseGameweek.answer (transfers_allowed db_now t')) now)
  = negb (existsb (fun g => String.eqb (status g) "active") t')
  /\ UseGameweek.transfersAllowed
       (UseGameweek.fetchGameweekStatus t (UseGameweek.rpc_data None) now)
     = false
  /\ UseGameweek.transfersAllowed
       (UseGameweek.fetchGameweekStatus t UseGameweek.rpc_error now)
     = true.
Proof.
  unfold UseGameweek.fetchGameweekStatus.
  rewrite transfers_allowed_cases.
  destruct (existsb _ t'); simpl; destruct (UseGameweek.or_else _ _); auto.
Qed.

(** ** The text of the time remaining *)

Section TimeText.

Import TimeRemaining.

Lemma string_of_uint_digits d : all_digits (NilEmpty.string_of_uint d) = true.
Proof. induction d; simpl; auto. Qed.

Lemma template_digits n : 0 <= n -> all_digits (template n) = true.
Proof.
  intros Hn. unfold template. destruct n as [|p|p]; [reflexivity| |lia].
  simpl. unfold NilZero.string_of_uint.
  destruct (Pos.to_uint p); try reflexivity; apply string_of_uint_digits.
Qed.

Lemma template_inj a b : template a = template b -> a = b.
Proof.
  unfold template. intros H. apply to_int_inj.
  assert (Hnn : forall n, Z.to_int n <> Decimal.Pos Decimal.Nil
                          /\ Z.to_int n <> Decimal.Neg Decimal.Nil).
  { intros [|p|p]; simpl; split; try discriminate;
      intros E; injection E as E; exact (Unsigned.to_uint_nonnil p E). }
  destruct (Hnn a) as (Ha1 & Ha2), (Hnn b) as (Hb1 & Hb2).
  pose proof (NilZero.isi _ Ha1 Ha2) as Ea.
  pose proof (NilZero.isi _ Hb1 Hb2) as Eb.
  rewrite H in Ea. congruence.
Qed.

(** Digits are read up to the first character that is none. *)
Lemma digits_then_letter a : forall b c c' s s',
  all_digits a = true -> all_digits b = true ->
  is_digit c = false -> is_digit c' = false ->
  a ++ String c s = b ++ String c' s' ->
  a = b /\ c = c' /\ s = s'.
Proof.
  induction a as [|x a IH]; intros [|y b] c c' s s' Ha Hb Hc Hc' E; simpl in *.
  - injection E as -> ->. auto.
  - injection E as -> _. apply andb_true_iff in Hb as [Hy _]. congruence.
  - injection E as -> _. apply andb_true_iff in Ha as [Hx _]. congruence.
  - injection E as -> E. apply andb_true_iff in Ha as [_ Ha], Hb as [_ Hb].
    destruct (IH b c c' s s' Ha Hb Hc Hc' E) as (-> & -> & ->). auto.
Qed.

Lemma formatTimeRemaining_minutes ms :
  0 < ms -> formatTimeRemaining (Some ms) = minutes_text (ms / 60000).
Proof.
  intros H. unfold formatTimeRemaining, minutes_text.
  replace (ms <=? 0) with false by (symmetry; apply Z.leb_gt; exact H).
  replace (ms / (1000 * 60 * 60 * 24)) with (ms / 60000 / 1440)
    by (Z.div_mod_to_equations; lia).
  replace ((ms mod (1000 * 60 * 60 * 24)) / (1000 * 60 * 60))
    with ((ms / 60000 / 60) mod 24) by (Z.div_mod_to_equations; lia).
  replace ((ms mod (1000 * 60 * 60)) / (1000 * 60)) with ((ms / 60000) mod 60)
    by (Z.div_mod_to_equations; lia).
  reflexivity.
Qed.

Ltac read_number H :=
  apply digits_then_letter in H;
  [ destruct H as (?%template_inj & ? & H)
  | apply template_digits; Z.div_mod_to_equations; lia
  | apply template_digits; Z.div_mod_to_equations; lia
  | reflexivity | reflexivity ].

Ltac read_text H :=
  read_number H; try congruence;
  try (injection H as H; read_number H; try congruence;
       try (injection H as H; read_number H; try congruence)).

Lemma minutes_text_inj p q :
  0 <= p -> 0 <= q -> minutes_text p = minutes_text q -> p = q.
Proof.
  intros Hp Hq. unfold minutes_text. cbv zeta.
  destruct (p / 1440 >? 0) eqn:Dp, (q / 1440 >? 0) eqn:Dq,
    ((p / 60) mod 24 >? 0) eqn:Hhp, ((q / 60) mod 24 >? 0) eqn:Hhq;
    simpl; intros H; read_text H;
    Z.div_mod_to_equations; lia.
Qed.

Lemma minutes_text_not_empty q : minutes_text q <> "".
Proof.
  unfold minutes_text. cbv zeta.
  assert (H : forall s c r, s ++ String c r <> "") by (intros [|x s] c r; discriminate).
  destruct (_ >? 0); [apply H|]. destruct (_ >? 0); apply H.
Qed.

(** X17: for a positive count of milliseconds the text is not empty, and two
    counts have the same text exactly when they hold the same number of
    whole minutes: the text tells the time remaining to the minute. *)
Theorem formatTimeRemaining_tells_the_minutes a b :
  0 < a -> 0 < b ->
  formatTimeRemaining (Some a) <> ""
  /\ (formatTimeRemaining (Some a) = formatTimeRemaining (Some b)
      <-> a / 60000 = b / 60000).
Proof.
  intros Ha Hb. rewrite !formatTimeRemaining_minutes by assumption.
  split; [apply minutes_text_not_empty|]. split.
  - apply minutes_text_inj; Z.div_mod_to_equations; lia.
  - now intros ->.
Qed.

End TimeText.

(** One day, one hour, one minute and one second, and 58.999 seconds more:
    both read "1d 1h 1m". *)
Lemma formatTimeRemaining_tells_the_minutes_witness :
  TimeRemaining.formatTimeRemaining (Some 90061000) = "1d 1h 1m"
  /\ TimeRemaining.formatTimeRemaining (Some 59999) = "0m"
  /\ (TimeRemaining.formatTimeRemaining (Some 90061000)
      = TimeRemaining.formatTimeRemaining (Some 90119999)
      <-> 90061000 / 60000 = 90119999 / 60000).
Proof.
  split; [reflexivity | split; [reflexivity|]].
  apply (formatTimeRemaining_tells_the_minutes 90061000 90119999); reflexivity.
Defined.

(** ** is_finished and the status *)

Lemma set_status_row_finished g s r :
  finished_agrees r -> finished_agrees (set_status_row g s r).
Proof.
  unfold finished_agrees, set_status_row. intros H.
  destruct (gameweek_number r =? g) eqn:E; simpl.
  - destruct (String.eqb s "active"); simpl; [|reflexivity].
    rewrite E. simpl. destruct (gameweek_number r =? g + 1); reflexivity.
  - destruct (String.eqb s "active"); simpl; [|exact H].
    rewrite E. simpl. destruct (gameweek_number r =? g + 1); exact H.
Qed.

Lemma advance_row_finished g r :
  finished_agrees r ->
  (finished_agrees (advance_row g r)
   <-> ~ (gameweek_number r = g + 1 /\ status r = "finalized")).
Proof.
  unfold finished_agrees, advance_row. intros H.
  destruct (gameweek_number r =? g) eqn:E1; simpl;
    destruct (gameweek_number r =? g + 1) eqn:E2; simpl;
    destruct (gameweek_number r =? g + 2) eqn:E3; simpl;
    try lia; rewrite ?H;
    try (split; [intros _ [? _]; lia | reflexivity]).
  destruct (String.eqb (status r) "finalized") eqn:Es.
  - apply String.eqb_eq in Es. split; [discriminate|]. intros Hn.
    exfalso. apply Hn. split; [lia|exact Es].
  - apply String.eqb_neq in Es. split; [intros _ [_ ?]; contradiction|reflexivity].
Qed.

(** X18: on a table where is_finished tells whether the status is 'finalized',
    as the migration leaves it: setGameweekStatus keeps it so; and a
    [finalize_gameweek] that returns keeps it so on every gameweek but a
    gameweek g+1 that was 'finalized', which becomes 'active' and stays
    finished. *)
Theorem is_finished_follows_status t :
  Forall finished_agrees t ->
  (forall g s, Forall finished_agrees (GameweekManager.setGameweekStatus g s t))
  /\ (forall g db db',
        gameweeks db = t -> finalize_gameweek g db = (Ok tt, db') ->
        Forall2 (fun old new =>
                   finished_agrees new
                   <-> ~ (gameweek_number old = g + 1 /\ status old = "finalized"))
                t (gameweeks db')).
Proof.
  intros Hall. rewrite Forall_forall in Hall. split.
  - intros g s. rewrite setGameweekStatus_rows, Forall_forall. intros r' Hr'.
    apply in_map_iff in Hr' as (r & <- & Hr).
    apply set_status_row_finished, Hall, Hr.
  - intros g db db' <- H. rewrite (finalize_gameweek_rows g db db' H).
    apply Forall2_map_self_in. intros r Hr. apply advance_row_finished, Hall, Hr.
Qed.

(** The season with gameweek 2 already 'finalized': finalizing gameweek 1
    makes gameweek 2 'active' and leaves its is_finished true. *)
Lemma is_finished_follows_status_witness :
  Forall finished_agrees (gameweeks Example.season)
  /\ finalize_gameweek 1 Example.season = (Ok tt, Fixture.after_first)
  /\ map (fun r => (status r, is_finished r)) (gameweeks Fixture.after_first)
     = [("finalized", true); ("active", true); ("upcoming", false)]
  /\ Forall2 (fun old new =>
                finished_agrees new
                <-> ~ (gameweek_number old = 1 + 1 /\ status old = "finalized"))
             (gameweeks Example.season) (gameweeks Fixture.after_first).
Proof.
  assert (H : Forall finished_agrees (gameweeks Example.season))
    by (repeat constructor).
  assert (F : finalize_gameweek 1 Example.season = (Ok tt, Fixture.after_first))
    by (vm_compute; reflexivity).
  split; [exact H | split; [exact F | split; [reflexivity|]]].
  exact (proj2 (is_finished_follows_status (gameweeks Example.season) H)
           1 Example.season Fixture.after_first eq_refl F).
Defined.

(** ** The Overall league *)

Section OverallLeagueProofs.

Import OverallLeague.

Lemma insert_overall_has new_id ls : existsb is_overall (insert_overall new_id ls) = true.
Proof.
  unfold insert_overall. destruct (existsb is_overall ls) eqn:E; [exact E|].
  rewrite existsb_app. simpl. apply orb_true_r.
Qed.

Lemma select_overall_some ls :
  existsb is_overall ls = true ->
  exists o, select_overall ls = Some o
            /\ exists l, In l ls /\ is_overall l = true /\ league_id l = o.
Proof.
  intros H. apply existsb_exists in H as (l & Hl & Ho).
  unfold select_overall.
  destruct (filter is_overall ls) as [|l0 r] eqn:E.
  - assert (Hin : In l (filter is_overall ls)) by (apply filter_In; auto).
    rewrite E in Hin. destruct Hin.
  - exists (league_id l0). split; [reflexivity|]. exists l0.
    assert (Hin : In l0 (filter is_overall ls)) by (rewrite E; now left).
    apply filter_In in Hin as [? ?]. auto.
Qed.

Lemma update_where_fixed {A} (cond : A -> bool) (set : A -> A) (l : list A) :
  (forall r, In r l -> cond r = true -> set r = r) ->
  Sql.update_where cond set l = l.
Proof.
  unfold Sql.update_where. intros H. induction l as [|r l IH]; [reflexivity|].
  simpl. rewrite IH by (intros x Hx; apply H; now right).
  destruct (cond r) eqn:E; [rewrite (H r (or_introl eq_refl) E)|]; reflexivity.
Qed.

Lemma is_moved_spec a o t :
  is_moved a (Some o) t = true <->
  (exists u x, owner t = Some u /\ a = Some x /\ u <> x)
  /\ team_league t <> Some o.
Proof.
  unfold is_moved, ne, is_null.
  destruct (owner t) as [u|], a as [x|], (team_league t) as [l|]; simpl;
    try destruct (N.eqb_spec u x) as [->|Hu];
    try destruct (N.eqb_spec l o) as [->|Hl]; simpl;
    (split;
     [ intros H; try discriminate H;
       (split; [exists u, x; auto | congruence])
     | intros [(u' & x' & Eu & Ex & Hne) Hnl]; try reflexivity; congruence ]).
Qed.

Lemma in_league_some o t : in_league (Some o) t = true <-> team_league t = Some o.
Proof.
  unfold in_league. destruct (team_league t) as [l|]; simpl.
  - destruct (N.eqb_spec l o) as [->|H]; split; congruence.
  - split; discriminate.
Qed.

Lemma migrate_ok new_id s s' :
  migrate new_id s = Ok s' ->
  exists o,
    select_overall (insert_overall new_id (leagues s)) = Some o
    /\ users s' = users s
    /\ fantasy_teams s'
       = Sql.update_where (is_moved (admin_id (users s)) (Some o))
                          (with_league (Some o)) (fantasy_teams s)
    /\ leagues s'
       = Sql.update_where
           (fun l => Sql.holds (Sql.cmp N.eqb (Some (league_id l)) (Some o)))
           (with_current_participants
              (Z.of_nat (List.length (filter (in_league (Some o))
                                             (fantasy_teams s')))))
           (insert_overall new_id (leagues s)).
Proof.
  unfold migrate. intros H.
  destruct (select_overall_some _ (insert_overall_has new_id (leagues s)))
    as (o & Eo & _).
  rewrite Eo in H. exists o. split; [exact Eo|].
  unfold int4 in H. destruct (in_int4 _); [|discriminate].
  simpl in H. injection H as <-. simpl. repeat split; reflexivity.
Qed.

(** X19: after the migration every team with an owner other than the admin is
    in the league named Overall, and the other teams are where they were:
    without a user named admin or with the address, every team is where it
    was.  The league's current_participants is the number of teams then in
    it.  Running the migration again changes nothing. *)
Theorem overall_league_migration new_id s s' :
  migrate new_id s = Ok s' ->
  exists o,
    (exists l, In l (leagues s') /\ name l = "Overall" /\ league_id l = o
               /\ current_participants l
                  = Z.of_nat (List.length
                                (filter (fun t => match team_league t with
                                                  | Some x => (x =? o)%N
                                                  | None => false
                                                  end)
                                        (fantasy_teams s'))))
    /\ Forall2 (fun old new =>
                  fantasy_team_id new = fantasy_team_id old
                  /\ owner new = owner old
                  /\ team_league new
                     = match owner old, admin_id (users s) with
                       | Some u, Some x =>
                           if (u =? x)%N then team_league old else Some o
                       | _, _ => team_league old
                       end)
               (fantasy_teams s) (fantasy_teams s')
    /\ forall new_id', migrate new_id' s' = Ok s'.
Proof.
  intros H. destruct (migrate_ok new_id s s' H) as (o & Eo & Eu & Et & El).
  exists o. split; [|split].
  - destruct (select_overall_some _ (insert_overall_has new_id (leagues s)))
      as (o' & Eo' & l & Hl & Hov & Eid).
    rewrite Eo in Eo'. injection Eo' as <-.
    exists (with_current_participants
              (Z.of_nat (List.length (filter (in_league (Some o))
                                             (fantasy_teams s')))) l).
    split; [|split; [|split]].
    + rewrite El. unfold Sql.update_where. apply in_map_iff. exists l.
      split; [|exact Hl]. simpl. now rewrite Eid, N.eqb_refl.
    + apply String.eqb_eq. exact Hov.
    + exact Eid.
    + simpl. do 2 f_equal. apply filter_ext. intros t. unfold in_league.
      destruct (team_league t) as [x|]; simpl; [now destruct (x =? o)%N|reflexivity].
  - rewrite Et. unfold Sql.update_where. apply Forall2_map_self. intros t.
    destruct (is_moved (admin_id (users s)) (Some o) t) eqn:E.
    + apply is_moved_spec in E as ((u & x & Eu' & Ex & Hne) & _).
      simpl. rewrite Eu', Ex. apply N.eqb_neq in Hne. now rewrite Hne.
    + split; [reflexivity|]. split; [reflexivity|].
      destruct (owner t) as [u|] eqn:Eu'; [|reflexivity].
      destruct (admin_id (users s)) as [x|] eqn:Ex; [|reflexivity].
      destruct (N.eqb_spec u x) as [->|Hne]; [reflexivity|].
      assert (Hl : team_league t = Some o).
      { destruct (team_league t) as [l|] eqn:El'.
        - destruct (N.eqb_spec l o) as [->|Hlo]; [reflexivity|]. exfalso.
          rewrite <- not_true_iff_false in E. apply E. apply is_moved_spec.
          rewrite Eu', El'. split; [exists u, x; auto|congruence].
        - exfalso. rewrite <- not_true_iff_false in E. apply E.
          apply is_moved_spec. rewrite Eu', El'.
          split; [exists u, x; auto|discriminate]. }
      now rewrite Hl.
  - intros new_id'. unfold migrate.
    assert (Hex : existsb is_overall (leagues s') = true).
    { rewrite El. unfold Sql.update_where.
      pose proof (insert_overall_has new_id (leagues s)) as Hh.
      apply existsb_exists in Hh as (l & Hl & Ho). apply existsb_exists.
      exists (if Sql.holds (Sql.cmp N.eqb (Some (league_id l)) (Some o))
              then with_current_participants
                     (Z.of_nat (List.length (filter (in_league (Some o))
                                                    (fantasy_teams s')))) l
              else l).
      split; [apply in_map_iff; now exists l|].
      now destruct (Sql.holds _). }
    assert (Ei : insert_overall new_id' (leagues s') = leagues s')
      by (unfold insert_overall; now rewrite Hex).
    rewrite Ei.
    assert (Eo2 : select_overall (leagues s') = Some o).
    { rewrite El. unfold select_overall, Sql.update_where in *.
      rewrite (filter_map_comm is_overall).
      rewrite (filter_ext _ is_overall)
        by (intros l; now destruct (Sql.holds _)).
      destruct (filter is_overall (insert_overall new_id (leagues s)))
        as [|l0 r]; [discriminate|]. simpl in *. injection Eo as <-.
      now destruct (league_id l0 =? league_id l0)%N. }
    rewrite Eo2, Eu.
    assert (Et2 : Sql.update_where (is_moved (admin_id (users s)) (Some o))
                    (with_league (Some o)) (fantasy_teams s')
                  = fantasy_teams s').
    { apply update_where_fixed. intros t Ht Hm. exfalso.
      apply is_moved_spec in Hm as ((u & x & Eu' & Ex & Hne) & Hnl).
      rewrite Et in Ht. unfold Sql.update_where in Ht.
      apply in_map_iff in Ht as (t0 & E0 & _).
      destruct (is_moved (admin_id (users s)) (Some o) t0) eqn:Em.
      - subst t. simpl in Hnl. contradiction.
      - subst t0. rewrite <- not_true_iff_false in Em. apply Em.
        apply is_moved_spec. split; [exists u, x; auto|exact Hnl]. }
    rewrite Et2.
    assert (Hin : in_int4 (Z.of_nat (List.length (filter (in_league (Some o))
                                                        (fantasy_teams s'))))
                  = true).
    { unfold migrate in H. rewrite Eo in H. rewrite <- Et in H.
      unfold int4 in H. destruct (in_int4 _); [reflexivity|discriminate]. }
    unfold int4. rewrite Hin. simpl. f_equal.
    rewrite update_where_fixed; [destruct s'; simpl in *; congruence|].
    intros l Hl Hc. cbv beta in Hc.
    rewrite El in Hl. unfold Sql.update_where in Hl.
    apply in_map_iff in Hl as (l0 & E0 & _).
    destruct (Sql.holds (Sql.cmp N.eqb (Some (league_id l0)) (Some o))) eqn:E1.
    + subst l. reflexivity.
    + subst l. simpl in E1. congruence.
Qed.

End OverallLeagueProofs.

(** An admin, another user and three teams without a league: the other
    user's team moves to the new league, the admin's and the ownerless team
    stay; a second run changes nothing. *)
Lemma overall_league_migration_witness :
  OverallLeague.migrate 99%N Fixture.before_overall = Ok Fixture.after_overall
  /\ map OverallLeague.team_league
         (OverallLeague.fantasy_teams Fixture.after_overall)
     = [None; Some 99%N; None]
  /\ map (fun l => (OverallLeague.name l, OverallLeague.current_participants l))
         (OverallLeague.leagues Fixture.after_overall)
     = [("Overall", 1)]
  /\ (forall new_id', OverallLeague.migrate new_id' Fixture.after_overall
                      = Ok Fixture.after_overall).
Proof.
  assert (H : OverallLeague.migrate 99%N Fixture.before_overall
              = Ok Fixture.after_overall) by (vm_compute; reflexivity).
  split; [exact H | split; [reflexivity | split; [reflexivity|]]].
  destruct (overall_league_migration 99%N Fixture.before_overall
              Fixture.after_overall H) as (o & _ & _ & Hagain).
  exact Hagain.
Defined.

(** ** What the calculation reads *)

Lemma for_each_result_ext {X S} (rows : list X) (body body' : S -> X -> result S) :
  (forall s x, body s x = body' s x) ->
  forall s, for_each rows s body = for_each rows s body'.
Proof.
  intros H. induction rows as [|x r IH]; intros s; [reflexivity|].
  rewrite !for_each_result_cons, H. destruct (body' s x); [apply IH|reflexivity].
Qed.

Lemma filter_filter_and {A} (p q : A -> bool) (l : list A) :
  filter (fun x => p x && q x) l = filter p (filter q l).
Proof.
  induction l as [|x l IH]; [reflexivity|]. simpl.
  destruct (q x) eqn:Eq; simpl; [|now rewrite andb_false_r].
  rewrite andb_true_r. destruct (p x); now rewrite IH.
Qed.

Section CalculatorFrame.

Variables db db' : database.
Variable team : uuid.
Variable gw : Z.
Hypothesis same_roster : team_rosters db' team = team_rosters db team.
Hypothesis same_players : players db' = players db.
Hypothesis same_scores :
  filter (fun gs => GameweekScores.gameweek gs =? gw) (gameweek_scores db')
  = filter (fun gs => GameweekScores.gameweek gs =? gw) (gameweek_scores db).

Lemma scores_of_same pid : scores_of db' gw pid = scores_of db gw pid.
Proof.
  unfold scores_of.
  rewrite !(filter_filter_and
              (fun gs => (GameweekScores.player_id gs =? pid)%N)
              (fun gs => GameweekScores.gameweek gs =? gw)).
  now rewrite same_scores.
Qed.

Lemma roster_join_same : roster_join db' team gw = roster_join db team gw.
Proof.
  unfold roster_join. rewrite same_roster, same_players.
  apply flat_map_ext. intros r. apply flat_map_ext. intros p.
  unfold left_join_scores. now rewrite scores_of_same.
Qed.

Lemma find_substitute_same position :
  find_substitute db' team gw position = find_substitute db team gw position.
Proof. unfold find_substitute. now rewrite roster_join_same. Qed.

Lemma add_player_same acc r :
  add_player db' team gw acc r = add_player db team gw acc r.
Proof. unfold add_player. now rewrite find_substitute_same. Qed.

(** X20: the points of a team for a gameweek depend on the roster rows of that
    team, on the players and on the scores of that gameweek, and on nothing
    else: not on other teams' rosters, not on the scores of other
    gameweeks, not on any other table. *)
Theorem calculate_reads_its_team_and_gameweek :
  calculate_fantasy_team_points db' team gw = calculate_fantasy_team_points db team gw.
Proof.
  unfold calculate_fantasy_team_points, player_records.
  rewrite roster_join_same.
  rewrite (for_each_result_ext _ _ _ add_player_same).
  destruct (for_each _ _ _) as [[total captain]|e]; [|reflexivity]. simpl.
  unfold apply_captain_bonus, vice_captain_id, vice_captain_points.
  rewrite same_roster.
  destruct (captain >? 0); [reflexivity|].
  destruct (option_map _ _) as [vice|]; [|reflexivity].
  now rewrite scores_of_same.
Qed.

End CalculatorFrame.

(** The opening season holds the roster of the worked example and, besides
    its scores, those of gameweek 2: the points of gameweek 1 are the same
    17. *)
Lemma calculate_reads_its_team_and_gameweek_witness :
  calculate_fantasy_team_points Example.worked 1%N 1 = Ok 17
  /\ gameweek_scores Fixture.opening <> gameweek_scores Example.worked
  /\ calculate_fantasy_team_points Fixture.opening 1%N 1
     = calculate_fantasy_team_points Example.worked 1%N 1.
Proof.
  split; [reflexivity | split; [discriminate|]].
  apply calculate_reads_its_team_and_gameweek; reflexivity.
Defined.

(** ** When a finalization returns *)

Lemma in_int4_bounds z : in_int4 z = true <-> int4_min <= z <= int4_max.
Proof. unfold in_int4. rewrite andb_true_iff, !Z.leb_le. tauto. Qed.

Lemma int4_returns z : int4_min <= z <= int4_max -> int4 z = Ok z.
Proof. intros H. unfold int4. apply in_int4_bounds in H. now rewrite H. Qed.

Lemma int4_add_returns a b :
  int4_min <= a + b <= int4_max -> int4_add a b = Ok (a + b).
Proof. apply int4_returns. Qed.

Lemma update_where_checked_returns {A} (cond : A -> bool) (set : A -> result A)
    (t : list A) :
  (forall r, In r t -> cond r = true -> exists r', set r = Ok r') ->
  exists t', update_where_checked cond set t = Ok t'.
Proof.
  induction t as [|r t IH]; intros H; [now exists []|]. simpl.
  destruct IH as (t' & ->); [intros x Hx; apply H; now right|].
  destruct (cond r) eqn:E.
  - destruct (H r (or_introl eq_refl) E) as (r' & ->). simpl. eauto.
  - simpl. eauto.
Qed.

(** A loop that only counts returns when the counter has room. *)
Lemma counting_loop_returns {X} (step : Z -> X -> database -> database)
    (l : list X) : forall k db,
  int4_min <= k -> k + Z.of_nat (List.length l) <= int4_max ->
  exists db',
    for_each l k (fun k x => perform (step k x) ;;; eval (int4_add k 1)) db
    = (Ok (k + Z.of_nat (List.length l)), db').
Proof.
  induction l as [|x l IH]; intros k db Hk Hlen.
  - exists db. simpl. now rewrite Z.add_0_r.
  - rewrite for_each_plpgsql_cons, bind_run.
    change ((perform (step k x) ;;; eval (int4_add k 1)) db)
      with (int4_add k 1, step k x db).
    simpl List.length in *.
    rewrite (int4_add_returns k 1) by lia.
    destruct (IH (k + 1) (step k x db)) as (db' & E); [lia | lia |].
    exists db'. rewrite E. do 2 f_equal. lia.
Qed.

Section FinalizerReturns.

Variable g : Z.
Variable db : database.

(** Every stored score is within [B] of zero, every team's points within
    [P], every total and every previous gameweek's points within [T]. *)
Variables B P T : Z.
Hypothesis B_nonneg : 0 <= B.
Hypothesis scores_bounded :
  forall gs, In gs (gameweek_scores db) ->
    - B <= Sql.coalesce (GameweekScores.total_points gs) 0 <= B.
Hypothesis schema : scoring_schema db = true.
Hypothesis ids_unique : team_ids_unique db = true.
Hypothesis keys_unique : ledger_keys_unique db = true.
Hypothesis one_captain :
  forall t, In t (fantasy_teams db) ->
    at_most_one_captain db (FantasyTeams.fantasy_team_id t) = true.
Hypothesis rosters_small :
  forall t, In t (fantasy_teams db) ->
    (Z.of_nat (List.length (team_rosters db (FantasyTeams.fantasy_team_id t))) + 1) * B
    <= P.
Hypothesis totals_bounded : forall t, In t (fantasy_teams db) -> roomy T t.
Hypothesis room : 0 <= T /\ T + P + T <= int4_max.
Hypothesis matches_completed : has_incomplete_match g db = false.
Hypothesis numbers_in_range : int4_min <= g + 1 /\ g + 2 <= int4_max.
Hypothesis few_teams : Z.of_nat (List.length (fantasy_teams db)) + 1 <= int4_max.

Lemma points_returned t :
  In t (fantasy_teams db) ->
  exists p, calculate_fantasy_team_points db (FantasyTeams.fantasy_team_id t) g = Ok p
            /\ - P <= p <= P.
Proof.
  intros Ht. pose proof (rosters_small t Ht) as Hs.
  set (team := FantasyTeams.fantasy_team_id t) in *.
  rewrite (calculate_fantasy_team_points_returns db team g B B_nonneg
             scores_bounded schema (one_captain t Ht)) by (unfold int4_max in *; lia).
  eexists. split; [reflexivity|].
  pose proof (base_total_bounded db team g B B_nonneg scores_bounded).
  pose proof (captain_contribution_bounded db team g B B_nonneg scores_bounded).
  pose proof (vice_captain_bonus_bounded db team g B B_nonneg scores_bounded).
  destruct (0 <? captain_contribution db team g); lia.
Qed.

Lemma settle_team_returns p t :
  - P <= p <= P -> roomy T t ->
  exists t', settle_team p (g + 1) t = Ok t'.
Proof.
  intros Hp (Ht & Hg & Hb). unfold settle_team.
  rewrite int4_add_returns by (unfold int4_min, int4_max in *; lia). simpl.
  unfold int4_sub. rewrite int4_returns by (unfold int4_min, int4_max in *; lia).
  simpl. rewrite int4_add_returns by lia. simpl. eauto.
Qed.

Lemma settle_returns team d :
  same_inputs db d ->
  (exists p, calculate_fantasy_team_points db team g = Ok p /\ - P <= p <= P) ->
  (forall t, In t (fantasy_teams d) -> FantasyTeams.fantasy_team_id t = team ->
     roomy T t) ->
  exists d', settle g team d = (Ok tt, d').
Proof.
  intros (_ & _ & Er & Ep & Es) (p & Hc & Hp) Hrows.
  rewrite <- (calculate_same_tables db d team g Er Ep Es) in Hc.
  destruct (update_where_checked_returns (is_team team) (settle_team p (g + 1))
              (fantasy_teams d)) as (teams & Eu).
  { intros t Ht Hid. apply settle_team_returns; [exact Hp|].
    apply (Hrows t Ht). unfold is_team in Hid. now apply N.eqb_eq. }
  eexists. unfold settle. rewrite bind_run. unfold query_checked at 1.
  rewrite Hc. rewrite bind_run. unfold perform at 1. rewrite bind_run.
  unfold eval at 1. rewrite int4_add_returns by lia. rewrite bind_run.
  unfold query_checked at 1. cbn [fantasy_teams on_points
    with_fantasy_team_gameweek_points]. rewrite Eu. reflexivity.
Qed.

Lemma settle_loop_returns (l : list uuid) : forall d,
  NoDup l -> same_inputs db d ->
  (forall team, In team l ->
     exists p, calculate_fantasy_team_points db team g = Ok p /\ - P <= p <= P) ->
  (forall t, In t (fantasy_teams d) -> In (FantasyTeams.fantasy_team_id t) l ->
     roomy T t) ->
  exists d', for_each l tt (fun _ team => settle g team) d = (Ok tt, d').
Proof.
  induction l as [|x l IH]; intros d Hnd Hin Hc Hrows; [now exists d|].
  inversion Hnd as [|? ? Hx Hnd']; subst.
  destruct (settle_returns x d Hin (Hc x (or_introl eq_refl))) as (d1 & E1).
  { intros t Ht Hid. apply Hrows; [exact Ht|]. left. now symmetry. }
  rewrite for_each_plpgsql_cons, bind_run, E1.
  apply IH; [exact Hnd' | | intros team Ht; apply Hc; now right |].
  - pose proof (settle_same_inputs g x d) as K. rewrite E1 in K.
    exact (same_inputs_trans _ _ _ Hin K).
  - intros t Ht Hid. apply settle_ok in E1 as (p & n & _ & _ & F).
    destruct (Forall2_in_right _ _ _ _ F Ht) as (old & Hold & R).
    unfold is_team in R.
    destruct (FantasyTeams.fantasy_team_id old =? x)%N eqn:E.
    + apply settle_team_ok in R as (Ei & _). apply N.eqb_eq in E.
      exfalso. apply Hx. now rewrite <- E, <- Ei.
    + subst t. apply Hrows; [exact Hold|]. now right.
Qed.

Lemma rank_in_league_loop_returns (l : list (uuid * Z)) k d :
  int4_min <= k -> k + Z.of_nat (List.length l) <= int4_max ->
  exists k' d', for_each l k (rank_in_league g) d = (Ok k', d').
Proof.
  intros Hk Hlen.
  destruct (counting_loop_returns
              (fun k (x : uuid * Z) =>
                 on_points (Sql.update_where (points_key g (fst x))
                   (TeamGameweekPoints.with_rank_in_league (Some k))))
              l k d Hk Hlen) as (d' & E).
  exists (k + Z.of_nat (List.length l)), d'. exact E.
Qed.

Lemma rank_overall_loop_returns (l : list uuid) k d :
  int4_min <= k -> k + Z.of_nat (List.length l) <= int4_max ->
  exists k' d', for_each l k rank_overall d = (Ok k', d').
Proof.
  intros Hk Hlen.
  destruct (counting_loop_returns
              (fun k (x : uuid) =>
                 on_fantasy_teams (Sql.update_where (is_team x)
                   (FantasyTeams.with_rank (Some k))))
              l k d Hk Hlen) as (d' & E).
  exists (k + Z.of_nat (List.length l)), d'. exact E.
Qed.

(** The loops over the leagues return when no league has more members
    than the counter can count. *)
Lemma rank_leagues_returns db1 (ls : list uuid) : forall rc d F,
  (forall league, NoDup (league_members g league db1)) ->
  (forall league,
     1 + Z.of_nat (List.length (league_members g league db1)) <= int4_max) ->
  map membership (fantasy_teams d) = map membership (fantasy_teams db1) ->
  fantasy_team_gameweek_points d = map F (fantasy_team_gameweek_points db1) ->
  (forall r, ledger_key (F r) = ledger_key r) ->
  (forall r, TeamGameweekPoints.points (F r) = TeamGameweekPoints.points r) ->
  exists rc' d',
    for_each ls rc (rank_league g) d = (Ok rc', d')
    /\ fantasy_teams d' = fantasy_teams d.
Proof.
  induction ls as [|league ls IH]; intros rc d F Hnd Hlen Et El Hk Hp.
  - exists rc, d. split; reflexivity.
  - assert (Em : league_members g league d = league_members g league db1).
    { rewrite <- !league_table_members.
      now rewrite (league_members_map g league db1 d F Et El Hk Hp). }
    destruct (rank_in_league_loop_returns (league_table g league d) 1 d)
      as (rc1 & d1 & E1).
    { unfold int4_min. lia. }
    { rewrite <- (length_map fst), league_table_members, Em. apply Hlen. }
    assert (E1' : rank_league g rc league d = (Ok rc1, d1)).
    { unfold rank_league. rewrite bind_query. exact E1. }
    pose proof E1' as E2.
    apply rank_league_ledger in E2 as (Et1 & El1); [|rewrite Em; apply Hnd].
    rewrite Em, El, map_map in El1.
    destruct (IH rc1 d1
                (fun r => league_rank_by_position g (league_members g league db1)
                            1 (F r)) Hnd Hlen) as (rc' & d' & E' & Et');
      [now rewrite Et1 | exact El1
      | intros r; now rewrite league_rank_by_position_key
      | intros r; now rewrite league_rank_by_position_points |].
    exists rc', d'. split; [|congruence].
    rewrite for_each_plpgsql_cons, bind_run, E1'. exact E'.
Qed.

(** X21: a finalization returns when every match of the gameweek is completed
    and the numbers have room: the scores within [B] of zero, every roster
    small enough for its points to stay within [P], every total and every
    previous gameweek's points within [T] with T + P + T an INTEGER, the
    banked transfers below the greatest INTEGER, fewer teams than the rank
    counter can count, and g + 2 an INTEGER. *)
Theorem finalize_gameweek_returns :
  exists db', finalize_gameweek g db = (Ok tt, db').
Proof.
  assert (Hnd0 : NoDup (teams_by_id db)).
  { apply (Permutation_NoDup (Permutation_sym (teams_by_id_perm db))).
    now apply distinct_NoDup. }
  assert (Hteam : forall team, In team (teams_by_id db) ->
            exists t, In t (fantasy_teams db)
                      /\ FantasyTeams.fantasy_team_id t = team).
  { intros team Ht. apply (Permutation_in _ (teams_by_id_perm db)) in Ht.
    apply in_map_iff in Ht as (t & E & Ht). eauto. }
  destruct (settle_loop_returns (teams_by_id db) db Hnd0 (same_inputs_refl db))
    as (db1 & E1).
  { intros team Ht. destruct (Hteam team Ht) as (t & Hin & <-).
    now apply points_returned. }
  { intros t Ht _. now apply totals_bounded. }
  pose proof (settle_all_teams g db db1 ids_unique E1) as F1.
  assert (Eids : map FantasyTeams.fantasy_team_id (fantasy_teams db1)
                 = map FantasyTeams.fantasy_team_id (fantasy_teams db)).
  { exact (Forall2_map_eq _ FantasyTeams.fantasy_team_id
             FantasyTeams.fantasy_team_id _ _
             (fun x y (S : settled db g x y) =>
                f_equal fst (settled_membership db g x y S)) F1). }
  assert (Hnd : NoDup (map FantasyTeams.fantasy_team_id (fantasy_teams db1)))
    by (rewrite Eids; now apply distinct_NoDup).
  set (pts := fun team => match calculate_fantasy_team_points db team g with
                          | Ok p => p
                          | Raise _ => 0
                          end).
  destruct (settle_loop_ledger g db pts (teams_by_id db) db db1) as (_ & El1);
    [intros team p Hc; unfold pts; now rewrite Hc
    | apply same_inputs_refl | exact E1 |].
  assert (Hndl : NoDup (map ledger_key (fantasy_team_gameweek_points db1)))
    by (rewrite El1; apply record_all_NoDup; now apply distinct_keys_NoDup).
  assert (Hlen1 : List.length (fantasy_teams db1) = List.length (fantasy_teams db))
    by (rewrite <- (length_map FantasyTeams.fantasy_team_id), Eids;
        apply length_map).
  destruct (rank_leagues_returns db1 (league_ids db1) 1 db1 (fun r => r))
    as (rc & db2 & E2 & Et2); try reflexivity.
  { intros league. now apply league_members_NoDup. }
  { intros league.
    assert (Hle : (List.length (league_members g league db1)
                   <= List.length (map FantasyTeams.fantasy_team_id
                                       (fantasy_teams db1)))%nat).
    { apply NoDup_incl_length; [now apply league_members_NoDup|].
      intros team Ht. apply (Permutation_in _ (league_members_perm _ _ _)) in Ht.
      apply in_map_iff in Ht as (r & <- & Hr).
      apply league_join_in in Hr as (_ & _ & ft & Hft & <- & _).
      now apply in_map. }
    rewrite length_map, Hlen1 in Hle. lia. }
  { symmetry. apply map_id. }
  destruct (rank_overall_loop_returns (overall_table db2) 1 db2)
    as (rc' & db3 & E3).
  { unfold int4_min. lia. }
  { unfold overall_table.
    rewrite length_map, (Permutation_length (order_by_perm overall_order _)).
    rewrite Et2, Hlen1. lia. }
  eexists. unfold finalize_gameweek.
  rewrite bind_query, matches_completed, bind_ret, bind_query, bind_run, E1.
  rewrite bind_query, bind_run, E2, bind_query, bind_run, E3.
  rewrite bind_run. unfold perform at 1. rewrite bind_run. unfold eval at 1.
  rewrite int4_add_returns by (unfold int4_max in *; lia).
  rewrite bind_run. unfold perform at 1. rewrite bind_run. unfold eval at 1.
  rewrite int4_add_returns by (unfold int4_min in *; lia).
  reflexivity.
Qed.

End FinalizerReturns.

(** The three teams: scores within 100, rosters of at most four, totals
    within 1000. *)
Lemma finalize_gameweek_returns_witness :
  scoring_schema Fixture.three_teams = true
  /\ has_incomplete_match 1 Fixture.three_teams = false
  /\ exists db', finalize_gameweek 1 Fixture.three_teams = (Ok tt, db').
Proof.
  split; [reflexivity | split; [reflexivity|]].
  apply (finalize_gameweek_returns 1 Fixture.three_teams 100 1000 1000);
    try reflexivity; try (unfold int4_min, int4_max; simpl; lia).
  - intros gs H. simpl in H.
    repeat (destruct H as [<-|H]; [simpl; lia|]). destruct H.
  - intros t H. simpl in H.
    repeat (destruct H as [<-|H]; [reflexivity|]). destruct H.
  - intros t H. simpl in H.
    repeat (destruct H as [<-|H]; [vm_compute; discriminate|]). destruct H.
  - intros t H. simpl in H. unfold roomy, int4_min, int4_max.
    repeat (destruct H as [<-|H]; [simpl; lia|]). destruct H.
Defined.
